(** * ts-diagnostics-mcp: watch orchestration, diagnostic store, cache and
    ignore filter, embedded from the TypeScript sources.

    Conventions of the embedding.
    - A JavaScript [Map] keeps insertion order, which the query results
      expose, so it is an association list ([JsMap]) and not a finite map.
    - A JavaScript array that is shared between the per-file index and a cache
      entry is a location in an explicit heap of arrays.
    - [Date.now()] is an explicit argument [now] of every operation that reads
      the clock, a number of milliseconds in [N].
    - A thrown exception is the [Throw] case of [Result].
    - Strings are [string]s; a character stands for a code unit from 0 to
      255.  Text with other characters is outside the embedding.
    - A path of the file system names a file that can be read, or something
      that exists and cannot be read; [existsSync] is true for both.
    - [console.log] / [console.error] output is not modelled. *)

From Stdlib Require Import List String Ascii Bool Arith NArith ZArith QArith Lia.
Import ListNotations.

Local Open Scope string_scope.
Local Open Scope list_scope.
Local Open Scope nat_scope.

(** ** Exceptions *)

Inductive JsError : Type :=
| SyntaxError (what : string)
| TypeError (what : string)
| IoError (what : string)
| Unsupported (what : string).

Inductive Result (A : Type) : Type :=
| Ok (a : A)
| Throw (e : JsError).
Arguments Ok {A} a.
Arguments Throw {A} e.

Definition bind {A B : Type} (r : Result A) (k : A -> Result B) : Result B :=
  match r with
  | Ok a => k a
  | Throw e => Throw e
  end.

Notation "'let*' x ':=' r 'in' k" := (bind r (fun x => k))
  (at level 10, x pattern, r at level 100, k at level 200, only parsing).

(** ** [types/index.ts] *)

Module Types.

Inductive DiagnosticCategory : Type := error | warning | suggestion | message.

Definition category_eqb (a b : DiagnosticCategory) : bool :=
  match a, b with
  | error, error | warning, warning
  | suggestion, suggestion | message, message => true
  | _, _ => false
  end.

(** [interface Diagnostic]; [d_start] and [d_length] are the optional
    fields. *)
Record Diagnostic : Type := mkDiagnostic {
  d_file : string;
  d_line : nat;
  d_column : nat;
  d_category : DiagnosticCategory;
  d_code : Z;
  d_message : string;
  d_messageText : string;
  d_start : option nat;
  d_length : option nat
}.

(** [interface DiagnosticResult]. *)
Record DiagnosticResult : Type := mkResult {
  r_timestamp : N;
  r_totalErrors : nat;
  r_totalWarnings : nat;
  r_totalSuggestions : nat;
  r_totalMessages : nat;
  r_diagnostics : list Diagnostic;
  r_cacheHit : bool;
  r_source : string
}.

Inductive WatchMode : Type := single | monorepo.

(** [interface WatchStatus]. *)
Record WatchStatus : Type := mkStatus {
  active : bool;
  watchedConfigs : list string;
  watchedFiles : nat;
  st_lastCompilation : option N;
  projectRoot : string;
  mode : WatchMode
}.

(** [interface CacheStats]; [hitRate] is the quotient of two counters, kept
    as an exact rational. *)
Record CacheStats : Type := mkStats {
  cs_size : nat;
  cs_hits : nat;
  cs_misses : nat;
  cs_evictions : nat;
  hitRate : Q;
  itemCount : nat
}.

(** [interface TSProjectConfig]; [name] and [rootDir] are optional. *)
Record TSProjectConfig : Type := mkConfig {
  configPath : string;
  name : option string;
  rootDir : option string
}.

(** The part of the compiler's [ts.SourceFile] that [convertDiagnostic]
    touches: its name and the table of line starts (0-based offsets, the
    first one 0) behind [getLineAndCharacterOfPosition]. *)
Record SourceFile : Type := mkSourceFile {
  fileName : string;
  lineStarts : list nat
}.

Record LineAndCharacter : Type := mkLC {
  lc_line : nat;
  lc_character : nat
}.

(** 0-based line and character of an offset: the last line start that is
    not after the position. *)
Fixpoint computeLineAndCharacter (starts : list nat) (ln cur pos : nat)
  : LineAndCharacter :=
  match starts with
  | [] => mkLC ln (pos - cur)
  | s :: rest =>
      if s <=? pos then computeLineAndCharacter rest (S ln) s pos
      else mkLC ln (pos - cur)
  end.

Definition getLineAndCharacterOfPosition (sf : SourceFile) (pos : nat)
  : LineAndCharacter :=
  match lineStarts sf with
  | [] => mkLC 0 pos
  | s0 :: rest => computeLineAndCharacter rest 0 s0 pos
  end.

(** [ts.Diagnostic]; [ts_messageText] stands for the message already
    flattened by [ts.flattenDiagnosticMessageText]. *)
Record TsDiagnostic : Type := mkTsDiagnostic {
  ts_file : option SourceFile;
  ts_start : option nat;
  ts_length : option nat;
  ts_category : nat;
  ts_code : Z;
  ts_messageText : string
}.

Definition convertDiagnosticCategory (category : nat) : DiagnosticCategory :=
  match category with
  | 0 => error
  | 1 => warning
  | 2 => suggestion
  | 3 => message
  | _ => error
  end.

(** [x || y] on strings: the empty string is falsy. *)
Definition str_or (x y : string) : string :=
  match x with
  | EmptyString => y
  | _ => x
  end.

(** [n ? n + 1 : 0] on numbers: 0 is falsy. *)
Definition one_based_if_truthy (n : nat) : nat :=
  match n with
  | 0 => 0
  | S _ => n + 1
  end.

Definition convertDiagnostic (diagnostic : TsDiagnostic) : Diagnostic :=
  let file :=
    match ts_file diagnostic with
    | Some sf => str_or (fileName sf) "unknown"
    | None => "unknown"
    end in
  let position :=
    match ts_file diagnostic with
    | Some sf =>
        Some (getLineAndCharacterOfPosition sf
                (match ts_start diagnostic with Some p => p | None => 0 end))
    | None => None
    end in
  {| d_file := file;
     d_line := match position with
               | Some p => one_based_if_truthy (lc_line p)
               | None => 0
               end;
     d_column := match position with
                 | Some p => one_based_if_truthy (lc_character p)
                 | None => 0
                 end;
     d_category := convertDiagnosticCategory (ts_category diagnostic);
     d_code := ts_code diagnostic;
     d_message := ts_messageText diagnostic;
     d_messageText := ts_messageText diagnostic;
     d_start := ts_start diagnostic;
     d_length := ts_length diagnostic |}.

(** A compiler diagnostic at offset [pos] of a file. *)
Definition tsDiagnosticAt (sf : SourceFile) (pos : nat) (cat : nat) (code : Z)
    (msg : string) : TsDiagnostic :=
  {| ts_file := Some sf; ts_start := Some pos; ts_length := Some 1;
     ts_category := cat; ts_code := code; ts_messageText := msg |}.

Example convert_second_line :
  let d := convertDiagnostic
             (tsDiagnosticAt (mkSourceFile "/p/a.ts" [0; 10; 25]) 13 0 2322%Z "m") in
  (d_line d, d_column d) = (2, 4).
Proof. reflexivity. Qed.

(** Positions past the first line and first character are reported
    1-based. *)
Lemma convertDiagnostic_one_based_off_origin :
  forall sf pos cat code msg,
    lc_line (getLineAndCharacterOfPosition sf pos) <> 0 ->
    lc_character (getLineAndCharacterOfPosition sf pos) <> 0 ->
    let d := convertDiagnostic (tsDiagnosticAt sf pos cat code msg) in
    d_line d = lc_line (getLineAndCharacterOfPosition sf pos) + 1 /\
    d_column d = lc_character (getLineAndCharacterOfPosition sf pos) + 1.
Proof.
  intros sf pos cat code msg Hl Hc; cbn.
  destruct (lc_line _); [congruence|].
  destruct (lc_character _); [congruence|].
  split; reflexivity.
Qed.

(** C3 (the code departs from the claim): a compiler diagnostic at the very
    first position of its file (0-based line 0, character 0) is converted to
    line 0 and column 0, not to line 1 and column 1, because the 0 is falsy
    in [position?.line ? position.line + 1 : 0].  The file has any name and
    any further line starts ([map S later] are the positive ones). *)
Theorem convertDiagnostic_origin_is_zero :
  forall fname later cat code msg,
    let sf := mkSourceFile fname (0 :: map S later) in
    let d := convertDiagnostic (tsDiagnosticAt sf 0 cat code msg) in
    getLineAndCharacterOfPosition sf 0 = mkLC 0 0 /\
    d_line d = 0 /\ d_column d = 0.
Proof.
  intros fname later cat code msg; cbn.
  destruct later as [|s later]; cbn; repeat split; reflexivity.
Qed.

(** *** What a converted diagnostic can look like *)

(** X1: no converted diagnostic is on line 1 or in column 1.  A diagnostic
    without a file is filed under [unknown] at line 0, column 0; one with a
    file gets 0 for a 0-based line (character) 0 and the 0-based value plus
    one, which is at least 2, otherwise. *)
Theorem convertDiagnostic_never_line_one :
  forall diagnostic,
    let d := convertDiagnostic diagnostic in
    d_line d <> 1 /\ d_column d <> 1
    /\ match ts_file diagnostic with
       | None => d_file d = "unknown" /\ d_line d = 0 /\ d_column d = 0
       | Some sf =>
           let p := getLineAndCharacterOfPosition sf
                      (match ts_start diagnostic with Some s => s | None => 0 end) in
           d_file d = str_or (fileName sf) "unknown"
           /\ d_line d = (if lc_line p =? 0 then 0 else lc_line p + 1)
           /\ d_column d = (if lc_character p =? 0 then 0 else lc_character p + 1)
       end.
Proof.
  intros diagnostic; cbn zeta; unfold convertDiagnostic; cbn.
  destruct (ts_file diagnostic) as [sf|]; cbn.
  - destruct (lc_line _) as [|l]; destruct (lc_character _) as [|c]; cbn;
      repeat split; try lia; try discriminate.
  - repeat split; discriminate.
Qed.

End Types.

(** ** The ignore filter of [utils/cache.ts] *)

Module Glob.

Definition backslash : ascii := ascii_of_nat 92.

Definition chars (s : string) : list ascii := list_ascii_of_string s.

(** *** String primitives of the host language *)

(** [s.replace(/lit/g, rep)] for a literal, non-empty [lit]: leftmost
    matches, scanned left to right, never overlapping.  [skip] counts the
    characters of a match still to be dropped. *)
Fixpoint replaceAll_from (lit rep : string) (skip : nat) (s : string) : string :=
  match s with
  | EmptyString => EmptyString
  | String c s' =>
      match skip with
      | S k => replaceAll_from lit rep k s'
      | 0 =>
          if String.prefix lit s
          then rep ++ replaceAll_from lit rep (String.length lit - 1) s'
          else String c (replaceAll_from lit rep 0 s')
      end
  end.

Definition replaceAll (lit rep s : string) : string := replaceAll_from lit rep 0 s.

(** [s.includes(t)]. *)
Fixpoint includes (t s : string) : bool :=
  String.prefix t s ||
  match s with
  | EmptyString => false
  | String _ s' => includes t s'
  end.

(** [s.endsWith(t)]. *)
Fixpoint endsWith (t s : string) : bool :=
  String.eqb t s ||
  match s with
  | EmptyString => false
  | String _ s' => endsWith t s'
  end.

(** *** [globToRegex]: the source text handed to [new RegExp] *)

(** The class [[.+^${}()|[\]\\]] of the first [replace]: note that neither
    the star nor the question mark is in it. *)
Definition escapedChars : list ascii := chars ".+^${}()|[]" ++ [backslash].

Definition isEscapedChar (c : ascii) : bool := existsb (Ascii.eqb c) escapedChars.

(** [regex.replace(/[.+^${}()|[\]\\]/g, '\\$&')]. *)
Fixpoint escapeSpecials (s : string) : string :=
  match s with
  | EmptyString => EmptyString
  | String c s' =>
      if isEscapedChar c
      then String backslash (String c (escapeSpecials s'))
      else String c (escapeSpecials s')
  end.

(** The literal texts of the second and third [replace]: an escaped star,
    twice and once. *)
Definition escapedStar : string := String backslash "*".
Definition escapedStarStar : string := escapedStar ++ escapedStar.

(** The body of a brace group: the text before the first closing brace and
    the text after it. *)
Fixpoint untilClose (s : string) : option (string * string) :=
  match s with
  | EmptyString => None
  | String c s' =>
      if Ascii.eqb c "}"%char then Some (EmptyString, s')
      else match untilClose s' with
           | Some (body, rest) => Some (String c body, rest)
           | None => None
           end
  end.

(** [alternatives.split(',').join('|')]. *)
Fixpoint commasToBars (s : string) : string :=
  match s with
  | EmptyString => EmptyString
  | String c s' =>
      String (if Ascii.eqb c ","%char then "|"%char else c) (commasToBars s')
  end.

(** [regex.replace(/\{([^}]+)\}/g, (_, alternatives) => ...)]: an opening
    brace, at least one character that is not a closing brace, a closing
    brace. *)
Fixpoint braceAlternatives (skip : nat) (s : string) : string :=
  match s with
  | EmptyString => EmptyString
  | String c s' =>
      match skip with
      | S k => braceAlternatives k s'
      | 0 =>
          if Ascii.eqb c "{"%char then
            match untilClose s' with
            | Some (String b bs, _) =>
                "(" ++ commasToBars (String b bs) ++ ")"
                    ++ braceAlternatives (String.length (String b bs) + 1) s'
            | _ => String c (braceAlternatives 0 s')
            end
          else String c (braceAlternatives 0 s')
      end
  end.

Definition globToRegexSource (glob : string) : string :=
  let regex := glob in
  let regex := escapeSpecials regex in
  let regex := replaceAll escapedStarStar ".*" regex in
  let regex := replaceAll escapedStar "[^/]*" regex in
  let regex := replaceAll "?" "[^/]" regex in
  let regex := braceAlternatives 0 regex in
  "^" ++ regex ++ "$".

Example source_plain : globToRegexSource "dist/out.js" =
  ("^dist/out" ++ String backslash ".js$")%string.
Proof. reflexivity. Qed.

Example source_question : globToRegexSource "a?c" = "^a[^/]c$".
Proof. reflexivity. Qed.

Example source_star_untouched : globToRegexSource "*" = "^*$".
Proof. reflexivity. Qed.

(** *** [RegExp]: the pattern language of the host

    The fragment of the ECMAScript pattern grammar that [globToRegex] can
    produce: literals, the dot, escaped punctuation, character classes,
    groups, alternation, the assertions [^] and [$], and the quantifiers
    star, plus and question mark.  As in the grammar, a quantifier must
    follow an atom: after an assertion, after another quantifier or at the
    start of an alternative the constructor throws [SyntaxError]
    (nothing to repeat).  What lies outside the fragment is reported as
    [Unsupported], never accepted. *)

Inductive Regex : Type :=
| REps
| RChar (c : ascii)
| RAny
| RSet (neg : bool) (ranges : list (ascii * ascii))
| RBol
| REol
| RSeq (a b : Regex)
| RAlt (a b : Regex)
| RStar (a : Regex).

Definition nothingToRepeat : JsError := SyntaxError "Nothing to repeat".

Definition isQuantifierChar (c : ascii) : bool :=
  existsb (Ascii.eqb c) (chars "*+?").

Definition isAlnum (c : ascii) : bool :=
  let n := nat_of_ascii c in
  ((48 <=? n) && (n <=? 57)) || ((65 <=? n) && (n <=? 90))
  || ((97 <=? n) && (n <=? 122)).

(** A lazy quantifier's trailing question mark. *)
Definition dropLazy (s : list ascii) : list ascii :=
  match s with
  | c :: s' => if Ascii.eqb c "?"%char then s' else s
  | [] => s
  end.

(** The optional quantifier behind an atom. *)
Definition quantified (r : Regex) (s : list ascii) : Result (Regex * list ascii) :=
  match s with
  | c :: s' =>
      if Ascii.eqb c "*"%char then Ok (RStar r, dropLazy s')
      else if Ascii.eqb c "+"%char then Ok (RSeq r (RStar r), dropLazy s')
      else if Ascii.eqb c "?"%char then Ok (RAlt r REps, dropLazy s')
      else if Ascii.eqb c "{"%char then Throw (Unsupported "counted quantifier")
      else Ok (r, s)
  | [] => Ok (r, s)
  end.

(** The items of a character class up to its closing bracket. *)
Fixpoint parseClassItems (s : list ascii)
  : Result (list (ascii * ascii) * list ascii) :=
  match s with
  | [] => Throw (SyntaxError "Unterminated character class")
  | c :: s1 =>
      if Ascii.eqb c "]"%char then Ok ([], s1)
      else if Ascii.eqb c backslash then
        match s1 with
        | e :: s2 =>
            if isAlnum e then Throw (Unsupported "class escape")
            else let* (items, rest) := parseClassItems s2 in
                 Ok ((e, e) :: items, rest)
        | [] => Throw (SyntaxError "Unterminated character class")
        end
      else
        match s1 with
        | dash :: hi :: s3 =>
            if Ascii.eqb dash "-"%char && negb (Ascii.eqb hi "]"%char) then
              if Ascii.eqb hi backslash then Throw (Unsupported "class escape")
              else let* (items, rest) := parseClassItems s3 in
                   Ok ((c, hi) :: items, rest)
            else let* (items, rest) := parseClassItems s1 in
                 Ok ((c, c) :: items, rest)
        | _ => let* (items, rest) := parseClassItems s1 in
               Ok ((c, c) :: items, rest)
        end
  end.

Definition parseClass (s : list ascii) : Result (Regex * list ascii) :=
  match s with
  | c :: s1 =>
      if Ascii.eqb c "^"%char
      then let* (items, rest) := parseClassItems s1 in Ok (RSet true items, rest)
      else let* (items, rest) := parseClassItems s in Ok (RSet false items, rest)
  | [] => Throw (SyntaxError "Unterminated character class")
  end.

Definition outOfFuel {A : Type} : Result A := Throw (Unsupported "pattern too deep").

(** Disjunction, Alternative and Term of the pattern grammar. *)
Fixpoint parseDisjunction (fuel : nat) (s : list ascii) {struct fuel}
  : Result (Regex * list ascii) :=
  match fuel with
  | 0 => outOfFuel
  | S fuel' =>
      let* (a, s1) := parseAlternative fuel' s in
      match s1 with
      | c :: s2 =>
          if Ascii.eqb c "|"%char
          then let* (b, s3) := parseDisjunction fuel' s2 in Ok (RAlt a b, s3)
          else Ok (a, s1)
      | [] => Ok (a, s1)
      end
  end
with parseAlternative (fuel : nat) (s : list ascii) {struct fuel}
  : Result (Regex * list ascii) :=
  match fuel with
  | 0 => outOfFuel
  | S fuel' =>
      match s with
      | [] => Ok (REps, s)
      | c :: _ =>
          if Ascii.eqb c "|"%char || Ascii.eqb c ")"%char then Ok (REps, s)
          else let* (t, s1) := parseTerm fuel' s in
               let* (r, s2) := parseAlternative fuel' s1 in
               Ok (RSeq t r, s2)
      end
  end
with parseTerm (fuel : nat) (s : list ascii) {struct fuel}
  : Result (Regex * list ascii) :=
  match fuel with
  | 0 => outOfFuel
  | S fuel' =>
      match s with
      | [] => Ok (REps, s)
      | c :: s1 =>
          if Ascii.eqb c "^"%char then Ok (RBol, s1)
          else if Ascii.eqb c "$"%char then Ok (REol, s1)
          else if isQuantifierChar c then Throw nothingToRepeat
          else if Ascii.eqb c "{"%char then Throw (Unsupported "brace")
          else if Ascii.eqb c "."%char then quantified RAny s1
          else if Ascii.eqb c "["%char then
            let* (cls, s2) := parseClass s1 in quantified cls s2
          else if Ascii.eqb c backslash then
            match s1 with
            | e :: s2 =>
                if isAlnum e then Throw (Unsupported "escape")
                else quantified (RChar e) s2
            | [] => Throw (SyntaxError "\ at end of pattern")
            end
          else if Ascii.eqb c "("%char then
            match s1 with
            | q :: s2 =>
                if Ascii.eqb q "?"%char then Throw (Unsupported "group modifier")
                else
                  let* (r, s3) := parseDisjunction fuel' s1 in
                  match s3 with
                  | close :: s4 =>
                      if Ascii.eqb close ")"%char then quantified r s4
                      else Throw (SyntaxError "Unterminated group")
                  | [] => Throw (SyntaxError "Unterminated group")
                  end
            | [] => Throw (SyntaxError "Unterminated group")
            end
          else quantified (RChar c) s1
      end
  end.

(** [new RegExp(source)]. *)
Definition newRegExp (source : string) : Result Regex :=
  let s := chars source in
  let* (r, rest) := parseDisjunction (3 * List.length s + 3) s in
  match rest with
  | [] => Ok r
  | _ => Throw (SyntaxError "Unmatched ')'")
  end.

Definition globToRegex (glob : string) : Result Regex :=
  newRegExp (globToRegexSource glob).

(** *** [RegExp.prototype.test] *)

Definition isLineTerminator (c : ascii) : bool :=
  Nat.eqb (nat_of_ascii c) 10 || Nat.eqb (nat_of_ascii c) 13.

Definition inRanges (c : ascii) (ranges : list (ascii * ascii)) : bool :=
  existsb (fun '(lo, hi) =>
             (nat_of_ascii lo <=? nat_of_ascii c)
             && (nat_of_ascii c <=? nat_of_ascii hi)) ranges.

(** Backtracking match of [r] at offset [pos], the rest of the input being
    [s]; [k] is what must match afterwards.  An iteration of a star that
    consumes nothing is cut, so the star recurs on the length of the
    input. *)
Fixpoint accepts (r : Regex) (pos : nat) (s : list ascii)
    (k : nat -> list ascii -> bool) {struct r} : bool :=
  match r with
  | REps => k pos s
  | RChar c =>
      match s with
      | x :: s' => Ascii.eqb x c && k (S pos) s'
      | [] => false
      end
  | RAny =>
      match s with
      | x :: s' => negb (isLineTerminator x) && k (S pos) s'
      | [] => false
      end
  | RSet neg ranges =>
      match s with
      | x :: s' => xorb neg (inRanges x ranges) && k (S pos) s'
      | [] => false
      end
  | RBol => Nat.eqb pos 0 && k pos s
  | REol => match s with [] => k pos s | _ :: _ => false end
  | RSeq a b => accepts a pos s (fun pos' s' => accepts b pos' s' k)
  | RAlt a b => accepts a pos s k || accepts b pos s k
  | RStar a =>
      (fix star (n : nat) (pos : nat) (s : list ascii) {struct n} : bool :=
         k pos s ||
         match n with
         | 0 => false
         | S n' =>
             accepts a pos s
               (fun pos' s' =>
                  (List.length s' <? List.length s) && star n' pos' s')
         end) (List.length s) pos s
  end.

(** A match may start at any offset. *)
Fixpoint searchFrom (r : Regex) (pos : nat) (s : list ascii) : bool :=
  accepts r pos s (fun _ _ => true) ||
  match s with
  | [] => false
  | _ :: s' => searchFrom r (S pos) s'
  end.

Definition test (r : Regex) (input : string) : bool := searchFrom r 0 (chars input).

(** *** [shouldIgnoreFile] and its callers *)

(** [filePath.replace(/\\/g, '/')]. *)
Fixpoint normalizeSeparators (s : string) : string :=
  match s with
  | EmptyString => EmptyString
  | String c s' =>
      String (if Ascii.eqb c backslash then "/"%char else c) (normalizeSeparators s')
  end.

Definition matchesPattern (path pattern : string) : Result bool :=
  let* regexPattern := globToRegex pattern in
  Ok (test regexPattern path).

(** The [for] loop of [shouldIgnoreFile]. *)
Fixpoint anyPatternMatches (normalizedPath : string) (patterns : list string)
  : Result bool :=
  match patterns with
  | [] => Ok false
  | pattern :: rest =>
      let* m := matchesPattern normalizedPath pattern in
      if m then Ok true else anyPatternMatches normalizedPath rest
  end.

Definition shouldIgnoreFile (filePath : string) (ignorePatterns : list string)
  : Result bool :=
  match ignorePatterns with
  | [] => Ok false
  | _ :: _ => anyPatternMatches (normalizeSeparators filePath) ignorePatterns
  end.

(** [files.filter(file => !shouldIgnoreFile(file, ignorePatterns))]. *)
Fixpoint keepNotIgnored (files ignorePatterns : list string)
  : Result (list string) :=
  match files with
  | [] => Ok []
  | file :: rest =>
      let* ignored := shouldIgnoreFile file ignorePatterns in
      let* kept := keepNotIgnored rest ignorePatterns in
      Ok (if ignored then kept else file :: kept)
  end.

Definition filterIgnoredFiles (files ignorePatterns : list string)
  : Result (list string) :=
  match ignorePatterns with
  | [] => Ok files
  | _ :: _ => keepNotIgnored files ignorePatterns
  end.

Definition shouldIgnoreTsConfig (cfgPath : string) (ignorePatterns : list string)
  : Result bool :=
  if endsWith "/tsconfig.json" cfgPath && negb (includes "node_modules" cfgPath)
  then Ok false
  else shouldIgnoreFile cfgPath ignorePatterns.

(** [DEFAULT_IGNORE_PATTERNS] of [utils/config.ts]. *)
Definition DEFAULT_IGNORE_PATTERNS : list string :=
  [ "**/node_modules/**"; "**/dist/**"; "**/build/**"; "**/.git/**";
    "**/coverage/**"; "**/.next/**"; "**/.turbo/**"; "**/.cache/**";
    "**/out/**"; "**/*.min.js"; "**/*.bundle.js"; "**/.tsbuildinfo" ].

(** The filter works on patterns without wildcards. *)
Example ignore_literal :
  shouldIgnoreFile "dist/out.js" ["src/a.ts"; "dist/out.js"] = Ok true
  /\ shouldIgnoreFile "dist/outxjs" ["dist/out.js"] = Ok false.
Proof. split; reflexivity. Qed.

Example ignore_question_mark :
  shouldIgnoreFile "abc" ["a?c"] = Ok true
  /\ shouldIgnoreFile "a/c" ["a?c"] = Ok false.
Proof. split; reflexivity. Qed.

(** The regular expression the comments of [globToRegex] describe (two
    stars as any characters) does match a path under [node_modules]. *)
Example intended_regex_matches :
  bind (newRegExp "^.*/node_modules/.*$")
       (fun re => Ok (test re "a/node_modules/b/c.ts")) = Ok true.
Proof. reflexivity. Qed.

(** The stars of a glob survive all the replacements: the escaping step
    leaves a star alone, so the two steps that look for an escaped star
    find none. *)
Lemma node_modules_source :
  globToRegexSource "**/node_modules/**" = "^**/node_modules/**$".
Proof. reflexivity. Qed.

Lemma node_modules_regex_throws :
  globToRegex "**/node_modules/**" = Throw nothingToRepeat.
Proof. reflexivity. Qed.

(** C2 (the code departs from the claim): with the default deny-list,
    [shouldIgnoreFile] returns for no path at all, and in particular not
    [true] for a path with a [node_modules] segment: the pattern of the first
    entry is translated to a source text that still begins with a star behind
    the start anchor, and constructing the regular expression throws.  Neither
    two stars nor one star are translated: both reach the regular expression
    as they are. *)
Theorem shouldIgnoreFile_default_patterns_throw :
  forall filePath : string,
    shouldIgnoreFile filePath DEFAULT_IGNORE_PATTERNS = Throw nothingToRepeat
    /\ shouldIgnoreFile "a/node_modules/b/c.ts" ["**/node_modules/**"]
       = Throw nothingToRepeat
    /\ globToRegexSource "**/node_modules/**" = "^**/node_modules/**$"
    /\ globToRegexSource "*" = "^*$"
    /\ globToRegex "*" = Throw nothingToRepeat.
Proof.
  intro filePath; split; [|repeat split; reflexivity].
  unfold shouldIgnoreFile, DEFAULT_IGNORE_PATTERNS.
  cbn [anyPatternMatches]; unfold matchesPattern.
  rewrite node_modules_regex_throws; reflexivity.
Qed.

(** *** Globs that begin with a star *)

Lemma escapeSpecials_star :
  forall rest,
    escapeSpecials (String "*" rest) = String "*" (escapeSpecials rest).
Proof. reflexivity. Qed.

Lemma replaceAll_star :
  forall a lit' rep rest,
    a <> "*"%char ->
    replaceAll (String a lit') rep (String "*" rest)
    = String "*" (replaceAll (String a lit') rep rest).
Proof.
  intros a lit' rep rest H; unfold replaceAll; cbn [replaceAll_from String.prefix].
  destruct (ascii_dec a "*") as [E|_]; [contradiction|reflexivity].
Qed.

Lemma globToRegexSource_star :
  forall rest,
    exists text, globToRegexSource (String "*" rest) = String "^" (String "*" text).
Proof.
  intro rest; unfold globToRegexSource; cbn zeta.
  rewrite escapeSpecials_star.
  unfold escapedStarStar, escapedStar; cbn [String.append].
  rewrite !replaceAll_star by (vm_compute; discriminate).
  cbn [braceAlternatives]; cbn [Ascii.eqb Bool.eqb].
  eexists; cbn [String.append]; reflexivity.
Qed.

Lemma parse_anchor_star :
  forall fuel text,
    4 <= fuel ->
    parseDisjunction fuel ("^"%char :: "*"%char :: text) = Throw nothingToRepeat.
Proof.
  intros fuel text H.
  destruct fuel as [|[|[|[|fuel]]]]; try lia; reflexivity.
Qed.

Lemma globToRegex_star :
  forall rest, globToRegex (String "*" rest) = Throw nothingToRepeat.
Proof.
  intro rest; unfold globToRegex, newRegExp.
  destruct (globToRegexSource_star rest) as [text ->]; cbn zeta.
  unfold chars; cbn [list_ascii_of_string].
  rewrite parse_anchor_star; [reflexivity|cbn [List.length]; lia].
Qed.

Lemma shouldIgnoreFile_star :
  forall rest filePath others,
    shouldIgnoreFile filePath (String "*" rest :: others) = Throw nothingToRepeat.
Proof.
  intros rest filePath others.
  unfold shouldIgnoreFile; cbn [anyPatternMatches]; unfold matchesPattern.
  now rewrite globToRegex_star.
Qed.

(** X11: a glob that begins with a star is never translated to a regular
    expression: [globToRegex] throws [SyntaxError] (nothing to repeat),
    whatever follows the star, and so does [shouldIgnoreFile] for every path
    as soon as such a glob is the first of its patterns. *)
Theorem globs_with_leading_star_throw :
  forall rest filePath others,
    globToRegex (String "*" rest) = Throw nothingToRepeat
    /\ shouldIgnoreFile filePath (String "*" rest :: others)
       = Throw nothingToRepeat.
Proof.
  intros rest filePath others; split;
    [apply globToRegex_star|apply shouldIgnoreFile_star].
Qed.

(** X12: with the default patterns in front, as the configuration loader
    puts them, the filters built on [shouldIgnoreFile] never say that
    something is ignored.  [filterIgnoredFiles] throws on every non-empty
    list of files; [shouldIgnoreTsConfig] answers [false] for a
    [tsconfig.json] outside [node_modules] and throws for every other
    path. *)
Theorem filters_with_default_patterns :
  forall user,
    (forall file files,
        filterIgnoredFiles (file :: files) (DEFAULT_IGNORE_PATTERNS ++ user)
        = Throw nothingToRepeat)
    /\ filterIgnoredFiles [] (DEFAULT_IGNORE_PATTERNS ++ user) = Ok []
    /\ (forall cfgPath,
          shouldIgnoreTsConfig cfgPath (DEFAULT_IGNORE_PATTERNS ++ user)
          = if endsWith "/tsconfig.json" cfgPath
               && negb (includes "node_modules" cfgPath)
            then Ok false
            else Throw nothingToRepeat).
Proof.
  intro user; split; [|split].
  - intros file files; unfold filterIgnoredFiles, DEFAULT_IGNORE_PATTERNS.
    cbn [app keepNotIgnored]; now rewrite shouldIgnoreFile_star.
  - reflexivity.
  - intro cfgPath; unfold shouldIgnoreTsConfig.
    destruct (endsWith "/tsconfig.json" cfgPath
              && negb (includes "node_modules" cfgPath)); [reflexivity|].
    apply shouldIgnoreFile_star.
Qed.

(** *** Globs without star or brace *)

Definition isPlainGlobChar (c : ascii) : bool :=
  negb (Ascii.eqb c "*"%char || Ascii.eqb c "{"%char).

(** The whole path, character by character, a question mark of the pattern
    standing for any one character but the slash. *)
Fixpoint matchesLiterally (pattern path : list ascii) : bool :=
  match pattern, path with
  | [], [] => true
  | p :: pattern', x :: path' =>
      (if Ascii.eqb p "?"%char then negb (Ascii.eqb x "/"%char) else Ascii.eqb x p)
      && matchesLiterally pattern' path'
  | _, _ => false
  end.

(** What the replacements make of one character of such a glob. *)
Definition translatedChar (c : ascii) : list ascii :=
  if Ascii.eqb c "?"%char then chars "[^/]"
  else if isEscapedChar c then [backslash; c]
  else [c].

Definition atomOf (c : ascii) : Regex :=
  if Ascii.eqb c "?"%char then RSet true [("/"%char, "/"%char)] else RChar c.

Fixpoint termsOf (pattern : list ascii) : Regex :=
  match pattern with
  | [] => RSeq REol REps
  | c :: pattern' => RSeq (atomOf c) (termsOf pattern')
  end.

Lemma chars_app : forall s t, chars (s ++ t)%string = chars s ++ chars t.
Proof.
  induction s as [|c s IH]; intro t; cbn; [reflexivity|].
  now rewrite <- IH.
Qed.

Lemma prefix_In :
  forall lit s x,
    String.prefix lit s = true -> In x (chars lit) -> In x (chars s).
Proof.
  induction lit as [|a lit IH]; intros s x H Hin; [destruct Hin|].
  destruct s as [|b s]; cbn in H; [discriminate|].
  destruct (ascii_dec a b) as [->|]; [|discriminate].
  destruct Hin as [<-|Hin]; [now left|right; now apply IH].
Qed.

Lemma replaceAll_absent :
  forall lit rep x s,
    In x (chars lit) -> ~ In x (chars s) -> replaceAll lit rep s = s.
Proof.
  intros lit rep x s Hlit; unfold replaceAll.
  induction s as [|c s IH]; intro Hs; [reflexivity|].
  cbn [replaceAll_from].
  destruct (String.prefix lit (String c s)) eqn:E.
  - exfalso; apply Hs; now apply (prefix_In lit).
  - f_equal; apply IH; intro Hin; apply Hs; now right.
Qed.

Lemma escapeSpecials_star_free :
  forall s, In "*"%char (chars (escapeSpecials s)) -> In "*"%char (chars s).
Proof.
  induction s as [|c s IH]; cbn [escapeSpecials]; [auto|].
  destruct (isEscapedChar c); cbn.
  - intros [H|[H|H]]; [discriminate|now left|right; now apply IH].
  - intros [H|H]; [now left|right; now apply IH].
Qed.

Lemma prefix_single :
  forall c s, String.prefix (String c "") (String c s) = true.
Proof.
  intros c s; cbn [String.prefix].
  destruct (ascii_dec c c) as [_|N]; [now destruct s|congruence].
Qed.

Lemma question_marks :
  forall s,
    chars (replaceAll "?" "[^/]" (escapeSpecials s))
    = flat_map translatedChar (chars s).
Proof.
  unfold replaceAll; induction s as [|c s IH]; [reflexivity|].
  cbn [escapeSpecials chars list_ascii_of_string flat_map]; unfold translatedChar at 1.
  destruct (Ascii.eqb_spec c "?") as [->|Hq].
  - change (isEscapedChar "?") with false; cbn [replaceAll_from].
    rewrite prefix_single.
    cbn [String.length Nat.sub String.append]; unfold chars in *.
    cbn [list_ascii_of_string app]; now rewrite IH.
  - destruct (isEscapedChar c) eqn:Ee; cbn [replaceAll_from String.prefix].
    + destruct (ascii_dec "?" backslash) as [E|_]; [discriminate|].
      destruct (ascii_dec "?" c) as [E|_]; [congruence|].
      unfold chars in *; cbn [list_ascii_of_string app]; now rewrite IH.
    + destruct (ascii_dec "?" c) as [E|_]; [congruence|].
      unfold chars in *; cbn [list_ascii_of_string app]; now rewrite IH.
Qed.

Lemma braceAlternatives_absent :
  forall s, ~ In "{"%char (chars s) -> braceAlternatives 0 s = s.
Proof.
  induction s as [|c s IH]; intro H; [reflexivity|].
  cbn [braceAlternatives].
  destruct (Ascii.eqb_spec c "{") as [->|_].
  - exfalso; apply H; now left.
  - f_equal; apply IH; intro Hin; apply H; now right.
Qed.

Lemma string_of_chars : forall s, string_of_list_ascii (chars s) = s.
Proof. exact string_of_list_ascii_of_string. Qed.

Lemma plain_chars_free :
  forall s x,
    (x = "*"%char \/ x = "{"%char) ->
    forallb isPlainGlobChar (chars s) = true -> ~ In x (chars s).
Proof.
  intros s x Hx H Hin.
  rewrite forallb_forall in H; specialize (H x Hin).
  unfold isPlainGlobChar in H; destruct Hx as [->| ->]; discriminate.
Qed.

Lemma translated_brace_free :
  forall p, In "{"%char (flat_map translatedChar p) -> In "{"%char p.
Proof.
  induction p as [|c p IH]; cbn [flat_map]; [auto|].
  intro H; apply in_app_or in H; destruct H as [H|H]; [|right; now apply IH].
  left; unfold translatedChar in H.
  destruct (Ascii.eqb c "?").
  - cbn in H; repeat (destruct H as [H|H]; [discriminate|]); destruct H.
  - destruct (isEscapedChar c); cbn in H.
    + destruct H as [H|[H|H]]; [discriminate|assumption|destruct H].
    + destruct H as [H|H]; [assumption|destruct H].
Qed.

(** The source text of a glob without star or brace. *)
Lemma plain_source :
  forall glob,
    forallb isPlainGlobChar (chars glob) = true ->
    chars (globToRegexSource glob)
    = "^"%char :: flat_map translatedChar (chars glob) ++ ["$"%char].
Proof.
  intros glob H; unfold globToRegexSource; cbn zeta.
  assert (Hstar : ~ In "*"%char (chars (escapeSpecials glob))).
  { intro Hin; apply escapeSpecials_star_free in Hin.
    revert Hin; apply plain_chars_free; auto. }
  rewrite (replaceAll_absent escapedStarStar ".*" "*"%char)
    by (assumption || (cbn; tauto)).
  rewrite (replaceAll_absent escapedStar "[^/]*" "*"%char)
    by (assumption || (cbn; tauto)).
  rewrite braceAlternatives_absent.
  - cbn [String.append chars list_ascii_of_string]; f_equal.
    fold (chars (replaceAll "?" "[^/]" (escapeSpecials glob) ++ "$")).
    now rewrite chars_app, question_marks.
  - rewrite question_marks; intro Hin; apply translated_brace_free in Hin.
    revert Hin; apply plain_chars_free; auto.
Qed.

Lemma isEscapedChar_false :
  forall c,
    isEscapedChar c = false ->
    Ascii.eqb c "." = false /\ Ascii.eqb c "+" = false
    /\ Ascii.eqb c "^" = false /\ Ascii.eqb c "$" = false
    /\ Ascii.eqb c "(" = false /\ Ascii.eqb c ")" = false
    /\ Ascii.eqb c "|" = false /\ Ascii.eqb c "[" = false
    /\ Ascii.eqb c backslash = false.
Proof.
  intros c H; unfold isEscapedChar, escapedChars in H; cbn in H.
  repeat (apply orb_false_iff in H; destruct H as [? H]).
  repeat split; assumption.
Qed.

Lemma isEscapedChar_true :
  forall c, isEscapedChar c = true -> In c escapedChars.
Proof.
  intros c H; unfold isEscapedChar in H.
  apply existsb_exists in H; destruct H as (x & Hin & E).
  apply Ascii.eqb_eq in E; now subst x.
Qed.

(** No quantifier follows an atom of such a glob. *)
Lemma quantified_translated :
  forall r p,
    forallb isPlainGlobChar p = true ->
    quantified r (flat_map translatedChar p ++ ["$"%char])
    = Ok (r, flat_map translatedChar p ++ ["$"%char]).
Proof.
  intros r [|c p] H; [reflexivity|].
  cbn [forallb] in H; apply andb_true_iff in H; destruct H as [Hc _].
  cbn [flat_map].
  destruct (Ascii.eqb c "?") eqn:Eq.
  { assert (Et : translatedChar c = chars "[^/]")
      by (unfold translatedChar; now rewrite Eq).
    rewrite !Et; reflexivity. }
  destruct (isEscapedChar c) eqn:Ee.
  { assert (Et : translatedChar c = [backslash; c])
      by (unfold translatedChar; now rewrite Eq, Ee).
    rewrite !Et; reflexivity. }
  assert (Et : translatedChar c = [c])
    by (unfold translatedChar; now rewrite Eq, Ee).
  rewrite !Et.
  unfold isPlainGlobChar in Hc; apply negb_true_iff, orb_false_iff in Hc.
  destruct Hc as [Hs Hb].
  destruct (isEscapedChar_false c Ee) as (_ & Hp & _).
  cbn [app quantified]; now rewrite Hs, Hp, Eq, Hb.
Qed.

Lemma parseAlternative_cons :
  forall fuel c s,
    Ascii.eqb c "|" || Ascii.eqb c ")" = false ->
    parseAlternative (S fuel) (c :: s)
    = let* (t, s1) := parseTerm fuel (c :: s) in
      let* (r, s2) := parseAlternative fuel s1 in
      Ok (RSeq t r, s2).
Proof. intros fuel c s H; cbn; now rewrite H. Qed.

Lemma parseClass_not_slash :
  forall rest,
    parseClass ("^"%char :: "/"%char :: "]"%char :: rest)
    = Ok (RSet true [("/"%char, "/"%char)], rest).
Proof. intros [|hi rest]; reflexivity. Qed.

(** One character of the glob gives one term. *)
Lemma parseTerm_translated :
  forall fuel c p,
    isPlainGlobChar c = true ->
    forallb isPlainGlobChar p = true ->
    parseTerm (S fuel)
      (translatedChar c ++ flat_map translatedChar p ++ ["$"%char])
    = Ok (atomOf c, flat_map translatedChar p ++ ["$"%char])
    /\ exists x xs,
        translatedChar c ++ flat_map translatedChar p ++ ["$"%char] = x :: xs
        /\ Ascii.eqb x "|" || Ascii.eqb x ")" = false.
Proof.
  intros fuel c p Hc Hp; unfold atomOf.
  destruct (Ascii.eqb c "?") eqn:Eq.
  - assert (Et : translatedChar c = chars "[^/]")
      by (unfold translatedChar; now rewrite Eq).
    rewrite !Et; split; [|eexists; eexists; split; reflexivity].
    cbn [chars list_ascii_of_string app].
    change (parseTerm (S fuel) ("["%char :: ?s))
      with (let* (cls, s2) := parseClass s in quantified cls s2).
    rewrite parseClass_not_slash; cbn [bind].
    now apply quantified_translated.
  - destruct (isEscapedChar c) eqn:Ee.
    + assert (Et : translatedChar c = [backslash; c])
        by (unfold translatedChar; now rewrite Eq, Ee).
      rewrite !Et; split; [|eexists; eexists; split; reflexivity].
      cbn [app].
      assert (Ha : isAlnum c = false).
      { apply isEscapedChar_true in Ee; cbn in Ee.
        repeat (destruct Ee as [<-|Ee]; [reflexivity|]); destruct Ee. }
      change (parseTerm (S fuel) (backslash :: c :: ?s))
        with (if isAlnum c then Throw (Unsupported "escape")
              else quantified (RChar c) s).
      rewrite Ha; now apply quantified_translated.
    + assert (Et : translatedChar c = [c])
        by (unfold translatedChar; now rewrite Eq, Ee).
      rewrite !Et.
      unfold isPlainGlobChar in Hc; apply negb_true_iff, orb_false_iff in Hc.
      destruct Hc as [Hs Hb].
      destruct (isEscapedChar_false c Ee)
        as (Hdot & Hplus & Hcaret & Hdollar & Hopen & Hclose & Hbar & Hbr & Hbs).
      split.
      * cbn [app parseTerm]; unfold isQuantifierChar; cbn [existsb chars list_ascii_of_string].
        rewrite Hcaret, Hdollar, Hs, Hplus, Eq, Hb, Hdot, Hbr, Hbs, Hopen.
        cbn [orb]; now apply quantified_translated.
      * eexists; eexists; split; [reflexivity|]; now rewrite Hbar, Hclose.
Qed.

Lemma parseAlternative_translated :
  forall p fuel,
    forallb isPlainGlobChar p = true ->
    List.length p + 2 <= fuel ->
    parseAlternative fuel (flat_map translatedChar p ++ ["$"%char])
    = Ok (termsOf p, []).
Proof.
  induction p as [|c p IH]; intros fuel Hp Hfuel.
  - destruct fuel as [|[|fuel]]; [cbn in Hfuel; lia..|reflexivity].
  - cbn [forallb] in Hp; apply andb_true_iff in Hp; destruct Hp as [Hc Hp].
    destruct fuel as [|[|fuel]]; [cbn in Hfuel; lia..|].
    cbn [flat_map]; rewrite <- app_assoc.
    destruct (parseTerm_translated fuel c p Hc Hp) as (Hterm & x & xs & Ex & Hx).
    rewrite Ex, parseAlternative_cons by exact Hx.
    rewrite <- Ex, Hterm; cbn [bind].
    rewrite IH by (assumption || (cbn [List.length] in Hfuel; lia)).
    reflexivity.
Qed.

Lemma length_translated :
  forall p, List.length p <= List.length (flat_map translatedChar p).
Proof.
  induction p as [|c p IH]; cbn [flat_map List.length]; [lia|].
  rewrite length_app.
  assert (H : 1 <= List.length (translatedChar c)).
  { unfold translatedChar.
    destruct (Ascii.eqb c "?"); [cbn; lia|].
    destruct (isEscapedChar c); cbn; lia. }
  lia.
Qed.

(** The regular expression of a glob without star or brace. *)
Lemma plain_regex :
  forall glob,
    forallb isPlainGlobChar (chars glob) = true ->
    globToRegex glob = Ok (RSeq RBol (termsOf (chars glob))).
Proof.
  intros glob H; unfold globToRegex, newRegExp; cbn zeta.
  rewrite plain_source by exact H.
  set (rest := flat_map translatedChar (chars glob) ++ ["$"%char]).
  assert (Hlen : List.length (chars glob) + 1 <= List.length rest).
  { unfold rest; rewrite length_app; cbn [List.length].
    pose proof (length_translated (chars glob)); lia. }
  cbn [List.length].
  replace (3 * S (List.length rest) + 3)
    with (S (S (S (3 * List.length rest + 3)))) by lia.
  change (parseDisjunction (S ?f) ?s)
    with (let* (a, s1) := parseAlternative f s in
          match s1 with
          | c :: s2 =>
              if Ascii.eqb c "|"%char
              then let* (b, s3) := parseDisjunction f s2 in Ok (RAlt a b, s3)
              else Ok (a, s1)
          | [] => Ok (a, s1)
          end).
  rewrite parseAlternative_cons by reflexivity.
  change (parseTerm (S ?f) ("^"%char :: ?s)) with (Ok (RBol, s)).
  cbn [bind]; unfold rest.
  rewrite parseAlternative_translated by (assumption || (fold rest; lia)).
  reflexivity.
Qed.

Lemma inRanges_slash :
  forall x, inRanges x [("/"%char, "/"%char)] = Ascii.eqb x "/"%char.
Proof.
  intro x; unfold inRanges; cbn [existsb]; rewrite orb_false_r.
  destruct (Ascii.eqb_spec x "/") as [->|Hne]; [reflexivity|].
  apply andb_false_iff.
  destruct (Nat.leb_spec (nat_of_ascii "/") (nat_of_ascii x)) as [H1|H1];
    [|now left].
  destruct (Nat.leb_spec (nat_of_ascii x) (nat_of_ascii "/")) as [H2|H2];
    [|now right].
  exfalso; apply Hne.
  rewrite <- (ascii_nat_embedding x), <- (ascii_nat_embedding "/").
  f_equal; lia.
Qed.

Lemma accepts_termsOf :
  forall p pos s,
    accepts (termsOf p) pos s (fun _ _ => true) = matchesLiterally p s.
Proof.
  induction p as [|c p IH]; intros pos s.
  - now destruct s.
  - cbn [termsOf accepts matchesLiterally]; unfold atomOf.
    destruct (Ascii.eqb c "?"); cbn [accepts];
      (destruct s as [|x s]; [reflexivity|]); rewrite IH; [|reflexivity].
    now rewrite inRanges_slash.
Qed.

Lemma searchFrom_anchored :
  forall r pos s, searchFrom (RSeq RBol r) (S pos) s = false.
Proof.
  intros r pos s; revert pos; induction s as [|x s IH]; intro pos;
    cbn [searchFrom accepts Nat.eqb andb orb]; [reflexivity|apply IH].
Qed.

Lemma test_anchored :
  forall p path,
    test (RSeq RBol (termsOf p)) path = matchesLiterally p (chars path).
Proof.
  intros p path; unfold test.
  destruct (chars path) as [|x s] eqn:E;
    cbn [searchFrom accepts Nat.eqb andb]; rewrite accepts_termsOf.
  - now rewrite orb_false_r.
  - now rewrite searchFrom_anchored, orb_false_r.
Qed.

Lemma anyPatternMatches_plain :
  forall patterns path,
    forallb (fun pattern => forallb isPlainGlobChar (chars pattern)) patterns
    = true ->
    anyPatternMatches path patterns
    = Ok (existsb (fun pattern => matchesLiterally (chars pattern) (chars path))
            patterns).
Proof.
  induction patterns as [|pattern rest IH]; intros path H; [reflexivity|].
  cbn [forallb] in H; apply andb_true_iff in H; destruct H as [Hp Hrest].
  cbn [anyPatternMatches existsb]; unfold matchesPattern.
  rewrite plain_regex by exact Hp; cbn [bind]; rewrite test_anchored.
  destruct (matchesLiterally (chars pattern) (chars path)); [reflexivity|].
  now apply IH.
Qed.

(** X13: for globs without a star and without an opening brace the filter
    is exact and never throws.  A path is ignored if and only if, once its
    backslashes are turned into slashes, it is one of the patterns from its
    first to its last character, where a question mark of the pattern stands
    for any one character but the slash and every other character for
    itself. *)
Theorem globs_without_star_or_brace :
  forall patterns filePath,
    forallb (fun pattern => forallb isPlainGlobChar (chars pattern)) patterns
    = true ->
    shouldIgnoreFile filePath patterns
    = Ok (existsb
            (fun pattern =>
               matchesLiterally (chars pattern)
                 (chars (normalizeSeparators filePath)))
            patterns).
Proof.
  intros [|pattern rest] filePath H; [reflexivity|].
  unfold shouldIgnoreFile; now apply anyPatternMatches_plain.
Qed.

Lemma globs_without_star_or_brace_witness :
  shouldIgnoreFile ("dist" ++ String backslash "out1.js")
    ["src/a.ts"; "dist/out?.js"]
  = Ok (existsb
          (fun pattern =>
             matchesLiterally (chars pattern)
               (chars (normalizeSeparators
                         ("dist" ++ String backslash "out1.js"))))
          ["src/a.ts"; "dist/out?.js"]).
Proof.
  apply (globs_without_star_or_brace ["src/a.ts"; "dist/out?.js"]).
  reflexivity.
Defined.

End Glob.

(** ** JavaScript [Map] with string keys

    Entries are kept in insertion order; [set] on a present key replaces the
    value in place, [delete] removes the entry. *)

Module JsMap.

Section WithValues.
Context {V : Type}.

Definition t : Type := list (string * V).

Definition empty : t := [].

Fixpoint get (k : string) (m : t) : option V :=
  match m with
  | [] => None
  | (k', v) :: m' => if String.eqb k k' then Some v else get k m'
  end.

Definition has (k : string) (m : t) : bool :=
  match get k m with
  | Some _ => true
  | None => false
  end.

Fixpoint set (k : string) (v : V) (m : t) : t :=
  match m with
  | [] => [(k, v)]
  | (k', v') :: m' =>
      if String.eqb k k' then (k', v) :: m' else (k', v') :: set k v m'
  end.

Fixpoint delete (k : string) (m : t) : t :=
  match m with
  | [] => []
  | (k', v') :: m' =>
      if String.eqb k k' then m' else (k', v') :: delete k m'
  end.

Definition size (m : t) : nat := List.length m.
Definition keys (m : t) : list string := map fst m.
Definition values (m : t) : list V := map snd m.

Lemma get_set_same : forall k v m, get k (set k v m) = Some v.
Proof.
  intros k v m; induction m as [|[k' v'] m IH]; cbn.
  - now rewrite String.eqb_refl.
  - destruct (String.eqb k k') eqn:E; cbn; rewrite E; auto.
Qed.

Lemma get_set_other : forall k k' v m, k' <> k -> get k' (set k v m) = get k' m.
Proof.
  intros k k' v m Hne; induction m as [|[k0 v0] m IH]; cbn.
  - apply String.eqb_neq in Hne; now rewrite Hne.
  - destruct (String.eqb k k0) eqn:E; cbn.
    + apply String.eqb_eq in E; subst k0.
      apply String.eqb_neq in Hne; now rewrite Hne.
    + now rewrite IH.
Qed.

Lemma get_In : forall k v m, get k m = Some v -> In (k, v) m.
Proof.
  intros k v m; induction m as [|[k' v'] m IH]; cbn; [discriminate|].
  destruct (String.eqb k k') eqn:E.
  - apply String.eqb_eq in E; subst; intros [= ->]; now left.
  - intro H; right; auto.
Qed.

Lemma get_None_keys : forall k m, get k m = None <-> ~ In k (keys m).
Proof.
  intros k m; induction m as [|[k' v'] m IH]; cbn.
  - tauto.
  - destruct (String.eqb k k') eqn:E.
    + apply String.eqb_eq in E; subst; split; [discriminate|intro H; exfalso; auto].
    + apply String.eqb_neq in E; rewrite IH; intuition congruence.
Qed.

Lemma In_get : forall k v m, NoDup (keys m) -> In (k, v) m -> get k m = Some v.
Proof.
  intros k v m; induction m as [|[k' v'] m IH]; cbn; [tauto|].
  intros Hnd [H|H].
  - injection H as -> ->; now rewrite String.eqb_refl.
  - inversion Hnd as [|? ? Hn Hnd']; subst.
    destruct (String.eqb k k') eqn:E; [|auto].
    apply String.eqb_eq in E; subst k'.
    exfalso; apply Hn; change k with (fst (k, v)); now apply in_map.
Qed.

Lemma keys_set_present : forall k v m, In k (keys m) -> keys (set k v m) = keys m.
Proof.
  intros k v m; induction m as [|[k' v'] m IH]; cbn; [tauto|].
  intros H; destruct (String.eqb k k') eqn:E; cbn; [reflexivity|].
  f_equal; apply IH; destruct H as [H|H]; [|exact H].
  apply String.eqb_neq in E; congruence.
Qed.

Lemma keys_set_absent : forall k v m, ~ In k (keys m) -> keys (set k v m) = keys m ++ [k].
Proof.
  intros k v m; induction m as [|[k' v'] m IH]; cbn; [reflexivity|].
  intros H; destruct (String.eqb k k') eqn:E; cbn.
  - apply String.eqb_eq in E; subst; exfalso; auto.
  - f_equal; apply IH; tauto.
Qed.

Lemma NoDup_keys_set : forall k v m, NoDup (keys m) -> NoDup (keys (set k v m)).
Proof.
  intros k v m Hnd.
  destruct (in_dec string_dec k (keys m)) as [Hin|Hout].
  - now rewrite keys_set_present.
  - rewrite keys_set_absent by assumption.
    apply NoDup_app; [assumption|constructor; [intros []|constructor]|].
    intros x Hx [<-|[]]; auto.
Qed.

Lemma keys_delete_incl : forall k m, incl (keys (delete k m)) (keys m).
Proof.
  intros k m; induction m as [|[k' v'] m IH]; cbn; [apply incl_refl|].
  destruct (String.eqb k k'); cbn.
  - apply incl_tl, incl_refl.
  - intros x [H|H]; [now left|right; now apply IH].
Qed.

Lemma NoDup_keys_delete : forall k m, NoDup (keys m) -> NoDup (keys (delete k m)).
Proof.
  intros k m; induction m as [|[k' v'] m IH]; cbn; [auto|].
  intros Hnd; inversion Hnd as [|? ? Hn Hnd']; subst.
  destruct (String.eqb k k'); cbn; [assumption|].
  constructor; [|auto].
  intro H; apply Hn; now apply (keys_delete_incl k m).
Qed.

Lemma get_delete_same : forall k m, NoDup (keys m) -> get k (delete k m) = None.
Proof.
  intros k m; induction m as [|[k' v'] m IH]; cbn; [reflexivity|].
  intros Hnd; inversion Hnd as [|? ? Hn Hnd']; subst.
  destruct (String.eqb k k') eqn:E; cbn.
  - apply String.eqb_eq in E; subst; now apply get_None_keys.
  - rewrite E; auto.
Qed.

Lemma get_delete_other : forall k k' m, k' <> k -> get k' (delete k m) = get k' m.
Proof.
  intros k k' m Hne; induction m as [|[k0 v0] m IH]; cbn; [reflexivity|].
  destruct (String.eqb k k0) eqn:E; cbn.
  - apply String.eqb_eq in E; subst k0.
    apply String.eqb_neq in Hne; now rewrite Hne.
  - now rewrite IH.
Qed.

Lemma In_set_inv :
  forall k v k' v' m,
    NoDup (keys m) -> In (k', v') (set k v m) ->
    (k', v') = (k, v) \/ (k' <> k /\ In (k', v') m).
Proof.
  intros k v k' v' m; induction m as [|[k0 v0] m IH]; cbn.
  - intros _ [H|[]]; left; now symmetry.
  - intros Hnd; inversion Hnd as [|? ? Hn Hnd']; subst.
    destruct (String.eqb k k0) eqn:E; cbn.
    + apply String.eqb_eq in E; subst k0.
      intros [H|H]; [left; now symmetry|right].
      split; [|now right].
      intros ->; apply Hn; change k with (fst (k, v')); now apply in_map.
    + apply String.eqb_neq in E.
      intros [H|H].
      * injection H as <- <-; right; split; [congruence|now left].
      * destruct (IH Hnd' H) as [H1|[H1 H2]]; [now left|right; split; [assumption|now right]].
Qed.

Lemma values_set_absent :
  forall k v m, ~ In k (keys m) -> values (set k v m) = values m ++ [v].
Proof.
  intros k v m; induction m as [|[k' v'] m IH]; cbn; [reflexivity|].
  intros H; destruct (String.eqb k k') eqn:E; cbn.
  - apply String.eqb_eq in E; subst; exfalso; auto.
  - f_equal; apply IH; tauto.
Qed.

Lemma get_delete_Some :
  forall k k' v m,
    NoDup (keys m) -> get k' (delete k m) = Some v -> k' <> k /\ get k' m = Some v.
Proof.
  intros k k' v m Hnd H.
  destruct (string_dec k' k) as [->|Hne].
  - rewrite get_delete_same in H by assumption; discriminate.
  - split; [assumption|]; now rewrite get_delete_other in H.
Qed.

Lemma keys_removelast : forall m, keys (removelast m) = removelast (keys m).
Proof.
  induction m as [|[k v] m IH]; [reflexivity|].
  destruct m as [|[k' v'] m]; [reflexivity|].
  change (keys (removelast ((k, v) :: (k', v') :: m)))
    with (k :: keys (removelast ((k', v') :: m))).
  now rewrite IH.
Qed.

Lemma In_removelast : forall (A : Type) (x : A) l, In x (removelast l) -> In x l.
Proof.
  intros A x l; induction l as [|a l IH]; [auto|].
  destruct l as [|b l]; [intros []|].
  intros [H|H]; [now left|right; now apply IH].
Qed.

Lemma NoDup_removelast : forall (A : Type) (l : list A), NoDup l -> NoDup (removelast l).
Proof.
  intros A l H; induction H as [|a l Ha Hl IH]; [constructor|].
  destruct l as [|b l]; [constructor|].
  change (NoDup (a :: removelast (b :: l))); constructor; [|assumption].
  intro Hin; apply Ha; now apply In_removelast.
Qed.

Lemma get_removelast :
  forall k v m, get k (removelast m) = Some v -> get k m = Some v.
Proof.
  intros k v m; induction m as [|[k0 v0] m IH]; [auto|].
  destruct m as [|[k1 v1] m]; [discriminate|].
  change (removelast ((k0, v0) :: (k1, v1) :: m))
    with ((k0, v0) :: removelast ((k1, v1) :: m)).
  cbn [get]; destruct (String.eqb k k0); [auto|exact IH].
Qed.

Lemma get_map_values :
  forall (g : V -> V) k m,
    get k (map (fun '(k', v) => (k', g v)) m) = option_map g (get k m).
Proof.
  intros g k m; induction m as [|[k' v'] m IH]; cbn; [reflexivity|].
  destruct (String.eqb k k'); [reflexivity|exact IH].
Qed.

Lemma keys_map_values :
  forall (g : V -> V) m, keys (map (fun '(k', v) => (k', g v)) m) = keys m.
Proof.
  intros g m; induction m as [|[k' v'] m IH]; cbn; [reflexivity|now f_equal].
Qed.

End WithValues.

Arguments t V : clear implicits.

End JsMap.

(** ** [DiagnosticCache] of [utils/cache.ts] *)

Module Cache.

Import Types.

Section WithPayload.

(** What a cache entry holds in its [diagnostics] field.  The watch manager
    stores the array object itself, so there it is a heap location. *)
Variable D : Type.

Record CacheEntry : Type := mkEntry {
  diagnostics : D;
  timestamp : N;
  fileHash : option string
}.

(** *** The [LRUCache] of the [lru-cache] package

    Entries from most to least recently used, each with the time its age
    counts from.  Configured as in the constructor: [max] items (0 for no
    bound), a fixed [ttl], [updateAgeOnGet], and a [dispose] callback that
    the package calls for every entry that leaves the cache: evicted,
    expired, deleted, overwritten or cleared.  Every operation returns the
    number of [dispose] calls it made. *)

Record Slot : Type := mkSlot {
  value : CacheEntry;
  ageStart : N
}.

Record LRU : Type := mkLRU {
  max : N;
  ttl : N;
  slots : list (string * Slot)
}.

(** [isStale] of the package: [!!ttl && !!start && now - start > ttl].  A
    slot whose age starts at clock 0 never counts as stale. *)
Definition isStale (c : LRU) (now : N) (s : Slot) : bool :=
  (negb (ttl c =? 0) && negb (ageStart s =? 0)
   && (ttl c <? now - ageStart s))%N.

Definition withSlots (c : LRU) (l : list (string * Slot)) : LRU :=
  {| max := max c; ttl := ttl c; slots := l |}.

Definition lru_size (c : LRU) : nat := List.length (slots c).

(** The live entry under a key, without touching recency. *)
Definition lru_peek (now : N) (k : string) (c : LRU) : option CacheEntry :=
  match JsMap.get k (slots c) with
  | Some s => if isStale c now s then None else Some (value s)
  | None => None
  end.

Definition lru_has (now : N) (k : string) (c : LRU) : bool :=
  match lru_peek now k c with
  | Some _ => true
  | None => false
  end.

Definition lru_get (now : N) (k : string) (c : LRU)
  : option CacheEntry * LRU * nat :=
  match JsMap.get k (slots c) with
  | None => (None, c, 0)
  | Some s =>
      if isStale c now s
      then (None, withSlots c (JsMap.delete k (slots c)), 1)
      else (Some (value s),
            withSlots c ((k, mkSlot (value s) now) :: JsMap.delete k (slots c)),
            0)
  end.

Definition lru_set (now : N) (k : string) (v : CacheEntry) (c : LRU)
  : LRU * nat :=
  match JsMap.get k (slots c) with
  | Some _ =>
      (withSlots c ((k, mkSlot v now) :: JsMap.delete k (slots c)), 1)
  | None =>
      if ((0 <? max c) && (max c <=? N.of_nat (lru_size c)))%N
      then (withSlots c ((k, mkSlot v now) :: removelast (slots c)), 1)
      else (withSlots c ((k, mkSlot v now) :: slots c), 0)
  end.

Definition lru_delete (k : string) (c : LRU) : LRU * nat :=
  match JsMap.get k (slots c) with
  | Some _ => (withSlots c (JsMap.delete k (slots c)), 1)
  | None => (c, 0)
  end.

Definition lru_clear (c : LRU) : LRU * nat := (withSlots c [], lru_size c).

(** *** The cache and its counters *)

Record Stats : Type := mkCounters {
  hits : nat;
  misses : nat;
  evictions : nat
}.

Record DiagnosticCache : Type := mkCache {
  cache : LRU;
  stats : Stats
}.

Definition disposed (n : nat) (s : Stats) : Stats :=
  {| hits := hits s; misses := misses s; evictions := evictions s + n |}.

(** [new DiagnosticCache(maxSizeMB)]. *)
Definition new (maxSizeMB : N) : DiagnosticCache :=
  let avgDiagnosticSize := 200%N in
  let maxBytes := (maxSizeMB * 1024 * 1024)%N in
  let maxItems := (maxBytes / avgDiagnosticSize)%N in
  {| cache := {| max := maxItems; ttl := (1000 * 60 * 60)%N; slots := [] |};
     stats := {| hits := 0; misses := 0; evictions := 0 |} |}.

Definition get (now : N) (key : string) (c : DiagnosticCache)
  : option D * DiagnosticCache :=
  let '(entry, lru, n) := lru_get now key (cache c) in
  let st := disposed n (stats c) in
  match entry with
  | Some e =>
      (Some (diagnostics e),
       {| cache := lru;
          stats := {| hits := hits st + 1; misses := misses st;
                      evictions := evictions st |} |})
  | None =>
      (None,
       {| cache := lru;
          stats := {| hits := hits st; misses := misses st + 1;
                      evictions := evictions st |} |})
  end.

Definition set (now : N) (key : string) (ds : D) (hash : option string)
    (c : DiagnosticCache) : DiagnosticCache :=
  let '(lru, n) :=
    lru_set now key {| diagnostics := ds; timestamp := now; fileHash := hash |}
            (cache c) in
  {| cache := lru; stats := disposed n (stats c) |}.

Definition has (now : N) (key : string) (c : DiagnosticCache) : bool :=
  lru_has now key (cache c).

Definition delete (key : string) (c : DiagnosticCache) : DiagnosticCache :=
  let '(lru, n) := lru_delete key (cache c) in
  {| cache := lru; stats := disposed n (stats c) |}.

Definition clear (c : DiagnosticCache) : DiagnosticCache :=
  let '(lru, n) := lru_clear (cache c) in
  {| cache := lru; stats := disposed n (stats c) |}.

(** [hits / totalRequests] as an exact quotient. *)
Definition quotient (n d : nat) : Q := Z.of_nat n # Pos.of_nat d.

Definition getStats (c : DiagnosticCache) : CacheStats :=
  let totalRequests := hits (stats c) + misses (stats c) in
  {| cs_size := lru_size (cache c);
     cs_hits := hits (stats c);
     cs_misses := misses (stats c);
     cs_evictions := evictions (stats c);
     hitRate := if 0 <? totalRequests
                then quotient (hits (stats c)) totalRequests
                else 0%Q;
     itemCount := lru_size (cache c) |}.

Definition resetStats (c : DiagnosticCache) : DiagnosticCache :=
  {| cache := cache c; stats := {| hits := 0; misses := 0; evictions := 0 |} |}.

(** The entry a [get] at time [now] would find. *)
Definition peek (now : N) (key : string) (c : DiagnosticCache) : option D :=
  option_map diagnostics (lru_peek now key (cache c)).

End WithPayload.

Arguments diagnostics {D} c.
Arguments timestamp {D} c.
Arguments value {D} s.
Arguments ageStart {D} s.
Arguments max {D} l.
Arguments ttl {D} l.
Arguments slots {D} l.
Arguments cache {D} d.
Arguments stats {D} d.
Arguments isStale {D} c now s.
Arguments lru_size {D} c.
Arguments lru_peek {D} now k c.
Arguments lru_get {D} now k c.
Arguments lru_set {D} now k v c.
Arguments lru_delete {D} k c.
Arguments lru_clear {D} c.
Arguments get {D} now key c.
Arguments set {D} now key ds hash c.
Arguments has {D} now key c.
Arguments delete {D} key c.
Arguments clear {D} c.
Arguments getStats {D} c.
Arguments resetStats {D} c.
Arguments peek {D} now key c.

(** *** Counting hits and misses *)

Section Counters.
Context {D : Type}.
Implicit Types (c : DiagnosticCache D) (d : D).

Lemma get_found :
  forall now key c d c',
    get now key c = (Some d, c') ->
    hits (stats c') = hits (stats c) + 1 /\ misses (stats c') = misses (stats c).
Proof.
  intros now key c d c'; unfold get.
  destruct (lru_get now key (cache c)) as [[[e|] lru] n]; cbn;
    intros [= _ <-]; cbn; auto.
Qed.

Lemma get_not_found :
  forall now key c c',
    get now key c = (None, c') ->
    hits (stats c') = hits (stats c) /\ misses (stats c') = misses (stats c) + 1.
Proof.
  intros now key c c'; unfold get.
  destruct (lru_get now key (cache c)) as [[[e|] lru] n]; cbn;
    intros [= <-]; cbn; auto.
Qed.

(** A [get] hits exactly on a live entry. *)
Lemma get_peek : forall now key c, fst (get now key c) = peek now key c.
Proof.
  intros now key c; unfold get, peek, lru_get, lru_peek.
  destruct (JsMap.get key (slots (cache c))) as [s|]; [|reflexivity].
  destruct (isStale (cache c) now s); reflexivity.
Qed.

Lemma hitRate_no_requests :
  forall c, hits (stats c) + misses (stats c) = 0 -> hitRate (getStats c) = 0%Q.
Proof. intros c H; unfold getStats; cbn [hitRate]; now rewrite H. Qed.

Lemma hitRate_requests :
  forall c,
    0 < hits (stats c) + misses (stats c) ->
    (hitRate (getStats c) ==
     inject_Z (Z.of_nat (hits (stats c)))
     / inject_Z (Z.of_nat (hits (stats c) + misses (stats c))))%Q.
Proof.
  intros c H; unfold getStats; cbn [hitRate].
  destruct (Nat.ltb_spec 0 (hits (stats c) + misses (stats c))) as [_|E]; [|lia].
  unfold quotient.
  assert (Hpos : Z.pos (Pos.of_nat (hits (stats c) + misses (stats c)))
                 = Z.of_nat (hits (stats c) + misses (stats c))).
  { rewrite <- (Nat2Pos.id (hits (stats c) + misses (stats c))) at 2 by lia.
    now rewrite positive_nat_Z. }
  rewrite <- Hpos; apply Qmake_Qdiv.
Qed.

(** C7: the hit rate is 0 while no request was counted and the quotient
    hits / (hits + misses) afterwards ([hitRate] is kept as an exact
    rational); from fresh counters, one [get] that finds its entry and one
    [get] that does not, in either order, give the hit rate 1/2. *)
Theorem hitRate_spec :
  forall c,
    (hits (stats c) + misses (stats c) = 0 -> hitRate (getStats c) = 0%Q)
    /\ (0 < hits (stats c) + misses (stats c) ->
        (hitRate (getStats c) ==
         inject_Z (Z.of_nat (hits (stats c)))
         / inject_Z (Z.of_nat (hits (stats c) + misses (stats c))))%Q)
    /\ (forall now1 key1 now2 key2 d c1 c2,
          hits (stats c) = 0 -> misses (stats c) = 0 ->
          (get now1 key1 c = (Some d, c1) /\ get now2 key2 c1 = (None, c2))
          \/ (get now1 key1 c = (None, c1) /\ get now2 key2 c1 = (Some d, c2)) ->
          hits (stats c2) = 1 /\ misses (stats c2) = 1
          /\ (hitRate (getStats c2) == 1 # 2)%Q).
Proof.
  intro c; split; [apply hitRate_no_requests|split; [apply hitRate_requests|]].
  intros now1 key1 now2 key2 d c1 c2 Hh Hm [[H1 H2]|[H1 H2]].
  - apply get_found in H1; apply get_not_found in H2.
    destruct H1 as [Ha Hb], H2 as [Hc Hd].
    assert (E1 : hits (stats c2) = 1) by lia.
    assert (E2 : misses (stats c2) = 1) by lia.
    repeat split; try assumption.
    unfold getStats; cbn [hitRate]; rewrite E1, E2; reflexivity.
  - apply get_not_found in H1; apply get_found in H2.
    destruct H1 as [Ha Hb], H2 as [Hc Hd].
    assert (E1 : hits (stats c2) = 1) by lia.
    assert (E2 : misses (stats c2) = 1) by lia.
    repeat split; try assumption.
    unfold getStats; cbn [hitRate]; rewrite E1, E2; reflexivity.
Qed.

End Counters.

(** *** Entries *)

Section Entries.
Context {D : Type}.
Implicit Types (c : DiagnosticCache D) (l : LRU D).

(** The slot stored under a key, live or not. *)
Definition slotOf (key : string) c : option (Slot D) :=
  JsMap.get key (slots (cache c)).

(** No key has two slots. *)
Definition wf c : Prop := NoDup (JsMap.keys (slots (cache c))).

Lemma new_wf : forall maxSizeMB, wf (new D maxSizeMB).
Proof. intro; constructor. Qed.

Lemma new_slotOf : forall maxSizeMB key, slotOf key (new D maxSizeMB) = None.
Proof. reflexivity. Qed.

Lemma NoDup_cons_delete :
  forall key (m : JsMap.t (Slot D)),
    NoDup (JsMap.keys m) -> NoDup (key :: JsMap.keys (JsMap.delete key m)).
Proof.
  intros key m H; constructor; [|now apply JsMap.NoDup_keys_delete].
  apply JsMap.get_None_keys; now apply JsMap.get_delete_same.
Qed.

Lemma get_wf : forall now key c, wf c -> wf (snd (get now key c)).
Proof.
  intros now key c H; unfold wf, get, lru_get in *.
  destruct (JsMap.get key (slots (cache c))) as [sl|]; [|exact H].
  destruct (isStale (cache c) now sl); cbn.
  - now apply JsMap.NoDup_keys_delete.
  - now apply NoDup_cons_delete.
Qed.

Lemma set_wf : forall now key d hash c, wf c -> wf (set now key d hash c).
Proof.
  intros now key d hash c H; unfold wf, set, lru_set in *.
  destruct (JsMap.get key (slots (cache c))) as [sl|] eqn:E;
    cbn [cache slots withSlots fst snd].
  - now apply NoDup_cons_delete.
  - apply JsMap.get_None_keys in E.
    destruct ((0 <? max (cache c))%N && _); cbn [cache slots withSlots fst snd].
    + change (NoDup (key :: JsMap.keys (removelast (slots (cache c))))).
      rewrite JsMap.keys_removelast; constructor.
      * intro Hin; apply E; now apply JsMap.In_removelast.
      * now apply JsMap.NoDup_removelast.
    + change (NoDup (key :: JsMap.keys (slots (cache c)))).
      now constructor.
Qed.

Lemma delete_wf : forall key c, wf c -> wf (delete key c).
Proof.
  intros key c H; unfold wf, delete, lru_delete in *.
  destruct (JsMap.get key (slots (cache c))); cbn; [|exact H].
  now apply JsMap.NoDup_keys_delete.
Qed.

Lemma clear_wf : forall c, wf (clear c).
Proof. intro c; constructor. Qed.

(** A [get] adds no entry and changes no payload. *)
Lemma get_slotOf :
  forall now key key' c sl,
    wf c -> slotOf key' (snd (get now key c)) = Some sl ->
    exists sl0, slotOf key' c = Some sl0 /\ value sl = value sl0.
Proof.
  intros now key key' c sl H; unfold wf, slotOf, get, lru_get in *.
  destruct (JsMap.get key (slots (cache c))) as [s0|] eqn:E.
  - destruct (isStale (cache c) now s0); cbn.
    + intro G; apply JsMap.get_delete_Some in G; [|assumption].
      exists sl; tauto.
    + destruct (String.eqb key' key) eqn:Ek.
      * apply String.eqb_eq in Ek; subst key'.
        intros [= <-]; exists s0; split; [assumption|reflexivity].
      * intro G; apply JsMap.get_delete_Some in G; [|assumption].
        exists sl; tauto.
  - cbn; intro G; exists sl; tauto.
Qed.

(** A [get] of one key leaves the absence of a slot as it is. *)
Lemma get_slotOf_None :
  forall now key key' c,
    slotOf key' c = None -> slotOf key' (snd (get now key c)) = None.
Proof.
  intros now key key' c; unfold slotOf, get, lru_get.
  destruct (JsMap.get key (slots (cache c))) as [s0|] eqn:E; [|auto].
  destruct (string_dec key' key) as [->|Hne]; [congruence|].
  destruct (isStale (cache c) now s0); cbn.
  - now rewrite JsMap.get_delete_other.
  - apply String.eqb_neq in Hne; rewrite Hne.
    apply String.eqb_neq in Hne; now rewrite JsMap.get_delete_other.
Qed.

Lemma set_slotOf_same :
  forall now key d hash c,
    slotOf key (set now key d hash c) = Some (mkSlot D (mkEntry D d now hash) now).
Proof.
  intros now key d hash c; unfold slotOf, set, lru_set.
  destruct (JsMap.get key (slots (cache c))); cbn.
  - now rewrite String.eqb_refl.
  - destruct ((0 <? max (cache c))%N && _); cbn; now rewrite String.eqb_refl.
Qed.

(** A [set] adds an entry under its own key only. *)
Lemma set_slotOf_other :
  forall now key key' d hash c sl,
    key' <> key -> slotOf key' (set now key d hash c) = Some sl ->
    slotOf key' c = Some sl.
Proof.
  intros now key key' d hash c sl Hne; unfold slotOf, set, lru_set.
  pose proof Hne as Hneb; apply String.eqb_neq in Hneb.
  destruct (JsMap.get key (slots (cache c))); cbn.
  - rewrite Hneb; now rewrite JsMap.get_delete_other.
  - destruct ((0 <? max (cache c))%N && _); cbn; rewrite Hneb; [|auto].
    apply JsMap.get_removelast.
Qed.

Lemma delete_slotOf :
  forall key key' c sl,
    wf c -> slotOf key' (delete key c) = Some sl ->
    key' <> key /\ slotOf key' c = Some sl.
Proof.
  intros key key' c sl H; unfold wf, slotOf, delete, lru_delete in *.
  destruct (JsMap.get key (slots (cache c))) eqn:E; cbn.
  - intro G; now apply JsMap.get_delete_Some in G.
  - intro G; split; [congruence|assumption].
Qed.

Lemma clear_slotOf : forall key c, slotOf key (clear c) = None.
Proof. reflexivity. Qed.

(** What [get] returns is the payload of the slot, when it is live. *)
Lemma peek_slotOf :
  forall now key c d,
    peek now key c = Some d ->
    exists sl, slotOf key c = Some sl /\ diagnostics (value sl) = d.
Proof.
  intros now key c d; unfold peek, lru_peek, slotOf.
  destruct (JsMap.get key (slots (cache c))) as [sl|]; [|discriminate].
  destruct (isStale (cache c) now sl); [discriminate|].
  cbn; intros [= <-]; now exists sl.
Qed.

Lemma peek_None_of_slotOf :
  forall now key c, slotOf key c = None -> peek now key c = None.
Proof.
  intros now key c; unfold peek, lru_peek, slotOf; now intros ->.
Qed.

End Entries.

(** A cache of capacity 100 MB holding one entry, asked once for that entry
    and once for another key. *)
Definition sampleCache : DiagnosticCache nat := set 5 "k" 7 None (new nat 100).
Definition sampleAfterHit : DiagnosticCache nat := snd (get 6 "k" sampleCache).
Definition sampleAfterMiss : DiagnosticCache nat := snd (get 7 "z" sampleAfterHit).

Lemma hitRate_spec_witness :
  hitRate (getStats (new nat 100)) = 0%Q
  /\ (hitRate (getStats sampleAfterMiss) == inject_Z 1 / inject_Z 2)%Q
  /\ (hitRate (getStats sampleAfterMiss) == 1 # 2)%Q.
Proof.
  split; [|split].
  - apply (proj1 (hitRate_spec (new nat 100))); reflexivity.
  - apply (proj1 (proj2 (hitRate_spec sampleAfterMiss))); vm_compute; lia.
  - apply (proj2 (proj2 (hitRate_spec sampleCache)) 6%N "k" 7%N "z" 7
                 sampleAfterHit sampleAfterMiss);
      [reflexivity|reflexivity|left; split; reflexivity].
Defined.

(** *** Sequences of cache calls *)

Section Calls.
Context {D : Type}.
Implicit Types (c : DiagnosticCache D).

Inductive Call : Type :=
| CallGet (now : N) (key : string)
| CallSet (now : N) (key : string) (ds : D) (hash : option string)
| CallDelete (key : string)
| CallClear
| CallResetStats.

Definition call (op : Call) c : DiagnosticCache D :=
  match op with
  | CallGet now key => snd (get now key c)
  | CallSet now key ds hash => set now key ds hash c
  | CallDelete key => delete key c
  | CallClear => clear c
  | CallResetStats => resetStats c
  end.

Definition calls (ops : list Call) c : DiagnosticCache D :=
  fold_left (fun c op => call op c) ops c.

(** The requests counted since the counters were last reset. *)
Definition requestsCounted (ops : list Call) (before : nat) : nat :=
  fold_left (fun n op =>
               match op with
               | CallGet _ _ => n + 1
               | CallResetStats => 0
               | _ => n
               end) ops before.

Definition isSet (op : Call) : bool :=
  match op with CallSet _ _ _ _ => true | _ => false end.

Definition isReset (op : Call) : bool :=
  match op with CallResetStats => true | _ => false end.

Lemma calls_snoc :
  forall ops op c, calls (ops ++ [op]) c = call op (calls ops c).
Proof. intros; unfold calls; now rewrite fold_left_app. Qed.

Lemma call_config :
  forall op c,
    max (cache (call op c)) = max (cache c)
    /\ ttl (cache (call op c)) = ttl (cache c).
Proof.
  intros [now key|now key ds hash|key| |] c; cbn;
    unfold get, set, delete, clear, lru_get, lru_set, lru_delete, lru_clear.
  - destruct (JsMap.get key (slots (cache c))) as [s|]; [|now cbn].
    destruct (isStale (cache c) now s); now cbn.
  - destruct (JsMap.get key (slots (cache c))) as [s|]; [now cbn|].
    destruct ((0 <? max (cache c))%N && _); now cbn.
  - destruct (JsMap.get key (slots (cache c))); now cbn.
  - now cbn.
  - now cbn.
Qed.

Lemma calls_config :
  forall ops c,
    max (cache (calls ops c)) = max (cache c)
    /\ ttl (cache (calls ops c)) = ttl (cache c).
Proof.
  intros ops; induction ops as [|op ops IH] using rev_ind; intro c; [now cbn|].
  rewrite calls_snoc.
  destruct (call_config op (calls ops c)) as [-> ->]; apply IH.
Qed.

Lemma call_wf : forall op c, wf c -> wf (call op c).
Proof.
  intros [now key|now key ds hash|key| |] c H; cbn.
  - now apply get_wf.
  - now apply set_wf.
  - now apply delete_wf.
  - apply clear_wf.
  - exact H.
Qed.

Lemma calls_wf : forall ops c, wf c -> wf (calls ops c).
Proof.
  intros ops; induction ops as [|op ops IH] using rev_ind; intros c H; [exact H|].
  rewrite calls_snoc; apply call_wf; now apply IH.
Qed.

Lemma length_delete_present :
  forall (V : Type) k (m : JsMap.t V) v,
    JsMap.get k m = Some v ->
    S (List.length (JsMap.delete k m)) = List.length m.
Proof.
  intros V k m v; induction m as [|[k' v'] m IH]; cbn; [discriminate|].
  destruct (String.eqb k k'); [reflexivity|].
  intro H; cbn; f_equal; now apply IH.
Qed.

Lemma length_removelast_nonempty :
  forall (A : Type) (l : list A),
    l <> [] -> S (List.length (removelast l)) = List.length l.
Proof.
  intros A l H; destruct (exists_last H) as (l' & a & ->).
  rewrite removelast_last, length_app; cbn; lia.
Qed.

(** The capacity is respected by every call. *)
Definition withinCapacity c : Prop :=
  (0 < max (cache c))%N -> (N.of_nat (lru_size (cache c)) <= max (cache c))%N.

Lemma call_withinCapacity :
  forall op c, withinCapacity c -> withinCapacity (call op c).
Proof.
  intros op c H Hpos.
  destruct (call_config op c) as [Hmax _]; rewrite Hmax in *.
  specialize (H Hpos); revert H.
  destruct op as [now key|now key ds hash|key| |]; cbn [call];
    unfold get, set, delete, clear, lru_get, lru_set, lru_delete, lru_clear,
      lru_size.
  - destruct (JsMap.get key (slots (cache c))) as [s|] eqn:E; [|now cbn [snd cache]].
    apply length_delete_present in E.
    destruct (isStale (cache c) now s); cbn [snd cache slots withSlots List.length]; lia.
  - destruct (JsMap.get key (slots (cache c))) as [s|] eqn:E.
    + apply length_delete_present in E; cbn [snd cache slots withSlots List.length]; lia.
    + destruct (N.ltb_spec 0 (max (cache c))) as [_|]; [|lia].
      destruct (N.leb_spec (max (cache c))
                  (N.of_nat (List.length (slots (cache c))))) as [Hfull|Hroom];
        cbn [andb snd cache slots withSlots List.length].
      * assert (Hne : slots (cache c) <> []).
        { intro E0; rewrite E0 in Hfull; cbn in Hfull; lia. }
        apply length_removelast_nonempty in Hne; lia.
      * lia.
  - destruct (JsMap.get key (slots (cache c))) as [s|] eqn:E; [|now cbn [snd cache]].
    apply length_delete_present in E; cbn [snd cache slots withSlots List.length]; lia.
  - cbn [snd cache slots withSlots List.length]; lia.
  - now cbn.
Qed.

Lemma calls_withinCapacity :
  forall ops c, withinCapacity c -> withinCapacity (calls ops c).
Proof.
  intros ops; induction ops as [|op ops IH] using rev_ind; intros c H; [exact H|].
  rewrite calls_snoc; apply call_withinCapacity; now apply IH.
Qed.

End Calls.

Arguments Call D : clear implicits.

(** *** What users of the cache can rely on *)

Section Laws.
Context {D : Type}.
Implicit Types (c : DiagnosticCache D).

Lemma set_counters :
  forall now key ds hash c,
    hits (stats (set now key ds hash c)) = hits (stats c)
    /\ misses (stats (set now key ds hash c)) = misses (stats c).
Proof.
  intros now key ds hash c; unfold set.
  destruct (lru_set now key _ (cache c)) as [lru n]; now cbn.
Qed.

Lemma new_config :
  forall maxSizeMB ops,
    max (cache (calls ops (new D maxSizeMB))) = (maxSizeMB * 1024 * 1024 / 200)%N
    /\ ttl (cache (calls ops (new D maxSizeMB))) = 3600000%N.
Proof.
  intros maxSizeMB ops.
  destruct (calls_config ops (new D maxSizeMB)) as [-> ->]; now cbn.
Qed.

Lemma get_after_set :
  forall now now' key ds hash c,
    get now' key (set now key ds hash c)
    = if (negb (ttl (cache c) =? 0) && negb (now =? 0)
          && (ttl (cache c) <? now' - now))%N
      then (None,
            {| cache := withSlots D (cache (set now key ds hash c))
                          (JsMap.delete key
                             (slots (cache (set now key ds hash c))));
               stats := {| hits := hits (stats (set now key ds hash c));
                           misses := misses (stats (set now key ds hash c)) + 1;
                           evictions :=
                             evictions (stats (set now key ds hash c)) + 1 |} |})
      else (Some ds,
            {| cache := withSlots D (cache (set now key ds hash c))
                          ((key, mkSlot D (mkEntry D ds now hash) now')
                             :: JsMap.delete key
                                  (slots (cache (set now key ds hash c))));
               stats := {| hits := hits (stats (set now key ds hash c)) + 1;
                           misses := misses (stats (set now key ds hash c));
                           evictions :=
                             evictions (stats (set now key ds hash c)) + 0 |} |}).
Proof.
  intros now now' key ds hash c.
  pose proof (set_slotOf_same now key ds hash c) as E; unfold slotOf in E.
  destruct (call_config (CallSet now key ds hash) c) as [_ Httl];
    cbn [call] in Httl.
  unfold get at 1, lru_get; rewrite E; unfold isStale; rewrite Httl.
  cbn [ageStart value].
  destruct (negb (ttl (cache c) =? 0) && negb (now =? 0)
            && (ttl (cache c) <? now' - now))%N; reflexivity.
Qed.

(** X2: a cache made by the constructor serves an entry for one hour
    (3 600 000 ms) after it was written: a [get] of the key within that time
    returns exactly the diagnostics that were [set], and counts one hit and
    no miss. *)
Theorem set_then_get_within_the_hour :
  forall maxSizeMB ops now now' key ds hash,
    let c := calls ops (new D maxSizeMB) in
    (now' - now <= 3600000)%N ->
    let r := get now' key (set now key ds hash c) in
    fst r = Some ds
    /\ hits (stats (snd r)) = hits (stats c) + 1
    /\ misses (stats (snd r)) = misses (stats c).
Proof.
  intros maxSizeMB ops now now' key ds hash c Hage r; subst r.
  rewrite get_after_set.
  destruct (new_config maxSizeMB ops) as [_ Httl]; fold c in Httl; rewrite Httl.
  destruct (N.ltb_spec 3600000 (now' - now)) as [H|_]; [lia|].
  rewrite andb_false_r.
  destruct (set_counters now key ds hash c) as [-> ->]; now cbn.
Qed.


Lemma get_after_hit :
  forall now1 now2 key ds c,
    fst (get now1 key c) = Some ds ->
    (now2 - now1 <= ttl (cache c))%N ->
    fst (get now2 key (snd (get now1 key c))) = Some ds.
Proof.
  intros now1 now2 key ds c; unfold get, lru_get.
  destruct (JsMap.get key (slots (cache c))) as [s|]; [|discriminate].
  destruct (isStale (cache c) now1 s); [discriminate|].
  cbn [fst snd cache slots withSlots JsMap.get]; rewrite String.eqb_refl.
  intros [= <-] Hage; unfold isStale; cbn [ttl withSlots ageStart value].
  destruct (N.ltb_spec (ttl (cache c)) (now2 - now1)) as [H|_]; [lia|].
  rewrite andb_false_r; reflexivity.
Qed.

(** X4: a read restarts the hour ([updateAgeOnGet]).  When a [get] finds an
    entry, a later [get] of the key finds the same diagnostics as long as it
    comes within one hour of that read, however long ago the entry was
    written. *)
Theorem get_restarts_the_hour :
  forall maxSizeMB ops now1 now2 key ds,
    let c := calls ops (new D maxSizeMB) in
    fst (get now1 key c) = Some ds ->
    (now2 - now1 <= 3600000)%N ->
    fst (get now2 key (snd (get now1 key c))) = Some ds.
Proof.
  intros maxSizeMB ops now1 now2 key ds c Hhit Hage.
  apply get_after_hit; [exact Hhit|].
  destruct (new_config maxSizeMB ops) as [_ Httl]; fold c in Httl.
  now rewrite Httl.
Qed.

(** X5: the number of entries never exceeds the capacity the constructor
    computes, [maxSizeMB * 1024 * 1024 / 200] items, whatever is read,
    written, deleted or cleared. *)
Theorem size_within_capacity :
  forall maxSizeMB ops,
    let c := calls ops (new D maxSizeMB) in
    let maxItems := (maxSizeMB * 1024 * 1024 / 200)%N in
    (0 < maxItems)%N ->
    (N.of_nat (cs_size (getStats c)) <= maxItems)%N
    /\ itemCount (getStats c) = cs_size (getStats c).
Proof.
  intros maxSizeMB ops c maxItems Hpos; subst c maxItems.
  split; [|reflexivity].
  destruct (new_config maxSizeMB ops) as [Hmax _].
  cbn [getStats cs_size]; rewrite <- Hmax.
  apply calls_withinCapacity; [|now rewrite Hmax].
  intros _; cbn; lia.
Qed.

(** X6: [delete] forgets its key and nothing else: a [get] of the key
    misses afterwards, and every other key is found, or not, exactly as
    before.  After [clear] the cache is empty, every [get] misses, and each
    entry that was dropped is counted as an eviction. *)
Theorem delete_and_clear_forget :
  forall maxSizeMB ops now key,
    let c := calls ops (new D maxSizeMB) in
    fst (get now key (delete key c)) = None
    /\ (forall key', key' <> key ->
          fst (get now key' (delete key c)) = fst (get now key' c))
    /\ fst (get now key (clear c)) = None
    /\ cs_size (getStats (clear c)) = 0
    /\ cs_evictions (getStats (clear c))
       = cs_evictions (getStats c) + cs_size (getStats c).
Proof.
  intros maxSizeMB ops now key c.
  assert (Hwf : wf c) by apply calls_wf, new_wf.
  split; [|split; [|repeat split]].
  - rewrite get_peek; apply peek_None_of_slotOf.
    unfold slotOf, delete, lru_delete.
    destruct (JsMap.get key (slots (cache c))) eqn:E; cbn [cache slots withSlots].
    + now apply JsMap.get_delete_same.
    + exact E.
  - intros key' Hne; rewrite !get_peek; unfold peek, lru_peek, delete, lru_delete.
    destruct (JsMap.get key (slots (cache c))) eqn:E;
      cbn [cache slots withSlots]; [|reflexivity].
    rewrite JsMap.get_delete_other by exact Hne.
    reflexivity.
Qed.

Lemma call_requests :
  forall op c,
    hits (stats (call op c)) + misses (stats (call op c))
    = requestsCounted [op] (hits (stats c) + misses (stats c)).
Proof.
  intros [now key|now key ds hash|key| |] c; cbn [call requestsCounted fold_left].
  - destruct (get now key c) as [[d|] c'] eqn:E; cbn [snd].
    + apply get_found in E; lia.
    + apply get_not_found in E; lia.
  - destruct (set_counters now key ds hash c) as [-> ->]; reflexivity.
  - unfold delete; destruct (lru_delete key (cache c)); reflexivity.
  - reflexivity.
  - reflexivity.
Qed.

(** X7: the requests behind [hitRate] are the [get] calls made since the
    counters were last reset: every [get] counts exactly once, as a hit or
    as a miss; [set], [delete] and [clear] count nothing; [resetStats]
    starts again from zero. *)
Theorem requests_are_the_gets_since_reset :
  forall ops c,
    cs_hits (getStats (calls ops c)) + cs_misses (getStats (calls ops c))
    = requestsCounted ops (cs_hits (getStats c) + cs_misses (getStats c)).
Proof.
  intros ops c; cbn [getStats cs_hits cs_misses].
  induction ops as [|op ops IH] using rev_ind; [reflexivity|].
  rewrite calls_snoc, call_requests.
  unfold requestsCounted in *; rewrite fold_left_app, IH; reflexivity.
Qed.

Lemma call_conserves :
  forall op c,
    isReset op = false ->
    lru_size (cache (call op c)) + evictions (stats (call op c))
    = lru_size (cache c) + evictions (stats c) + (if isSet op then 1 else 0).
Proof.
  intros [now key|now key ds hash|key| |] c Hr; try discriminate;
    cbn [call isSet];
    unfold get, set, delete, clear, lru_get, lru_set, lru_delete, lru_clear,
      lru_size.
  - destruct (JsMap.get key (slots (cache c))) as [s|] eqn:E;
      [|cbn [snd cache stats evictions disposed slots]; lia].
    apply length_delete_present in E.
    destruct (isStale (cache c) now s);
      cbn [snd cache stats evictions disposed slots withSlots List.length]; lia.
  - destruct (JsMap.get key (slots (cache c))) as [s|] eqn:E.
    + apply length_delete_present in E.
      cbn [snd cache stats evictions disposed slots withSlots List.length]; lia.
    + destruct (N.ltb_spec 0 (max (cache c))) as [Hpos|_];
        [|cbn [andb snd cache stats evictions disposed slots withSlots
                 List.length]; lia].
      destruct (N.leb_spec (max (cache c))
                  (N.of_nat (List.length (slots (cache c))))) as [Hfull|Hroom];
        cbn [andb snd cache stats evictions disposed slots withSlots
               List.length]; [|lia].
      assert (Hne : slots (cache c) <> []).
      { intro E0; rewrite E0 in Hfull; cbn in Hfull; lia. }
      apply length_removelast_nonempty in Hne; lia.
  - destruct (JsMap.get key (slots (cache c))) as [s|] eqn:E;
      [|cbn [snd cache stats evictions disposed slots]; lia].
    apply length_delete_present in E.
    cbn [snd cache stats evictions disposed slots withSlots List.length]; lia.
  - cbn [snd cache stats evictions disposed slots withSlots List.length]; lia.
Qed.

(** X8: every entry that was written is still cached or was counted as an
    eviction.  Over any sequence of calls without [resetStats], the number
    of entries plus the eviction counter grows by exactly the number of
    [set] calls, whether an entry left by expiry, overwrite, capacity,
    [delete] or [clear]. *)
Theorem entries_are_cached_or_evicted :
  forall ops c,
    forallb (fun op => negb (isReset op)) ops = true ->
    cs_size (getStats (calls ops c)) + cs_evictions (getStats (calls ops c))
    = cs_size (getStats c) + cs_evictions (getStats c)
      + List.length (filter isSet ops).
Proof.
  intros ops c; cbn [getStats cs_size cs_evictions].
  induction ops as [|op ops IH] using rev_ind; intro H; [cbn; lia|].
  rewrite forallb_app in H; apply andb_true_iff in H; destruct H as [H1 H2].
  cbn in H2; rewrite andb_true_r in H2; apply negb_true_iff in H2.
  rewrite calls_snoc, call_conserves by exact H2.
  rewrite filter_app, length_app, IH by exact H1.
  cbn [filter]; destruct (isSet op); cbn [List.length]; lia.
Qed.

End Laws.

(** A day of use of a small cache: two files written, one read after 30
    minutes and again 50 minutes later, one deleted. *)
Definition sampleCalls : list (Call nat) :=
  [CallSet 0 "a" 1 None; CallSet 0 "b" 2 None;
   CallGet 1800000 "a"; CallGet 4800000 "a"; CallDelete "b"].

Lemma set_then_get_within_the_hour_witness :
  fst (get 3600010 "k" (set 10 "k" 7 None (calls sampleCalls (new nat 1))))
  = Some 7.
Proof.
  apply (set_then_get_within_the_hour 1 sampleCalls 10 3600010 "k" 7 None).
  vm_compute; discriminate.
Defined.


Lemma get_restarts_the_hour_witness :
  fst (get 8000000 "a"
         (snd (get 4800001 "a" (calls sampleCalls (new nat 1))))) = Some 1.
Proof.
  apply (get_restarts_the_hour 1 sampleCalls 4800001 8000000 "a" 1).
  - reflexivity.
  - vm_compute; discriminate.
Defined.

Lemma size_within_capacity_witness :
  (N.of_nat (cs_size (getStats (calls sampleCalls (new nat 1)))) <= 5242)%N.
Proof.
  apply (size_within_capacity 1 sampleCalls); reflexivity.
Defined.

Lemma delete_and_clear_forget_witness :
  fst (get 5 "a" (delete "b" (calls sampleCalls (new nat 1))))
  = fst (get 5 "a" (calls sampleCalls (new nat 1))).
Proof.
  apply (proj1 (proj2 (delete_and_clear_forget 1 sampleCalls 5 "b"))).
  discriminate.
Defined.

Lemma entries_are_cached_or_evicted_witness :
  cs_size (getStats (calls sampleCalls (new nat 1)))
  + cs_evictions (getStats (calls sampleCalls (new nat 1)))
  = 2.
Proof.
  apply (entries_are_cached_or_evicted sampleCalls (new nat 1)).
  reflexivity.
Defined.

(** *** [hashFile]

    [hash] is a JavaScript number.  [hash << 5] and [hash & hash] work on
    the 32-bit two's complement value of their operands ([toInt32]); the
    subtraction and the addition between them are exact.  [charCodeAt] is
    the code of the character; [toString(36)] writes the digits 0-9a-z with
    a leading minus sign for a negative number. *)

Definition toInt32 (z : Z) : Z := ((z + 2147483648) mod 4294967296 - 2147483648)%Z.

Definition charCodeAt (c : ascii) : Z := Z.of_nat (nat_of_ascii c).

Definition hashStep (hash : Z) (c : ascii) : Z :=
  let char := charCodeAt c in
  let hash := (toInt32 (Z.shiftl (toInt32 hash) 5) - hash + char)%Z in
  Z.land (toInt32 hash) (toInt32 hash).

Definition hashCode (content : string) : Z :=
  fold_left hashStep (list_ascii_of_string content) 0%Z.

Definition digit36 (d : Z) : ascii :=
  nth (Z.to_nat d)
      (list_ascii_of_string "0123456789abcdefghijklmnopqrstuvwxyz") "0"%char.

(** The digits of a non-negative integer below [36 ^ fuel], most significant
    first. *)
Fixpoint digits36 (fuel : nat) (z : Z) (acc : string) : string :=
  match fuel with
  | 0 => acc
  | S fuel' =>
      let acc' := String (digit36 (z mod 36)) acc in
      if (z / 36 =? 0)%Z then acc' else digits36 fuel' (z / 36)%Z acc'
  end.

(** [n.toString(36)] for a 32-bit integer [n] (at most seven digits). *)
Definition toString36 (z : Z) : string :=
  if (z <? 0)%Z then ("-" ++ digits36 7 (- z) "")%string else digits36 7 z "".

Definition hashFile (content : string) : string := toString36 (hashCode content).

(** The polynomial in 31 with the character codes as coefficients. *)
Definition polynomial31 (content : string) : Z :=
  fold_left (fun h c => (31 * h + charCodeAt c)%Z)
            (list_ascii_of_string content) 0%Z.

Lemma toInt32_range : forall z, (- 2147483648 <= toInt32 z < 2147483648)%Z.
Proof.
  intro z; unfold toInt32.
  pose proof (Z.mod_pos_bound (z + 2147483648) (4294967296) ltac:(lia)); lia.
Qed.

Lemma toInt32_add_mul :
  forall z k, toInt32 (z + k * 4294967296) = toInt32 z.
Proof.
  intros z k; unfold toInt32.
  replace (z + k * 4294967296 + 2147483648)%Z with (z + 2147483648 + k * 4294967296)%Z by ring.
  now rewrite Z.mod_add by lia.
Qed.

Lemma toInt32_decompose : forall z, exists k, (toInt32 z = z + k * 4294967296)%Z.
Proof.
  intro z; exists (- ((z + 2147483648) / 4294967296))%Z; unfold toInt32.
  rewrite Z.mod_eq by lia; ring.
Qed.

Lemma toInt32_small : forall z, (- 2147483648 <= z < 2147483648)%Z -> toInt32 z = z.
Proof. intros z H; unfold toInt32; rewrite Z.mod_small; lia. Qed.

Lemma hashStep_spec :
  forall hash c, hashStep hash c = toInt32 (31 * hash + charCodeAt c).
Proof.
  intros hash c; unfold hashStep; cbn zeta.
  rewrite Z.land_diag, Z.shiftl_mul_pow2 by lia.
  change (2 ^ 5)%Z with 32%Z.
  destruct (toInt32_decompose hash) as [k1 ->].
  destruct (toInt32_decompose ((hash + k1 * 4294967296) * 32)) as [k2 ->].
  replace ((hash + k1 * 4294967296) * 32 + k2 * 4294967296 - hash + charCodeAt c)%Z
    with (31 * hash + charCodeAt c + (32 * k1 + k2) * 4294967296)%Z by ring.
  apply toInt32_add_mul.
Qed.

Lemma hashStep_toInt32 :
  forall z c, hashStep (toInt32 z) c = toInt32 (31 * z + charCodeAt c).
Proof.
  intros z c; rewrite hashStep_spec.
  destruct (toInt32_decompose z) as [k ->].
  replace (31 * (z + k * 4294967296) + charCodeAt c)%Z
    with (31 * z + charCodeAt c + (31 * k) * 4294967296)%Z by ring.
  apply toInt32_add_mul.
Qed.

Lemma fold_hashStep :
  forall l z,
    fold_left hashStep l (toInt32 z)
    = toInt32 (fold_left (fun h c => (31 * h + charCodeAt c)%Z) l z).
Proof.
  induction l as [|c l IH]; intro z; cbn [fold_left]; [reflexivity|].
  rewrite hashStep_toInt32; apply IH.
Qed.

(** X9: the number that [hashFile] writes in base 36 is a signed 32-bit
    integer, and it is the polynomial hash of the content: the sum of
    [code * 31 ^ (distance from the end)] over the characters, reduced to 32
    bits two's complement. *)
Theorem hashCode_is_polynomial31 :
  forall content,
    hashFile content = toString36 (toInt32 (polynomial31 content))
    /\ hashCode content = toInt32 (polynomial31 content)
    /\ (- 2147483648 <= hashCode content < 2147483648)%Z.
Proof.
  intro content.
  assert (E : hashCode content = toInt32 (polynomial31 content)).
  { unfold hashCode, polynomial31.
    rewrite <- (toInt32_small 0) at 1 by lia; apply fold_hashStep. }
  unfold hashFile; rewrite E; repeat split; apply toInt32_range.
Qed.

Lemma list_ascii_of_string_app :
  forall s t,
    list_ascii_of_string (s ++ t)%string
    = list_ascii_of_string s ++ list_ascii_of_string t.
Proof.
  induction s as [|c s IH]; intro t; cbn; [reflexivity|now rewrite IH].
Qed.

(** X10: [hashFile] does not see every edit.  Raising the code of one
    character by one and lowering the code of the next by 31 leaves the hash
    as it was, wherever in the content the two characters are: [Aa] and
    [BB], for one. *)
Theorem hashFile_misses_some_edits :
  forall before after a b,
    nat_of_ascii a < 255 -> 31 <= nat_of_ascii b ->
    hashFile (before ++ String a (String b after))%string
    = hashFile (before
                ++ String (ascii_of_nat (nat_of_ascii a + 1))
                     (String (ascii_of_nat (nat_of_ascii b - 31)) after))%string.
Proof.
  intros before after a b Ha Hb; unfold hashFile, hashCode; f_equal.
  rewrite !list_ascii_of_string_app, !fold_left_app; cbn [list_ascii_of_string fold_left].
  f_equal.
  rewrite !hashStep_spec.
  set (h := fold_left hashStep (list_ascii_of_string before) 0%Z).
  pose proof (nat_ascii_bounded b) as Hb'.
  unfold charCodeAt; rewrite !nat_ascii_embedding by lia.
  destruct (toInt32_decompose (31 * h + Z.of_nat (nat_of_ascii a))) as [k1 ->].
  destruct (toInt32_decompose (31 * h + Z.of_nat (nat_of_ascii a + 1)))
    as [k2 ->].
  replace (31 * (31 * h + Z.of_nat (nat_of_ascii a + 1) + k2 * 4294967296)
           + Z.of_nat (nat_of_ascii b - 31))%Z
    with (31 * (31 * h + Z.of_nat (nat_of_ascii a) + k1 * 4294967296)
          + Z.of_nat (nat_of_ascii b) + (31 * (k2 - k1)) * 4294967296)%Z
    by lia.
  symmetry; apply toInt32_add_mul.
Qed.

Lemma hashFile_misses_some_edits_witness :
  hashFile ("let " ++ String "A" (String "a" " = 1;"))%string
  = hashFile ("let "
              ++ String (ascii_of_nat (nat_of_ascii "A" + 1))
                   (String (ascii_of_nat (nat_of_ascii "a" - 31)) " = 1;"))%string.
Proof.
  apply (hashFile_misses_some_edits "let " " = 1;" "A" "a");
    vm_compute; lia.
Defined.

End Cache.

(** ** [TypeScriptWatchManager] of [core/watch-manager.ts] *)

Module Manager.

Import Types.

(** A [Diagnostic[]] object: an index into the heap of arrays. *)
Definition loc : Type := nat.

(** What the manager hands to [EventEmitter.emit]. *)
Inductive Event : Type :=
| EvStarted (configCount : nat)
| EvDiagnostic (config : option string) (file : string) (diagnostic : Diagnostic)
| EvCompilationComplete (config : option string) (timestamp : N)
    (errorCount warningCount : nat)
| EvCleared (file : string)
| EvStopped
| EvRecompileRequested.

(** The fields of the class, the heap of the arrays it creates, and what it
    does to the outside: the compiler sessions ([ts.createWatchProgram]
    results, numbered in the order of creation, [opened] of them so far),
    the sessions on which [close()] was called, and the emitted events. *)
Record State : Type := mkState {
  watchers : JsMap.t nat;
  diagnosticsByConfig : JsMap.t (JsMap.t loc);
  cache : Cache.DiagnosticCache loc;
  isActive : bool;
  lastCompilation : option N;
  configs : list TSProjectConfig;
  arrays : list (list Diagnostic);
  opened : nat;
  closed : list nat;
  emitted : list Event
}.

Definition with_watchers (w : JsMap.t nat) (s : State) : State :=
  mkState w (diagnosticsByConfig s) (cache s) (isActive s) (lastCompilation s)
          (configs s) (arrays s) (opened s) (closed s) (emitted s).

Definition with_diagnosticsByConfig (m : JsMap.t (JsMap.t loc)) (s : State) : State :=
  mkState (watchers s) m (cache s) (isActive s) (lastCompilation s)
          (configs s) (arrays s) (opened s) (closed s) (emitted s).

Definition with_cache (c : Cache.DiagnosticCache loc) (s : State) : State :=
  mkState (watchers s) (diagnosticsByConfig s) c (isActive s) (lastCompilation s)
          (configs s) (arrays s) (opened s) (closed s) (emitted s).

Definition with_isActive (b : bool) (s : State) : State :=
  mkState (watchers s) (diagnosticsByConfig s) (cache s) b (lastCompilation s)
          (configs s) (arrays s) (opened s) (closed s) (emitted s).

Definition with_lastCompilation (t : option N) (s : State) : State :=
  mkState (watchers s) (diagnosticsByConfig s) (cache s) (isActive s) t
          (configs s) (arrays s) (opened s) (closed s) (emitted s).

Definition with_arrays (h : list (list Diagnostic)) (s : State) : State :=
  mkState (watchers s) (diagnosticsByConfig s) (cache s) (isActive s)
          (lastCompilation s) (configs s) h (opened s) (closed s) (emitted s).

Definition with_opened (n : nat) (s : State) : State :=
  mkState (watchers s) (diagnosticsByConfig s) (cache s) (isActive s)
          (lastCompilation s) (configs s) (arrays s) n (closed s) (emitted s).

Definition with_closed (l : list nat) (s : State) : State :=
  mkState (watchers s) (diagnosticsByConfig s) (cache s) (isActive s)
          (lastCompilation s) (configs s) (arrays s) (opened s) l (emitted s).

(** [this.emit(...)]. *)
Definition emit (e : Event) (s : State) : State :=
  mkState (watchers s) (diagnosticsByConfig s) (cache s) (isActive s)
          (lastCompilation s) (configs s) (arrays s) (opened s) (closed s)
          (emitted s ++ [e]).

(** *** The heap of arrays *)

Definition readArray (l : loc) (s : State) : list Diagnostic := nth l (arrays s) [].

Fixpoint updateNth {A : Type} (n : nat) (f : A -> A) (l : list A) : list A :=
  match l, n with
  | [], _ => []
  | x :: l', 0 => f x :: l'
  | x :: l', S n' => x :: updateNth n' f l'
  end.

(** [array.push(d)]. *)
Definition pushArray (l : loc) (d : Diagnostic) (h : list (list Diagnostic))
  : list (list Diagnostic) :=
  updateNth l (fun a => a ++ [d]) h.

(** *** Construction *)

(** [new TypeScriptWatchManager(configs, cacheSizeMB)]. *)
Definition new (cfgs : list TSProjectConfig) (cacheSizeMB : N) : State :=
  {| watchers := JsMap.empty;
     diagnosticsByConfig := JsMap.empty;
     cache := Cache.new loc cacheSizeMB;
     isActive := false;
     lastCompilation := None;
     configs := cfgs;
     arrays := [];
     opened := 0;
     closed := [];
     emitted := [] |}.

(** *** Ingestion *)

(** The key under which a file of a project is cached:
    [`${config.configPath}:${fileName}`]. *)
Definition cacheKey (cfgPath fileName : string) : string :=
  (cfgPath ++ ":" ++ fileName)%string.

Definition onDiagnostic (now : N) (config : TSProjectConfig)
    (diagnostic : TsDiagnostic) (s : State) : State :=
  let converted := convertDiagnostic diagnostic in
  match JsMap.get (configPath config) (diagnosticsByConfig s) with
  | None => s
  | Some diagnosticMap =>
      let fileName := d_file converted in
      (* if (!diagnosticMap.has(fileName)) diagnosticMap.set(fileName, []) *)
      let '(fileDiagnostics, diagnosticMap, s) :=
        match JsMap.get fileName diagnosticMap with
        | Some l => (l, diagnosticMap, s)
        | None =>
            let l := List.length (arrays s) in
            (l, JsMap.set fileName l diagnosticMap,
             with_arrays (arrays s ++ [[]]) s)
        end in
      let s := with_diagnosticsByConfig
                 (JsMap.set (configPath config) diagnosticMap
                            (diagnosticsByConfig s)) s in
      (* fileDiagnostics.push(converted) *)
      let s := with_arrays (pushArray fileDiagnostics converted (arrays s)) s in
      (* this.cache.set(key, fileDiagnostics): the array itself *)
      let s := with_cache
                 (Cache.set now (cacheKey (configPath config) fileName)
                            fileDiagnostics None (cache s)) s in
      emit (EvDiagnostic (name config) fileName converted) s
  end.

Definition countCategory (c : DiagnosticCategory) (ds : list Diagnostic) : nat :=
  List.length (filter (fun d => category_eqb (d_category d) c) ds).

Definition getAllDiagnosticsForConfig (cfgPath : string) (s : State)
  : list Diagnostic :=
  match JsMap.get cfgPath (diagnosticsByConfig s) with
  | None => []
  | Some diagnosticMap =>
      flat_map (fun l => readArray l s) (JsMap.values diagnosticMap)
  end.

Definition onWatchStatusChange (now : N) (config : TSProjectConfig)
    (messageText : string) (s : State) : State :=
  if Glob.includes "Found 0 errors" messageText
     || Glob.includes "Watching for file changes" messageText
  then
    let s := with_lastCompilation (Some now) s in
    let diagnostics := getAllDiagnosticsForConfig (configPath config) s in
    emit (EvCompilationComplete (name config) now
            (countCategory error diagnostics)
            (countCategory warning diagnostics)) s
  else s.

(** *** Queries *)

Definition buildDiagnosticResult (now : N) (ds : list Diagnostic)
    (source : string) (cacheHit : bool) : DiagnosticResult :=
  {| r_timestamp := now;
     r_totalErrors := countCategory error ds;
     r_totalWarnings := countCategory warning ds;
     r_totalSuggestions := countCategory suggestion ds;
     r_totalMessages := countCategory message ds;
     r_diagnostics := ds;
     r_cacheHit := cacheHit;
     r_source := source |}.

Definition getAllDiagnostics (now : N) (s : State) : DiagnosticResult :=
  buildDiagnosticResult now
    (flat_map (fun '(cfgPath, _) => getAllDiagnosticsForConfig cfgPath s)
              (diagnosticsByConfig s))
    "all" true.

(** The loop of [getFileDiagnostics]: one [cache.get] per configured
    project, each of which counts a hit or a miss and refreshes recency. *)
Fixpoint collectCached (now : N) (filePath : string) (cfgs : list TSProjectConfig)
    (s : State) : list Diagnostic * State :=
  match cfgs with
  | [] => ([], s)
  | config :: rest =>
      let '(cached, c) :=
        Cache.get now (cacheKey (configPath config) filePath) (cache s) in
      let s := with_cache c s in
      let found := match cached with
                   | Some l => readArray l s
                   | None => []
                   end in
      let '(more, s) := collectCached now filePath rest s in
      (found ++ more, s)
  end.

Definition getFileDiagnostics (now : N) (filePath : string) (s : State)
  : DiagnosticResult * State :=
  let '(ds, s) := collectCached now filePath (configs s) s in
  (buildDiagnosticResult now ds filePath (0 <? List.length ds), s).

Definition hasName (packageName : string) (c : TSProjectConfig) : bool :=
  match name c with
  | Some n => String.eqb n packageName
  | None => false
  end.

Definition getPackageDiagnostics (now : N) (packageName : string) (s : State)
  : option DiagnosticResult :=
  match find (hasName packageName) (configs s) with
  | None => None
  | Some config =>
      Some (buildDiagnosticResult now
              (getAllDiagnosticsForConfig (configPath config) s)
              packageName true)
  end.

(** [hasErrors(filePath?)]: an absent or empty path asks about all
    projects. *)
Definition hasErrors (now : N) (filePath : option string) (s : State)
  : bool * State :=
  match filePath with
  | Some (String c p) =>
      let '(result, s) := getFileDiagnostics now (String c p) s in
      (0 <? r_totalErrors result, s)
  | _ => (0 <? r_totalErrors (getAllDiagnostics now s), s)
  end.

Definition getDiagnosticCount (now : N) (s : State) : nat * nat * nat :=
  let result := getAllDiagnostics now s in
  (r_totalErrors result, r_totalWarnings result, r_totalSuggestions result).

Definition getTotalFilesWatched (s : State) : nat :=
  fold_left (fun total diagnosticMap => total + JsMap.size diagnosticMap)
            (JsMap.values (diagnosticsByConfig s)) 0.

Definition getStatus (s : State) : WatchStatus :=
  {| active := isActive s;
     watchedConfigs := map configPath (configs s);
     watchedFiles := getTotalFilesWatched s;
     st_lastCompilation := lastCompilation s;
     projectRoot := match configs s with
                    | c :: _ => match rootDir c with
                                | Some r => r
                                | None => ""
                                end
                    | [] => ""
                    end;
     mode := if 1 <? List.length (configs s) then monorepo else single |}.

Definition getCacheStats (s : State) : CacheStats := Cache.getStats (cache s).

Definition getPackages (s : State) : list string :=
  map (fun c => match name c with
                | Some (String a n) => String a n
                | _ => configPath c
                end) (configs s).

(** *** Clearing *)

(** The loop of [clearFileDiagnostics] deletes the file from every project's
    index and the project's key from the cache; the two kinds of deletion
    touch different objects, so they are written one after the other. *)
Definition clearFileDiagnostics (filePath : string) (s : State) : State :=
  let s := fold_left
             (fun s '(cfgPath, _) =>
                with_cache (Cache.delete (cacheKey cfgPath filePath) (cache s)) s)
             (diagnosticsByConfig s)
             (with_diagnosticsByConfig
                (map (fun '(cfgPath, diagnosticMap) =>
                        (cfgPath, JsMap.delete filePath diagnosticMap))
                     (diagnosticsByConfig s)) s) in
  emit (EvCleared filePath) s.

Definition clearAllDiagnostics (s : State) : State :=
  let s := with_diagnosticsByConfig
             (map (fun '(cfgPath, _) => (cfgPath, JsMap.empty))
                  (diagnosticsByConfig s)) s in
  let s := with_cache (Cache.clear (cache s)) s in
  emit (EvCleared "all") s.

(** *** Life cycle *)

(** What a compiler session reports through the two callbacks given to
    [ts.createWatchCompilerHost], with the time of the call. *)
Inductive SessionEvent : Type :=
| ReportDiagnostic (now : N) (diagnostic : TsDiagnostic)
| ReportWatchStatus (now : N) (messageText : string).

Definition deliver (config : TSProjectConfig) (ev : SessionEvent) (s : State)
  : State :=
  match ev with
  | ReportDiagnostic now d => onDiagnostic now config d s
  | ReportWatchStatus now msg => onWatchStatusChange now config msg s
  end.

(** What [start] reads from outside: the file system ([existsSync]) and the
    compiler, whose [ts.createWatchProgram] runs the first build before it
    returns and may report through the callbacks meanwhile. *)
Record Host : Type := mkHost {
  existsSync : string -> bool;
  firstBuild : TSProjectConfig -> list SessionEvent
}.

Definition startWatchingConfig (h : Host) (config : TSProjectConfig) (s : State)
  : State :=
  if negb (existsSync h (configPath config)) then s
  else
    (* const watcher = ts.createWatchProgram(host) *)
    let watcher := opened s in
    let s := with_opened (S watcher) s in
    let s := fold_left (fun s ev => deliver config ev s) (firstBuild h config) s in
    (* this.watchers.set(configPath, watcher) *)
    let s := with_watchers (JsMap.set (configPath config) watcher (watchers s)) s in
    (* this.diagnosticsByConfig.set(configPath, new Map()) *)
    with_diagnosticsByConfig
      (JsMap.set (configPath config) JsMap.empty (diagnosticsByConfig s)) s.

Definition start (h : Host) (s : State) : State :=
  if isActive s then s
  else
    let s := with_isActive true s in
    let s := fold_left (fun s config => startWatchingConfig h config s)
                       (configs s) s in
    emit (EvStarted (List.length (configs s))) s.

Definition stop (s : State) : State :=
  if negb (isActive s) then s
  else
    (* for (const watcher of this.watchers.values()) watcher.close() *)
    let s := with_closed (closed s ++ JsMap.values (watchers s)) s in
    let s := with_watchers JsMap.empty s in
    let s := with_isActive false s in
    emit EvStopped s.

Definition triggerRecompile (s : State) : State := emit EvRecompileRequested s.

(** *** Runs of the manager

    The calls that change the state, as they arrive on the single event
    queue: life-cycle calls, callbacks of compiler sessions, the queries that
    go through the cache, and the clear operations.  The other queries
    ([getAllDiagnostics], [getPackageDiagnostics], [getStatus], ...) only
    read. *)
Inductive Op : Type :=
| OpStart (h : Host)
| OpStop
| OpSession (config : TSProjectConfig) (ev : SessionEvent)
| OpGetFileDiagnostics (now : N) (filePath : string)
| OpHasErrors (now : N) (filePath : option string)
| OpClearFile (filePath : string)
| OpClearAll
| OpTriggerRecompile.

Definition exec (s : State) (op : Op) : State :=
  match op with
  | OpStart h => start h s
  | OpStop => stop s
  | OpSession config ev => deliver config ev s
  | OpGetFileDiagnostics now filePath => snd (getFileDiagnostics now filePath s)
  | OpHasErrors now filePath => snd (hasErrors now filePath s)
  | OpClearFile filePath => clearFileDiagnostics filePath s
  | OpClearAll => clearAllDiagnostics s
  | OpTriggerRecompile => triggerRecompile s
  end.

Definition run (ops : list Op) (s : State) : State := fold_left exec ops s.

(** The Bucket of a file in a project, read through the index. *)
Definition bucket (cfgPath fileName : string) (s : State)
  : option (list Diagnostic) :=
  match JsMap.get cfgPath (diagnosticsByConfig s) with
  | Some diagnosticMap =>
      match JsMap.get fileName diagnosticMap with
      | Some l => Some (readArray l s)
      | None => None
      end
  | None => None
  end.

(** The diagnostics a [cache.get] of the project's key would return at
    [now], read through the heap. *)
Definition cached (now : N) (cfgPath fileName : string) (s : State)
  : option (list Diagnostic) :=
  match Cache.peek now (cacheKey cfgPath fileName) (cache s) with
  | Some l => Some (readArray l s)
  | None => None
  end.

(** A host on which every config file exists and the first build reports
    nothing before [createWatchProgram] returns. *)
Definition quietHost : Host :=
  {| existsSync := fun _ => true; firstBuild := fun _ => [] |}.

(** *** Two passes over one file *)

Definition app : TSProjectConfig :=
  {| configPath := "/app/tsconfig.json"; name := Some "app";
     rootDir := Some "/app" |}.

Definition appFile : SourceFile := mkSourceFile "/app/src/a.ts" [0; 10; 20].

(** The error the first pass reports, and the different one the second pass
    reports for this same file after an edit. *)
Definition firstPassError : TsDiagnostic :=
  tsDiagnosticAt appFile 12 0 2322%Z "Type 'string' is not assignable to type 'number'.".
Definition secondPassError : TsDiagnostic :=
  tsDiagnosticAt appFile 23 0 2304%Z "Cannot find name 'x'.".

Definition passComplete : string := "Found 1 error. Watching for file changes.".

Definition twoPasses : list Op :=
  [ OpStart quietHost;
    OpSession app (ReportDiagnostic 100 firstPassError);
    OpSession app (ReportWatchStatus 110 passComplete);
    OpSession app (ReportDiagnostic 200 secondPassError);
    OpSession app (ReportWatchStatus 210 passComplete) ].

Definition afterTwoPasses : State := run twoPasses (new [app] 100).

(** A pass-complete signal touches neither the Store nor the Cache. *)
Lemma onWatchStatusChange_keeps_diagnostics :
  forall now config msg s,
    let s' := onWatchStatusChange now config msg s in
    diagnosticsByConfig s' = diagnosticsByConfig s
    /\ arrays s' = arrays s /\ cache s' = cache s.
Proof.
  intros now config msg s; unfold onWatchStatusChange.
  destruct (_ || _); cbn; auto.
Qed.

(** The error is fixed before the second pass: the compiler reports nothing
    for the file and announces zero errors. *)
Definition fixedInSecondPass : list Op :=
  [ OpStart quietHost;
    OpSession app (ReportDiagnostic 100 firstPassError);
    OpSession app (ReportWatchStatus 110 passComplete);
    OpSession app (ReportWatchStatus 210 "Found 0 errors. Watching for file changes.") ].

Definition afterFix : State := run fixedInSecondPass (new [app] 100).

(** C1 (the code departs from the claim): nothing is replaced when a new
    pass begins.  A pass-complete signal leaves Store and Cache as they are,
    and a diagnostic of the next pass is pushed onto the array of the file:
    after two passes that each report one error for the file, the Bucket, the
    cache entry and every query hold both errors, the superseded one first.
    When the second pass reports no error at all, the error of the first pass
    stays in the Store and in the queries, and the event emitted for the
    announcement of zero errors counts one error. *)
Theorem successive_passes_accumulate :
  let stale := convertDiagnostic firstPassError in
  let latest := convertDiagnostic secondPassError in
  let p := "/app/tsconfig.json" in
  let f := "/app/src/a.ts" in
  (forall now config msg s,
      diagnosticsByConfig (onWatchStatusChange now config msg s)
      = diagnosticsByConfig s
      /\ arrays (onWatchStatusChange now config msg s) = arrays s
      /\ cache (onWatchStatusChange now config msg s) = cache s)
  /\ (bucket p f afterTwoPasses = Some [stale; latest]
      /\ cached 220 p f afterTwoPasses = Some [stale; latest]
      /\ r_diagnostics (getAllDiagnostics 220 afterTwoPasses) = [stale; latest]
      /\ r_totalErrors (getAllDiagnostics 220 afterTwoPasses) = 2
      /\ r_diagnostics (fst (getFileDiagnostics 220 f afterTwoPasses))
         = [stale; latest]
      /\ option_map r_diagnostics (getPackageDiagnostics 220 "app" afterTwoPasses)
         = Some [stale; latest])
  /\ (bucket p f afterFix = Some [stale]
      /\ r_diagnostics (getAllDiagnostics 220 afterFix) = [stale]
      /\ fst (hasErrors 220 None afterFix) = true
      /\ last (emitted afterFix) EvStopped
         = EvCompilationComplete (Some "app") 210 1 0).
Proof.
  cbv zeta; split; [apply onWatchStatusChange_keeps_diagnostics|].
  split; repeat split; vm_compute; reflexivity.
Qed.

(** *** Two projects whose cache keys collide *)

Definition outer : TSProjectConfig :=
  {| configPath := "/w/tsconfig.json"; name := Some "outer";
     rootDir := Some "/w" |}.
Definition inner : TSProjectConfig :=
  {| configPath := "/w/tsconfig.json:/v/tsconfig.json"; name := Some "inner";
     rootDir := Some "/w/tsconfig.json:/v" |}.

Definition outerFileName : string := "/v/tsconfig.json:/a.ts".
Definition innerFileName : string := "/a.ts".

Definition outerError : TsDiagnostic :=
  tsDiagnosticAt (mkSourceFile outerFileName [0; 10]) 12 0 2322%Z "outer".
Definition innerError : TsDiagnostic :=
  tsDiagnosticAt (mkSourceFile innerFileName [0; 10]) 13 0 2304%Z "inner".

Lemma colliding_keys :
  outer <> inner
  /\ outerFileName <> innerFileName
  /\ cacheKey (configPath outer) outerFileName
     = cacheKey (configPath inner) innerFileName.
Proof. repeat split; discriminate. Qed.

Definition afterBothProjects : State :=
  run [ OpStart quietHost;
        OpSession outer (ReportDiagnostic 100 outerError);
        OpSession inner (ReportDiagnostic 101 innerError) ]
      (new [outer; inner] 100).

(** C4 (the code departs from the claim): the composite key is the plain
    concatenation of config path, a colon and file name, so two different
    (project, file) pairs can share one cache key.  After one diagnostic for
    each of two such pairs, the first pair is present in the Store and in the
    Cache, the Store holds its own diagnostic and the Cache holds the
    diagnostic of the other pair. *)
Theorem store_and_cache_disagree_on_colliding_keys :
  let p := configPath outer in
  bucket p outerFileName afterBothProjects = Some [convertDiagnostic outerError]
  /\ cached 102 p outerFileName afterBothProjects
     = Some [convertDiagnostic innerError]
  /\ bucket p outerFileName afterBothProjects
     <> cached 102 p outerFileName afterBothProjects.
Proof.
  cbv zeta; split; [vm_compute; reflexivity|].
  split; [vm_compute; reflexivity|].
  vm_compute; discriminate.
Qed.

Definition afterInnerOnly : State :=
  run [ OpStart quietHost;
        OpSession inner (ReportDiagnostic 101 innerError) ]
      (new [outer; inner] 100).

(** C5 (the code departs from the claim): a file for which no diagnostic
    was ever recorded, in a project whose key for it collides with the key of
    a diagnosed file of another project, is answered with that other file's
    diagnostics and the cache-hit flag set. *)
Theorem getFileDiagnostics_never_diagnosed_colliding :
  bucket (configPath outer) outerFileName afterInnerOnly = None
  /\ bucket (configPath inner) outerFileName afterInnerOnly = None
  /\ emitted afterInnerOnly
     = [ EvStarted 2;
         EvDiagnostic (Some "inner") innerFileName (convertDiagnostic innerError) ]
  /\ fst (getFileDiagnostics 102 outerFileName afterInnerOnly)
     = buildDiagnosticResult 102 [convertDiagnostic innerError] outerFileName true.
Proof. repeat split; vm_compute; reflexivity. Qed.

(** *** Package queries *)

Lemma find_hasName_None :
  forall packageName cfgs,
    find (hasName packageName) cfgs = None <->
    (forall c, In c cfgs -> name c <> Some packageName).
Proof.
  intros packageName cfgs; split.
  - intros H c Hin Hname.
    apply (find_none _ _ H) in Hin.
    unfold hasName in Hin; rewrite Hname, String.eqb_refl in Hin; discriminate.
  - intros H; induction cfgs as [|c cfgs IH]; cbn; [reflexivity|].
    destruct (hasName packageName c) eqn:E.
    + exfalso; apply (H c); [now left|].
      unfold hasName in E; destruct (name c) as [n|]; [|discriminate].
      apply String.eqb_eq in E; now subst.
    + apply IH; intros c' Hin; apply H; now right.
Qed.

Lemma find_hasName_Some :
  forall packageName cfgs c,
    find (hasName packageName) cfgs = Some c ->
    In c cfgs /\ name c = Some packageName.
Proof.
  intros packageName cfgs c H; apply find_some in H; destruct H as [Hin Hn].
  split; [assumption|].
  unfold hasName in Hn; destruct (name c) as [n|]; [|discriminate].
  apply String.eqb_eq in Hn; now subst.
Qed.



(** *** What each operation leaves alone *)

(** The fields of the life cycle: session table, flag, configuration and the
    sessions opened and closed outside. *)
Definition sameLifecycle (s s' : State) : Prop :=
  watchers s' = watchers s /\ isActive s' = isActive s
  /\ configs s' = configs s /\ opened s' = opened s /\ closed s' = closed s.

(** Everything but the cache and the emitted events. *)
Definition sameStore (s s' : State) : Prop :=
  diagnosticsByConfig s' = diagnosticsByConfig s /\ arrays s' = arrays s.

Lemma sameLifecycle_refl : forall s, sameLifecycle s s.
Proof. intro s; repeat split. Qed.

Lemma sameLifecycle_trans :
  forall s1 s2 s3, sameLifecycle s1 s2 -> sameLifecycle s2 s3 -> sameLifecycle s1 s3.
Proof.
  unfold sameLifecycle; intros s1 s2 s3 (A1 & A2 & A3 & A4 & A5) (B1 & B2 & B3 & B4 & B5).
  repeat split; congruence.
Qed.

Lemma sameStore_refl : forall s, sameStore s s.
Proof. intro s; split; reflexivity. Qed.

Lemma sameStore_trans :
  forall s1 s2 s3, sameStore s1 s2 -> sameStore s2 s3 -> sameStore s1 s3.
Proof. unfold sameStore; intros s1 s2 s3 [A1 A2] [B1 B2]; split; congruence. Qed.

Lemma onDiagnostic_lifecycle :
  forall now config d s, sameLifecycle s (onDiagnostic now config d s).
Proof.
  intros now config d s; unfold onDiagnostic.
  destruct (JsMap.get _ (diagnosticsByConfig s)) as [m|]; [|apply sameLifecycle_refl].
  destruct (JsMap.get _ m); repeat split.
Qed.

Lemma onWatchStatusChange_lifecycle :
  forall now config msg s, sameLifecycle s (onWatchStatusChange now config msg s).
Proof.
  intros now config msg s; unfold onWatchStatusChange.
  destruct (_ || _); repeat split.
Qed.

Lemma deliver_lifecycle :
  forall config ev s, sameLifecycle s (deliver config ev s).
Proof.
  intros config [now d|now msg] s;
    [apply onDiagnostic_lifecycle|apply onWatchStatusChange_lifecycle].
Qed.

Lemma deliver_all_lifecycle :
  forall config evs s,
    sameLifecycle s (fold_left (fun s ev => deliver config ev s) evs s).
Proof.
  intros config evs; induction evs as [|ev evs IH]; intro s; cbn.
  - apply sameLifecycle_refl.
  - eapply sameLifecycle_trans; [apply deliver_lifecycle|apply IH].
Qed.

Lemma collectCached_frame :
  forall now filePath cfgs s,
    let s' := snd (collectCached now filePath cfgs s) in
    sameLifecycle s s' /\ sameStore s s'.
Proof.
  intros now filePath cfgs; induction cfgs as [|c cfgs IH]; intro s; cbn.
  - split; [apply sameLifecycle_refl|apply sameStore_refl].
  - destruct (Cache.get now _ (cache s)) as [cached0 c0].
    specialize (IH (with_cache c0 s)).
    destruct (collectCached now filePath cfgs (with_cache c0 s)) as [more s1].
    cbn in *; exact IH.
Qed.

Lemma getFileDiagnostics_frame :
  forall now filePath s,
    let s' := snd (getFileDiagnostics now filePath s) in
    sameLifecycle s s' /\ sameStore s s'.
Proof.
  intros now filePath s; unfold getFileDiagnostics.
  pose proof (collectCached_frame now filePath (configs s) s) as H.
  destruct (collectCached now filePath (configs s) s) as [ds s1]; exact H.
Qed.

Lemma hasErrors_frame :
  forall now filePath s,
    let s' := snd (hasErrors now filePath s) in
    sameLifecycle s s' /\ sameStore s s'.
Proof.
  intros now [[|c p]|] s; cbn;
    try (split; [apply sameLifecycle_refl|apply sameStore_refl]).
  pose proof (getFileDiagnostics_frame now (String c p) s) as H.
  destruct (getFileDiagnostics now (String c p) s) as [r s1]; exact H.
Qed.

Lemma cache_deletes_frame :
  forall filePath (l : list (string * JsMap.t loc)) s,
    let s' := fold_left
                (fun s '(cfgPath, _) =>
                   with_cache (Cache.delete (cacheKey cfgPath filePath) (cache s)) s)
                l s in
    sameLifecycle s s' /\ sameStore s s' /\ emitted s' = emitted s.
Proof.
  intros filePath l; induction l as [|[cp m] l IH]; intro s; cbn.
  - repeat split.
  - specialize (IH (with_cache (Cache.delete (cacheKey cp filePath) (cache s)) s)).
    cbn in IH; exact IH.
Qed.

Lemma clearFileDiagnostics_lifecycle :
  forall filePath s, sameLifecycle s (clearFileDiagnostics filePath s).
Proof.
  intros filePath s; unfold clearFileDiagnostics.
  match goal with
  | |- sameLifecycle _ (emit _ (fold_left _ ?l ?s0)) =>
      destruct (cache_deletes_frame filePath l s0)
        as [(A1 & A2 & A3 & A4 & A5) _]
  end.
  repeat split; cbn; assumption.
Qed.

Lemma clearFileDiagnostics_index :
  forall filePath s,
    diagnosticsByConfig (clearFileDiagnostics filePath s)
    = map (fun '(cfgPath, diagnosticMap) =>
             (cfgPath, JsMap.delete filePath diagnosticMap))
          (diagnosticsByConfig s)
    /\ arrays (clearFileDiagnostics filePath s) = arrays s.
Proof.
  intros filePath s; unfold clearFileDiagnostics.
  match goal with
  | |- diagnosticsByConfig (emit _ (fold_left _ ?l ?s0)) = _ /\ _ =>
      destruct (cache_deletes_frame filePath l s0) as (_ & [B1 B2] & _)
  end.
  split; cbn; assumption.
Qed.

Lemma clearAllDiagnostics_lifecycle :
  forall s, sameLifecycle s (clearAllDiagnostics s).
Proof. intro s; repeat split. Qed.

Lemma exec_lifecycle :
  forall op s,
    match op with
    | OpStart _ | OpStop => True
    | _ => sameLifecycle s (exec s op)
    end.
Proof.
  intros [h| |config ev|now filePath|now filePath|filePath| |] s; cbn; auto.
  - apply deliver_lifecycle.
  - apply getFileDiagnostics_frame.
  - apply hasErrors_frame.
  - apply clearFileDiagnostics_lifecycle.
  - apply clearAllDiagnostics_lifecycle.
  - repeat split.
Qed.

(** *** Sessions *)

(** Every compiler session opened so far is closed or still in the session
    table. *)
Definition sessionsAccounted (s : State) : Prop :=
  forall id, id < opened s -> In id (closed s) \/ In id (JsMap.values (watchers s)).

(** An inactive manager has an empty session table. *)
Definition idleHasNoSessions (s : State) : Prop :=
  isActive s = false -> watchers s = JsMap.empty.

Lemma startWatchingConfig_lifecycle :
  forall h c s,
    let s' := startWatchingConfig h c s in
    isActive s' = isActive s /\ configs s' = configs s /\ closed s' = closed s
    /\ (existsSync h (configPath c) = false ->
        watchers s' = watchers s /\ opened s' = opened s)
    /\ (existsSync h (configPath c) = true ->
        watchers s' = JsMap.set (configPath c) (opened s) (watchers s)
        /\ opened s' = S (opened s)).
Proof.
  intros h c s; unfold startWatchingConfig.
  destruct (existsSync h (configPath c)); cbn [negb].
  - destruct (deliver_all_lifecycle c (firstBuild h c) (with_opened (S (opened s)) s))
      as (A1 & A2 & A3 & A4 & A5).
    cbn in *; repeat split; try congruence; try discriminate.
  - repeat split; try discriminate.
Qed.

Lemma start_loop_sessions :
  forall h rest pre s,
    NoDup (map configPath (pre ++ rest)) ->
    incl (JsMap.keys (watchers s)) (map configPath pre) ->
    sessionsAccounted s ->
    let s' := fold_left (fun s c => startWatchingConfig h c s) rest s in
    sessionsAccounted s' /\ isActive s' = isActive s
    /\ configs s' = configs s /\ closed s' = closed s.
Proof.
  intros h rest; induction rest as [|c rest IH]; intros pre s Hnd Hkeys Hacc; cbn.
  - repeat split; assumption.
  - destruct (startWatchingConfig_lifecycle h c s) as (A1 & A2 & A3 & A4 & A5).
    cbn zeta in *.
    assert (Hfresh : ~ In (configPath c) (JsMap.keys (watchers s))).
    { intro Hin; apply Hkeys in Hin.
      rewrite map_app in Hnd; cbn in Hnd.
      apply NoDup_remove_2 in Hnd; apply Hnd, in_or_app; now left. }
    replace (pre ++ c :: rest) with ((pre ++ [c]) ++ rest) in Hnd
      by (rewrite <- app_assoc; reflexivity).
    destruct (IH (pre ++ [c]) (startWatchingConfig h c s) Hnd) as (B1 & B2 & B3 & B4).
    + destruct (existsSync h (configPath c)).
      * destruct (A5 eq_refl) as [Hw _]; rewrite Hw.
        rewrite JsMap.keys_set_absent by assumption.
        rewrite map_app; cbn.
        apply incl_app; [apply incl_appl; assumption|apply incl_appr, incl_refl].
      * destruct (A4 eq_refl) as [Hw _]; rewrite Hw.
        rewrite map_app; apply incl_appl; assumption.
    + intros id Hid.
      destruct (existsSync h (configPath c)).
      * destruct (A5 eq_refl) as [Hw Ho]; rewrite Hw, A3.
        rewrite JsMap.values_set_absent by assumption.
        rewrite Ho in Hid.
        destruct (Nat.eq_dec id (opened s)) as [->|Hne].
        -- right; apply in_or_app; right; now left.
        -- destruct (Hacc id) as [H|H]; [lia|now left|].
           right; apply in_or_app; now left.
      * destruct (A4 eq_refl) as [Hw Ho]; rewrite Hw, A3.
        rewrite Ho in Hid; now apply Hacc.
    + repeat split; try assumption; congruence.
Qed.

Lemma start_sessions :
  forall h s,
    NoDup (map configPath (configs s)) ->
    idleHasNoSessions s -> sessionsAccounted s ->
    idleHasNoSessions (start h s) /\ sessionsAccounted (start h s)
    /\ configs (start h s) = configs s.
Proof.
  intros h s Hnd Hidle Hacc; unfold start.
  destruct (isActive s) eqn:Ha; [repeat split; assumption|].
  destruct (start_loop_sessions h (configs s) [] (with_isActive true s))
    as (B1 & B2 & B3 & B4).
  - exact Hnd.
  - cbn; rewrite (Hidle Ha); intros x [].
  - exact Hacc.
  - cbn zeta in *; cbn [configs with_isActive] in *.
    repeat split.
    + intro H; cbn in H; rewrite B2 in H; discriminate.
    + exact B1.
    + exact B3.
Qed.

Lemma stop_sessions :
  forall s,
    idleHasNoSessions s -> sessionsAccounted s ->
    let s' := stop s in
    watchers s' = JsMap.empty /\ isActive s' = false
    /\ (forall id, id < opened s' -> In id (closed s'))
    /\ configs s' = configs s /\ opened s' = opened s.
Proof.
  intros s Hidle Hacc; unfold stop.
  destruct (isActive s) eqn:Ha; cbn.
  - repeat split; intros id Hid.
    apply in_or_app; destruct (Hacc id Hid); [now left|now right].
  - repeat split; [now apply Hidle|assumption|].
    intros id Hid; destruct (Hacc id Hid) as [H|H]; [assumption|].
    rewrite (Hidle Ha) in H; destruct H.
Qed.

Lemma sameLifecycle_sessions :
  forall s s',
    sameLifecycle s s' ->
    idleHasNoSessions s -> sessionsAccounted s ->
    idleHasNoSessions s' /\ sessionsAccounted s' /\ configs s' = configs s.
Proof.
  intros s s' (A1 & A2 & A3 & A4 & A5) Hidle Hacc; repeat split.
  - intro H; rewrite A1; apply Hidle; congruence.
  - intros id Hid; rewrite A1, A5; apply Hacc; congruence.
  - assumption.
Qed.

Lemma run_snoc : forall ops op s, run (ops ++ [op]) s = exec (run ops s) op.
Proof. intros ops op s; unfold run; now rewrite fold_left_app. Qed.

Lemma run_sessions :
  forall cfgs cacheSizeMB ops,
    NoDup (map configPath cfgs) ->
    let s := run ops (new cfgs cacheSizeMB) in
    idleHasNoSessions s /\ sessionsAccounted s /\ configs s = cfgs.
Proof.
  intros cfgs mb ops Hnd; induction ops as [|op ops IH] using rev_ind; cbn zeta.
  - cbn; repeat split; intros id Hid; cbn in Hid; lia.
  - rewrite run_snoc.
    destruct IH as (I1 & I2 & I3).
    set (s := run ops (new cfgs mb)) in *.
    destruct op as [h| |config ev|now filePath|now filePath|filePath| |].
    + cbn [exec]; rewrite <- I3 in Hnd.
      destruct (start_sessions h s Hnd I1 I2) as (B1 & B2 & B3).
      repeat split; try assumption; congruence.
    + cbn [exec]; destruct (stop_sessions s I1 I2) as (B1 & B2 & B3 & B4 & B5).
      cbn zeta in *; repeat split.
      * intros _; assumption.
      * intros id Hid; left; now apply B3.
      * congruence.
    + destruct (sameLifecycle_sessions s _ (exec_lifecycle (OpSession config ev) s) I1 I2)
        as (B1 & B2 & B3); repeat split; try assumption; congruence.
    + destruct (sameLifecycle_sessions s _
                  (exec_lifecycle (OpGetFileDiagnostics now filePath) s) I1 I2)
        as (B1 & B2 & B3); repeat split; try assumption; congruence.
    + destruct (sameLifecycle_sessions s _
                  (exec_lifecycle (OpHasErrors now filePath) s) I1 I2)
        as (B1 & B2 & B3); repeat split; try assumption; congruence.
    + destruct (sameLifecycle_sessions s _
                  (exec_lifecycle (OpClearFile filePath) s) I1 I2)
        as (B1 & B2 & B3); repeat split; try assumption; congruence.
    + destruct (sameLifecycle_sessions s _ (exec_lifecycle OpClearAll s) I1 I2)
        as (B1 & B2 & B3); repeat split; try assumption; congruence.
    + destruct (sameLifecycle_sessions s _ (exec_lifecycle OpTriggerRecompile s) I1 I2)
        as (B1 & B2 & B3); repeat split; try assumption; congruence.
Qed.

(** A second [stop] changes nothing at all, in any state. *)
Lemma stop_stop : forall s, stop (stop s) = stop s.
Proof.
  intro s; unfold stop at 1.
  assert (H : isActive (stop s) = false).
  { unfold stop; destruct (isActive s) eqn:E; cbn; [reflexivity|assumption]. }
  now rewrite H.
Qed.

Lemma start_isActive : forall h s, isActive (start h s) = true.
Proof.
  intros h s; unfold start; destruct (isActive s) eqn:Ha; [assumption|]; cbn.
  assert (H : isActive (with_isActive true s) = true) by reflexivity.
  generalize dependent (with_isActive true s).
  generalize (configs s) as cfgs.
  induction cfgs as [|c cfgs IH]; intros s0 H0; cbn; [assumption|].
  apply IH.
  now rewrite (proj1 (startWatchingConfig_lifecycle h c s0)).
Qed.

Lemma run_idle :
  forall cfgs cacheSizeMB ops, idleHasNoSessions (run ops (new cfgs cacheSizeMB)).
Proof.
  intros cfgs mb ops; induction ops as [|op ops IH] using rev_ind.
  - intros _; reflexivity.
  - rewrite run_snoc; set (s := run ops (new cfgs mb)) in *.
    pose proof (exec_lifecycle op s) as L.
    destruct op as [h| |config ev|now filePath|now filePath|filePath| |];
      try (destruct L as (L1 & L2 & _); intro H; rewrite L1; apply IH; congruence).
    + intro H; cbn in H; rewrite start_isActive in H; discriminate.
    + intros _; cbn; unfold stop; destruct (isActive s) eqn:Ha; cbn;
        [reflexivity|now apply IH].
Qed.

(** [stop] closes the sessions of the table and opens none. *)
Lemma stop_closes_table :
  forall s,
    idleHasNoSessions s ->
    let s' := stop s in
    (forall id, In id (JsMap.values (watchers s)) -> In id (closed s'))
    /\ watchers s' = JsMap.empty /\ isActive s' = false /\ opened s' = opened s.
Proof.
  intros s Hidle; unfold stop; destruct (isActive s) eqn:Ha; cbn.
  - repeat split; intros id Hid; apply in_or_app; now right.
  - rewrite (Hidle Ha); repeat split; [intros id []|assumption].
Qed.

(** In every state the manager reaches, whatever the hosts of its [start]
    calls let start, one [stop] leaves every session of the session table
    closed, the table empty and the status inactive, and a second [stop]
    returns the very same state: sessions, Store, Cache, statistics and
    emitted events.  When the configured projects differ in their config
    path, the table holds every open session, so every compiler session
    opened so far is closed. *)
Theorem stop_idempotent :
  forall cfgs cacheSizeMB ops,
    let before := run ops (new cfgs cacheSizeMB) in
    let s := stop before in
    (forall id, In id (JsMap.values (watchers before)) -> In id (closed s))
    /\ watchers s = JsMap.empty
    /\ active (getStatus s) = false
    /\ stop s = s
    /\ (NoDup (map configPath cfgs) ->
        forall id, id < opened s -> In id (closed s)).
Proof.
  intros cfgs mb ops; cbn zeta.
  destruct (stop_closes_table _ (run_idle cfgs mb ops)) as (B1 & B2 & B3 & B4).
  cbn zeta in *; repeat split; try assumption; [apply stop_stop|].
  intros Hnd.
  destruct (run_sessions cfgs mb ops Hnd) as (I1 & I2 & I3).
  exact (proj1 (proj2 (proj2 (stop_sessions _ I1 I2)))).
Qed.

(** A start on which only one of two projects has its config file. *)
Definition lib : TSProjectConfig :=
  {| configPath := "/lib/tsconfig.json"; name := Some "lib";
     rootDir := Some "/lib" |}.

Definition partialHost : Host :=
  {| existsSync := fun p => String.eqb p "/app/tsconfig.json";
     firstBuild := fun _ => [] |}.

Definition partialStart : State :=
  run [ OpStart partialHost;
        OpSession app (ReportDiagnostic 100 firstPassError) ]
      (new [app; lib] 100).

Lemma stop_idempotent_witness :
  watchers partialStart = [("/app/tsconfig.json", 0)]
  /\ (forall id, id < opened (stop partialStart) ->
                 In id (closed (stop partialStart)))
  /\ stop (stop partialStart) = stop partialStart.
Proof.
  split; [reflexivity|split].
  - apply (proj2 (proj2 (proj2 (proj2 (stop_idempotent [app; lib] 100 _))))).
    cbn; constructor; [intros [H|[]]; discriminate|].
    constructor; [intros []|constructor].
  - apply (proj1 (proj2 (proj2 (proj2 (stop_idempotent [app; lib] 100 _))))).
Defined.

(** Two entries with one config path share one slot of the session table:
    the session opened for the first entry is overwritten there and [stop]
    does not close it, although it closes the session that is in the
    table. *)
Example one_config_path_twice :
  let s := stop (start quietHost (new [app; app] 100)) in
  opened s = 2 /\ closed s = [1].
Proof. split; reflexivity. Qed.

(** The sessions of the table are numbered below [opened], under distinct
    keys, and none is closed while the projects are being started. *)
Definition tableBounded (s : State) : Prop :=
  NoDup (JsMap.keys (watchers s)) /\ closed s = []
  /\ forall key id, In (key, id) (watchers s) -> id < opened s.

(** Session [k] is in the table under the key [path] at most. *)
Definition onlyUnder (path : string) (k : nat) (s : State) : Prop :=
  NoDup (JsMap.keys (watchers s)) /\ closed s = [] /\ k < opened s
  /\ forall key, In (key, k) (watchers s) -> key = path.

(** Session [k] was opened and the table does not hold it any more. *)
Definition lostSession (k : nat) (s : State) : Prop :=
  NoDup (JsMap.keys (watchers s)) /\ closed s = [] /\ k < opened s
  /\ forall key, ~ In (key, k) (watchers s).

Definition existing (h : Host) (cfgs : list TSProjectConfig) : list TSProjectConfig :=
  filter (fun config => existsSync h (configPath config)) cfgs.

Lemma startWatchingConfig_tableBounded :
  forall h c s,
    tableBounded s ->
    tableBounded (startWatchingConfig h c s)
    /\ opened (startWatchingConfig h c s) = opened s + List.length (existing h [c]).
Proof.
  intros h c s (B1 & B2 & B3).
  destruct (startWatchingConfig_lifecycle h c s) as (_ & _ & A3 & A4 & A5).
  cbn zeta in *; unfold tableBounded, existing; cbn [filter].
  destruct (existsSync h (configPath c)).
  - destruct (A5 eq_refl) as [Hw Ho]; rewrite Hw, Ho, A3; cbn [List.length].
    repeat split; [now apply JsMap.NoDup_keys_set|assumption| |lia].
    intros key id Hin.
    destruct (JsMap.In_set_inv _ _ _ _ _ B1 Hin) as [[= -> ->]|[_ H]]; [lia|].
    specialize (B3 _ _ H); lia.
  - destruct (A4 eq_refl) as [Hw Ho]; rewrite Hw, Ho, A3; cbn [List.length].
    repeat split; [assumption|assumption| |lia].
    intros key id Hin; exact (B3 _ _ Hin).
Qed.

Lemma start_loop_tableBounded :
  forall h cfgs s,
    tableBounded s ->
    let s' := fold_left (fun s config => startWatchingConfig h config s) cfgs s in
    tableBounded s' /\ opened s' = opened s + List.length (existing h cfgs).
Proof.
  intros h cfgs; induction cfgs as [|c cfgs IH]; intros s B; cbn zeta.
  - cbn; split; [assumption|lia].
  - destruct (startWatchingConfig_tableBounded h c s B) as [B' Ho].
    destruct (IH _ B') as [B'' Ho'']; cbn zeta in *.
    cbn [fold_left]; split; [assumption|].
    rewrite Ho'', Ho; unfold existing; cbn [filter].
    destruct (existsSync h (configPath c)); cbn [List.length]; lia.
Qed.

Lemma startWatchingConfig_first :
  forall h c s,
    existsSync h (configPath c) = true ->
    tableBounded s ->
    onlyUnder (configPath c) (opened s) (startWatchingConfig h c s).
Proof.
  intros h c s He (B1 & B2 & B3).
  destruct (startWatchingConfig_lifecycle h c s) as (_ & _ & A3 & _ & A5).
  cbn zeta in *; destruct (A5 He) as [Hw Ho]; unfold onlyUnder.
  rewrite Hw, Ho, A3.
  repeat split; [now apply JsMap.NoDup_keys_set|assumption|lia|].
  intros key Hin.
  destruct (JsMap.In_set_inv _ _ _ _ _ B1 Hin) as [[= ->]|[_ H]]; [reflexivity|].
  specialize (B3 _ _ H); lia.
Qed.

Lemma startWatchingConfig_onlyUnder :
  forall h path k c s,
    onlyUnder path k s -> onlyUnder path k (startWatchingConfig h c s).
Proof.
  intros h path k c s (B1 & B2 & B3 & B4).
  destruct (startWatchingConfig_lifecycle h c s) as (_ & _ & A3 & A4 & A5).
  cbn zeta in *; unfold onlyUnder.
  destruct (existsSync h (configPath c)).
  - destruct (A5 eq_refl) as [Hw Ho]; rewrite Hw, Ho, A3.
    repeat split; [now apply JsMap.NoDup_keys_set|assumption|lia|].
    intros key Hin.
    destruct (JsMap.In_set_inv _ _ _ _ _ B1 Hin) as [[= _ E]|[_ H]]; [lia|].
    exact (B4 _ H).
  - destruct (A4 eq_refl) as [Hw Ho]; rewrite Hw, Ho, A3.
    repeat split; assumption.
Qed.

Lemma start_loop_onlyUnder :
  forall h path k cfgs s,
    onlyUnder path k s ->
    onlyUnder path k (fold_left (fun s config => startWatchingConfig h config s) cfgs s).
Proof.
  intros h path k cfgs; induction cfgs as [|c cfgs IH]; intros s B; cbn [fold_left].
  - assumption.
  - apply IH, startWatchingConfig_onlyUnder, B.
Qed.

Lemma startWatchingConfig_overwrites :
  forall h k c s,
    existsSync h (configPath c) = true ->
    onlyUnder (configPath c) k s ->
    lostSession k (startWatchingConfig h c s).
Proof.
  intros h k c s He (B1 & B2 & B3 & B4).
  destruct (startWatchingConfig_lifecycle h c s) as (_ & _ & A3 & _ & A5).
  cbn zeta in *; destruct (A5 He) as [Hw Ho]; unfold lostSession.
  rewrite Hw, Ho, A3.
  repeat split; [now apply JsMap.NoDup_keys_set|assumption|lia|].
  intros key Hin.
  destruct (JsMap.In_set_inv _ _ _ _ _ B1 Hin) as [[= _ E]|[Hne H]]; [lia|].
  exact (Hne (B4 _ H)).
Qed.

Lemma startWatchingConfig_lostSession :
  forall h k c s,
    lostSession k s -> lostSession k (startWatchingConfig h c s).
Proof.
  intros h k c s (B1 & B2 & B3 & B4).
  destruct (startWatchingConfig_lifecycle h c s) as (_ & _ & A3 & A4 & A5).
  cbn zeta in *; unfold lostSession.
  destruct (existsSync h (configPath c)).
  - destruct (A5 eq_refl) as [Hw Ho]; rewrite Hw, Ho, A3.
    repeat split; [now apply JsMap.NoDup_keys_set|assumption|lia|].
    intros key Hin.
    destruct (JsMap.In_set_inv _ _ _ _ _ B1 Hin) as [[= _ E]|[_ H]]; [lia|].
    exact (B4 _ H).
  - destruct (A4 eq_refl) as [Hw Ho]; rewrite Hw, Ho, A3.
    repeat split; assumption.
Qed.

Lemma start_loop_lostSession :
  forall h k cfgs s,
    lostSession k s ->
    lostSession k (fold_left (fun s config => startWatchingConfig h config s) cfgs s).
Proof.
  intros h k cfgs; induction cfgs as [|c cfgs IH]; intros s B; cbn [fold_left].
  - assumption.
  - apply IH, startWatchingConfig_lostSession, B.
Qed.

Lemma values_In :
  forall (m : JsMap.t nat) id, In id (JsMap.values m) -> exists key, In (key, id) m.
Proof.
  intros m id H; apply in_map_iff in H; destruct H as ([key v] & E & H).
  cbn in E; subst v; now exists key.
Qed.

(** C8 (the code departs from the claim): [stop] does not close every
    session that was opened.  When two entries of the configured projects
    have the same config path and that file exists, [start] opens a session
    for each of them and files both under the one key, so the second
    overwrites the first in the session table.  The session of the first
    entry (numbered by the projects before it whose config file exists) is
    then opened, absent from the table, and not closed by [stop], which all
    the same empties the table, reports inactive, and changes nothing when
    called again. *)
Theorem stop_leaves_overwritten_session_open :
  forall h pre c mid c' post cacheSizeMB,
    configPath c' = configPath c ->
    existsSync h (configPath c) = true ->
    let started := start h (new (pre ++ c :: mid ++ c' :: post) cacheSizeMB) in
    let s := stop started in
    let id := List.length (existing h pre) in
    id < opened started
    /\ ~ In id (JsMap.values (watchers started))
    /\ opened s = opened started
    /\ ~ In id (closed s)
    /\ watchers s = JsMap.empty
    /\ active (getStatus s) = false
    /\ stop s = s.
Proof.
  intros h pre c mid c' post mb Hpath He started s id.
  assert (L : lostSession id started
              /\ isActive started = true).
  { split; [|apply start_isActive].
    subst started; unfold start; cbn [isActive new configs with_isActive].
    rewrite !fold_left_app; cbn [fold_left]; rewrite fold_left_app; cbn [fold_left].
    set (s0 := with_isActive true (new (pre ++ c :: mid ++ c' :: post) mb)).
    assert (B0 : tableBounded s0).
    { repeat split; [constructor|intros key k []]. }
    destruct (start_loop_tableBounded h pre s0 B0) as [B1 Ho]; cbn zeta in *.
    set (s1 := fold_left (fun s config => startWatchingConfig h config s) pre s0) in *.
    assert (Eid : id = opened s1) by (rewrite Ho; subst id; reflexivity).
    rewrite Eid.
    pose proof (startWatchingConfig_first h c s1 He B1) as B2.
    pose proof (start_loop_onlyUnder h _ _ mid _ B2) as B3.
    rewrite <- Hpath in B3, He.
    pose proof (startWatchingConfig_overwrites h _ c' _ He B3) as B4.
    pose proof (start_loop_lostSession h _ post _ B4) as (C1 & C2 & C3 & C4).
    unfold lostSession, emit; cbn [watchers closed opened].
    repeat split; assumption. }
  destruct L as [(L1 & L2 & L3 & L4) La].
  assert (Hout : ~ In id (JsMap.values (watchers started))).
  { intro Hin; destruct (values_In _ _ Hin) as [key Hk]; exact (L4 _ Hk). }
  subst s; unfold stop at 1 2 3 4 5; rewrite La; cbn [negb].
  cbn [opened closed watchers getStatus active isActive emit
         with_isActive with_watchers with_closed].
  rewrite L2; cbn [app].
  repeat split; try assumption.
  apply stop_stop.
Qed.

Lemma stop_leaves_overwritten_session_open_witness :
  let started := start quietHost (new [app; app] 100) in
  opened started = 2
  /\ closed (stop started) = [1]
  /\ ~ In 0 (closed (stop started))
  /\ watchers (stop started) = JsMap.empty.
Proof.
  pose proof (stop_leaves_overwritten_session_open
                quietHost [] app [] app [] 100 eq_refl eq_refl)
    as (_ & _ & _ & H & Hw & _).
  split; [reflexivity|split; [reflexivity|split; [exact H|exact Hw]]].
Defined.

(** *** The per-project index *)

(** No project and, within a project, no file is listed twice. *)
Definition wfIndex (index : JsMap.t (JsMap.t loc)) : Prop :=
  NoDup (JsMap.keys index)
  /\ (forall cfgPath m, In (cfgPath, m) index -> NoDup (JsMap.keys m)).

Lemma wfIndex_set :
  forall cfgPath m index,
    wfIndex index -> NoDup (JsMap.keys m) -> wfIndex (JsMap.set cfgPath m index).
Proof.
  intros cfgPath m index [H1 H2] Hm; split.
  - now apply JsMap.NoDup_keys_set.
  - intros cp' m' Hin.
    destruct (JsMap.In_set_inv _ _ _ _ _ H1 Hin) as [E|[_ E]].
    + injection E as -> ->; assumption.
    + eapply H2; eassumption.
Qed.

Lemma onDiagnostic_wfIndex :
  forall now config d s,
    wfIndex (diagnosticsByConfig s) ->
    wfIndex (diagnosticsByConfig (onDiagnostic now config d s)).
Proof.
  intros now config d s Hwf; unfold onDiagnostic.
  destruct (JsMap.get _ (diagnosticsByConfig s)) as [m|] eqn:Em; [|assumption].
  assert (Hm : NoDup (JsMap.keys m))
    by (eapply (proj2 Hwf), JsMap.get_In; eassumption).
  destruct (JsMap.get _ m); cbn; apply wfIndex_set; try assumption.
  now apply JsMap.NoDup_keys_set.
Qed.

Lemma deliver_wfIndex :
  forall config ev s,
    wfIndex (diagnosticsByConfig s) ->
    wfIndex (diagnosticsByConfig (deliver config ev s)).
Proof.
  intros config [now d|now msg] s H; cbn.
  - now apply onDiagnostic_wfIndex.
  - now rewrite (proj1 (onWatchStatusChange_keeps_diagnostics now config msg s)).
Qed.

Lemma deliver_all_wfIndex :
  forall config evs s,
    wfIndex (diagnosticsByConfig s) ->
    wfIndex (diagnosticsByConfig
               (fold_left (fun s ev => deliver config ev s) evs s)).
Proof.
  intros config evs; induction evs as [|ev evs IH]; intros s H; cbn; [assumption|].
  apply IH, deliver_wfIndex, H.
Qed.

Lemma startWatchingConfig_wfIndex :
  forall h c s,
    wfIndex (diagnosticsByConfig s) ->
    wfIndex (diagnosticsByConfig (startWatchingConfig h c s)).
Proof.
  intros h c s H; unfold startWatchingConfig.
  destruct (existsSync h (configPath c)); cbn [negb]; [|assumption].
  cbn; apply wfIndex_set; [|constructor].
  apply (deliver_all_wfIndex c (firstBuild h c) (with_opened (S (opened s)) s)), H.
Qed.

Lemma start_wfIndex :
  forall h s,
    wfIndex (diagnosticsByConfig s) -> wfIndex (diagnosticsByConfig (start h s)).
Proof.
  intros h s H; unfold start; destruct (isActive s); [assumption|]; cbn.
  change (diagnosticsByConfig s)
    with (diagnosticsByConfig (with_isActive true s)) in H.
  generalize dependent (with_isActive true s).
  generalize (configs s) as cfgs.
  induction cfgs as [|c cfgs IH]; intros s0 H0; cbn; [assumption|].
  apply IH, startWatchingConfig_wfIndex, H0.
Qed.

Lemma wfIndex_map :
  forall (g : JsMap.t loc -> JsMap.t loc) index,
    (forall m, NoDup (JsMap.keys m) -> NoDup (JsMap.keys (g m))) ->
    wfIndex index ->
    wfIndex (map (fun '(cfgPath, m) => (cfgPath, g m)) index).
Proof.
  intros g index Hg [H1 H2]; split.
  - now rewrite JsMap.keys_map_values.
  - intros cp m Hin; apply in_map_iff in Hin.
    destruct Hin as [[cp' m'] [E Hin]]; injection E as <- <-.
    eapply Hg, H2; eassumption.
Qed.

Lemma exec_wfIndex :
  forall op s,
    wfIndex (diagnosticsByConfig s) -> wfIndex (diagnosticsByConfig (exec s op)).
Proof.
  intros [h| |config ev|now filePath|now filePath|filePath| |] s H; cbn [exec].
  - now apply start_wfIndex.
  - unfold stop; destruct (isActive s); cbn; assumption.
  - now apply deliver_wfIndex.
  - now rewrite (proj1 (proj2 (getFileDiagnostics_frame now filePath s))).
  - now rewrite (proj1 (proj2 (hasErrors_frame now filePath s))).
  - rewrite (proj1 (clearFileDiagnostics_index filePath s)).
    apply (wfIndex_map (JsMap.delete filePath)); [|assumption].
    intros m; apply JsMap.NoDup_keys_delete.
  - cbn. apply (wfIndex_map (fun _ => JsMap.empty)); [|assumption].
    intros; constructor.
  - assumption.
Qed.

Lemma run_wfIndex :
  forall cfgs cacheSizeMB ops,
    wfIndex (diagnosticsByConfig (run ops (new cfgs cacheSizeMB))).
Proof.
  intros cfgs mb ops; induction ops as [|op ops IH] using rev_ind.
  - split; [constructor|intros ? ? []].
  - rewrite run_snoc; now apply exec_wfIndex.
Qed.

(** The (project, file) pairs that have a Bucket, in iteration order. *)
Definition storedFilesOf (index : JsMap.t (JsMap.t loc)) : list (string * string) :=
  flat_map (fun '(cfgPath, m) => map (pair cfgPath) (JsMap.keys m)) index.

Definition storedFiles (s : State) : list (string * string) :=
  storedFilesOf (diagnosticsByConfig s).

Lemma NoDup_map_pair :
  forall (a : string) (l : list string), NoDup l -> NoDup (map (pair a) l).
Proof.
  intros a l H; induction H as [|x l Hx Hl IH]; cbn; constructor; [|assumption].
  intro Hin; apply in_map_iff in Hin; destruct Hin as [y [[= ->] Hy]]; contradiction.
Qed.

Lemma storedFilesOf_NoDup :
  forall index, wfIndex index -> NoDup (storedFilesOf index).
Proof.
  induction index as [|[cp m] index IH]; intros [H1 H2]; cbn; [constructor|].
  inversion H1 as [|? ? Hn Hnd]; subst.
  apply NoDup_app.
  - apply NoDup_map_pair, (H2 cp m); now left.
  - apply IH; split; [assumption|].
    intros cp' m' Hin; apply (H2 cp' m'); now right.
  - intros [cp' f] Hin Hin'.
    apply in_map_iff in Hin; destruct Hin as [f' [[= <- <-] _]].
    apply in_flat_map in Hin'; destruct Hin' as [[cp'' m''] [Hin1 Hin2]].
    apply in_map_iff in Hin2; destruct Hin2 as [f'' [[= <- <-] _]].
    apply Hn; apply (in_map fst) in Hin1; exact Hin1.
Qed.

Lemma storedFiles_bucket :
  forall s cfgPath fileName,
    wfIndex (diagnosticsByConfig s) ->
    (In (cfgPath, fileName) (storedFiles s) <-> bucket cfgPath fileName s <> None).
Proof.
  intros s cp f [H1 H2]; unfold storedFiles, storedFilesOf, bucket; split.
  - intro Hin; apply in_flat_map in Hin; destruct Hin as [[cp' m] [Hin1 Hin2]].
    apply in_map_iff in Hin2; destruct Hin2 as [f' [E Hf]].
    injection E as E1 E2; subst cp' f'.
    rewrite (JsMap.In_get _ _ _ H1 Hin1).
    destruct (JsMap.get f m) eqn:E; [discriminate|].
    apply JsMap.get_None_keys in E; contradiction.
  - destruct (JsMap.get cp (diagnosticsByConfig s)) as [m|] eqn:Em; [|congruence].
    destruct (JsMap.get f m) as [l|] eqn:Ef; [|congruence].
    intros _; apply in_flat_map; exists (cp, m); split.
    + now apply JsMap.get_In.
    + apply in_map.
      destruct (in_dec string_dec f (JsMap.keys m)) as [H|H]; [assumption|].
      apply JsMap.get_None_keys in H; congruence.
Qed.

Lemma fold_sizes :
  forall (maps : list (JsMap.t loc)) (acc : nat),
    fold_left (fun total m => total + JsMap.size m) maps acc
    = acc + List.length (flat_map (@JsMap.keys loc) maps).
Proof.
  induction maps as [|m maps IH]; intro acc; cbn; [lia|].
  rewrite IH, length_app; unfold JsMap.size, JsMap.keys.
  rewrite length_map; lia.
Qed.

Lemma getTotalFilesWatched_storedFiles :
  forall s, getTotalFilesWatched s = List.length (storedFiles s).
Proof.
  intro s; unfold getTotalFilesWatched, storedFiles, storedFilesOf.
  rewrite fold_sizes; cbn.
  induction (diagnosticsByConfig s) as [|[cp m] index IH]; cbn; [reflexivity|].
  rewrite !length_app; f_equal; [|exact IH].
  unfold JsMap.keys; now rewrite !length_map.
Qed.

(** *** The count of watched files *)

Definition allEmpty (index : JsMap.t (JsMap.t loc)) : Prop :=
  forall cfgPath m, In (cfgPath, m) index -> m = JsMap.empty.

Lemma allEmpty_storedFilesOf :
  forall index, allEmpty index -> storedFilesOf index = [].
Proof.
  induction index as [|[cp m] index IH]; intro H; cbn; [reflexivity|].
  rewrite (H cp m) by now left.
  apply IH; intros cp' m' Hin; apply (H cp' m'); now right.
Qed.

(** A diagnostic of a project touches the index of that project only. *)
Lemma onDiagnostic_other_projects :
  forall now config d s cfgPath m,
    wfIndex (diagnosticsByConfig s) ->
    cfgPath <> configPath config ->
    In (cfgPath, m) (diagnosticsByConfig (onDiagnostic now config d s)) ->
    In (cfgPath, m) (diagnosticsByConfig s).
Proof.
  intros now config d s cp m [H1 _] Hne; unfold onDiagnostic.
  destruct (JsMap.get _ (diagnosticsByConfig s)) as [m0|]; [|auto].
  destruct (JsMap.get _ m0); cbn; intro Hin;
    destruct (JsMap.In_set_inv _ _ _ _ _ H1 Hin) as [E|[_ E]];
    try assumption; injection E as E1 E2; congruence.
Qed.

Lemma deliver_all_other_projects :
  forall config evs s cfgPath m,
    wfIndex (diagnosticsByConfig s) ->
    cfgPath <> configPath config ->
    In (cfgPath, m)
       (diagnosticsByConfig (fold_left (fun s ev => deliver config ev s) evs s)) ->
    In (cfgPath, m) (diagnosticsByConfig s).
Proof.
  intros config evs; induction evs as [|ev evs IH]; intros s cp m Hwf Hne; cbn;
    [auto|].
  intro Hin; apply IH in Hin; [|now apply deliver_wfIndex|assumption].
  destruct ev as [now d|now msg]; cbn in Hin.
  - eapply onDiagnostic_other_projects; eassumption.
  - now rewrite (proj1 (onWatchStatusChange_keeps_diagnostics now config msg s)) in Hin.
Qed.

Lemma startWatchingConfig_allEmpty :
  forall h c s,
    wfIndex (diagnosticsByConfig s) -> allEmpty (diagnosticsByConfig s) ->
    allEmpty (diagnosticsByConfig (startWatchingConfig h c s)).
Proof.
  intros h c s Hwf Hempty; unfold startWatchingConfig.
  destruct (existsSync h (configPath c)); cbn [negb]; [|assumption].
  cbn; intros cp m Hin.
  set (s1 := with_opened (S (opened s)) s) in *.
  assert (Hwf1 : wfIndex (diagnosticsByConfig
                            (fold_left (fun s ev => deliver c ev s) (firstBuild h c) s1)))
    by (apply deliver_all_wfIndex; exact Hwf).
  destruct (JsMap.In_set_inv _ _ _ _ _ (proj1 Hwf1) Hin) as [E|[Hne E]].
  - now injection E.
  - apply (Hempty cp m).
    apply (deliver_all_other_projects c (firstBuild h c) s1); assumption.
Qed.

Lemma start_allEmpty :
  forall h s,
    isActive s = false ->
    wfIndex (diagnosticsByConfig s) -> allEmpty (diagnosticsByConfig s) ->
    allEmpty (diagnosticsByConfig (start h s)).
Proof.
  intros h s Ha Hwf Hempty; unfold start; rewrite Ha; cbn.
  change (diagnosticsByConfig s)
    with (diagnosticsByConfig (with_isActive true s)) in Hwf, Hempty.
  generalize dependent (with_isActive true s).
  generalize (configs s) as cfgs.
  induction cfgs as [|c cfgs IH]; intros s0 Hwf0 H0; cbn; [assumption|].
  apply IH; [now apply startWatchingConfig_wfIndex|now apply startWatchingConfig_allEmpty].
Qed.

Lemma clearFileDiagnostics_bucket :
  forall filePath cfgPath s,
    wfIndex (diagnosticsByConfig s) ->
    bucket cfgPath filePath (clearFileDiagnostics filePath s) = None.
Proof.
  intros filePath cp s Hwf; unfold bucket.
  rewrite (proj1 (clearFileDiagnostics_index filePath s)).
  rewrite (JsMap.get_map_values (JsMap.delete filePath)).
  destruct (JsMap.get cp (diagnosticsByConfig s)) as [m|] eqn:E; cbn; [|reflexivity].
  rewrite JsMap.get_delete_same; [reflexivity|].
  eapply (proj2 Hwf), JsMap.get_In; eassumption.
Qed.

(** *** Store and Cache when the keys tell the pairs apart *)

(** The composite keys of the configured projects are unambiguous: a key
    determines the config path and the file name it was built from. *)
Definition unambiguousKeys (cfgs : list TSProjectConfig) : Prop :=
  forall c1 c2 f1 f2,
    In c1 cfgs -> In c2 cfgs ->
    cacheKey (configPath c1) f1 = cacheKey (configPath c2) f2 ->
    configPath c1 = configPath c2 /\ f1 = f2.

Lemma unambiguousKeys_paths :
  forall cfgs p1 p2 f1 f2,
    unambiguousKeys cfgs ->
    In p1 (map configPath cfgs) -> In p2 (map configPath cfgs) ->
    cacheKey p1 f1 = cacheKey p2 f2 -> p1 = p2 /\ f1 = f2.
Proof.
  intros cfgs p1 p2 f1 f2 H H1 H2 E.
  apply in_map_iff in H1; destruct H1 as [c1 [<- H1]].
  apply in_map_iff in H2; destruct H2 as [c2 [<- H2]].
  now apply (H c1 c2).
Qed.

(** Every project of the index is a configured one. *)
Definition indexWithinConfigs (s : State) : Prop :=
  incl (JsMap.keys (diagnosticsByConfig s)) (map configPath (configs s)).

(** The array in a cache slot is the array of the Bucket of that key. *)
Definition agree (s : State) : Prop :=
  forall cfgPath m fileName l sl,
    JsMap.get cfgPath (diagnosticsByConfig s) = Some m ->
    JsMap.get fileName m = Some l ->
    Cache.slotOf (cacheKey cfgPath fileName) (cache s) = Some sl ->
    Cache.diagnostics (Cache.value sl) = l.

(** Every cache slot was written for a diagnostic that was emitted. *)
Definition logged (s : State) : Prop :=
  forall key sl,
    Cache.slotOf key (cache s) = Some sl ->
    exists cfgPath fileName n d,
      key = cacheKey cfgPath fileName
      /\ In cfgPath (map configPath (configs s))
      /\ In (EvDiagnostic n fileName d) (emitted s).

Record Inv (s : State) : Prop := mkInv {
  inv_cache : Cache.wf (cache s);
  inv_index : wfIndex (diagnosticsByConfig s);
  inv_within : indexWithinConfigs s;
  inv_agree : agree s;
  inv_logged : logged s
}.

(** The second cache has no slot that the first has not, with one
    payload. *)
Definition cacheShrinks (c c' : Cache.DiagnosticCache loc) : Prop :=
  Cache.wf c ->
  Cache.wf c'
  /\ (forall key sl,
        Cache.slotOf key c' = Some sl ->
        exists sl0, Cache.slotOf key c = Some sl0
                    /\ Cache.value sl = Cache.value sl0).

Lemma cacheShrinks_refl : forall c, cacheShrinks c c.
Proof. intros c H; split; [assumption|]; intros key sl E; now exists sl. Qed.

Lemma cacheShrinks_trans :
  forall c1 c2 c3, cacheShrinks c1 c2 -> cacheShrinks c2 c3 -> cacheShrinks c1 c3.
Proof.
  intros c1 c2 c3 H12 H23 H1.
  destruct (H12 H1) as [H2 G12]; destruct (H23 H2) as [H3 G23].
  split; [assumption|]; intros key sl E.
  destruct (G23 key sl E) as [sl2 [E2 V2]].
  destruct (G12 key sl2 E2) as [sl1 [E1 V1]].
  exists sl1; split; [assumption|congruence].
Qed.

Lemma get_shrinks : forall now key c, cacheShrinks c (snd (Cache.get now key c)).
Proof.
  intros now key c H; split; [now apply Cache.get_wf|].
  intros key' sl E; now apply (Cache.get_slotOf now key key' c sl).
Qed.

Lemma delete_shrinks : forall key c, cacheShrinks c (Cache.delete key c).
Proof.
  intros key c H; split; [now apply Cache.delete_wf|].
  intros key' sl E; apply Cache.delete_slotOf in E; [|assumption].
  exists sl; tauto.
Qed.

Lemma clear_shrinks : forall c, cacheShrinks c (Cache.clear c).
Proof.
  intros c H; split; [apply Cache.clear_wf|].
  intros key sl E; rewrite Cache.clear_slotOf in E; discriminate.
Qed.

(** An operation that leaves the index alone, only takes from the cache and
    only adds to the events keeps the invariant. *)
Lemma Inv_shrink :
  forall s s',
    Inv s ->
    diagnosticsByConfig s' = diagnosticsByConfig s ->
    configs s' = configs s ->
    cacheShrinks (cache s) (cache s') ->
    incl (emitted s) (emitted s') ->
    Inv s'.
Proof.
  intros s s' [I1 I2 I3 I4 I5] Hd Hc Hs He.
  destruct (Hs I1) as [W G]; constructor.
  - exact W.
  - now rewrite Hd.
  - unfold indexWithinConfigs; now rewrite Hd, Hc.
  - intros cp m f l sl Em Ef Es; rewrite Hd in Em.
    destruct (G _ _ Es) as [sl0 [E0 V0]].
    rewrite V0; eapply I4; eassumption.
  - intros key sl Es; destruct (G _ _ Es) as [sl0 [E0 _]].
    destruct (I5 _ _ E0) as (cp & f & n & d & K1 & K2 & K3).
    exists cp, f, n, d; rewrite Hc; repeat split; auto.
Qed.

Lemma collectCached_shrinks :
  forall now filePath cfgs s,
    let s' := snd (collectCached now filePath cfgs s) in
    cacheShrinks (cache s) (cache s') /\ emitted s' = emitted s.
Proof.
  intros now filePath cfgs; induction cfgs as [|c cfgs IH]; intro s; cbn.
  - split; [apply cacheShrinks_refl|reflexivity].
  - pose proof (get_shrinks now (cacheKey (configPath c) filePath) (cache s)) as G.
    destruct (Cache.get now _ (cache s)) as [cached0 c0].
    specialize (IH (with_cache c0 s)).
    destruct (collectCached now filePath cfgs (with_cache c0 s)) as [more s1].
    cbn in *; destruct IH as [IH1 IH2]; split; [|assumption].
    eapply cacheShrinks_trans; eassumption.
Qed.

Lemma getFileDiagnostics_Inv :
  forall now filePath s, Inv s -> Inv (snd (getFileDiagnostics now filePath s)).
Proof.
  intros now filePath s H.
  destruct (getFileDiagnostics_frame now filePath s) as [(_ & _ & A3 & _) [B1 _]].
  pose proof (collectCached_shrinks now filePath (configs s) s) as C.
  unfold getFileDiagnostics in *.
  destruct (collectCached now filePath (configs s) s) as [ds s1].
  cbn in *; destruct C as [C1 C2].
  apply (Inv_shrink s s1 H B1 A3 C1); rewrite C2; apply incl_refl.
Qed.

Lemma hasErrors_Inv :
  forall now filePath s, Inv s -> Inv (snd (hasErrors now filePath s)).
Proof.
  intros now [[|c p]|] s H; cbn; try assumption.
  pose proof (getFileDiagnostics_Inv now (String c p) s H) as G.
  destruct (getFileDiagnostics now (String c p) s) as [r s1]; exact G.
Qed.

(** What a diagnostic for a watched project writes. *)
Lemma onDiagnostic_writes :
  forall now config d s m,
    JsMap.get (configPath config) (diagnosticsByConfig s) = Some m ->
    let f := d_file (convertDiagnostic d) in
    let l := match JsMap.get f m with
             | Some l => l
             | None => List.length (arrays s)
             end in
    let m' := match JsMap.get f m with
              | Some _ => m
              | None => JsMap.set f l m
              end in
    let s' := onDiagnostic now config d s in
    diagnosticsByConfig s' = JsMap.set (configPath config) m' (diagnosticsByConfig s)
    /\ cache s' = Cache.set now (cacheKey (configPath config) f) l None (cache s)
    /\ emitted s'
       = emitted s ++ [EvDiagnostic (name config) f (convertDiagnostic d)]
    /\ configs s' = configs s
    /\ JsMap.get f m' = Some l
    /\ (forall f', f' <> f -> JsMap.get f' m' = JsMap.get f' m).
Proof.
  intros now config d s m Hm; cbn zeta; unfold onDiagnostic; rewrite Hm.
  destruct (JsMap.get (d_file (convertDiagnostic d)) m) as [l|] eqn:Ef; cbn.
  - repeat split; assumption.
  - repeat split; [apply JsMap.get_set_same|].
    intros f' Hne; now apply JsMap.get_set_other.
Qed.

Lemma get_Some_keys :
  forall (V : Type) k (v : V) m, JsMap.get k m = Some v -> In k (JsMap.keys m).
Proof.
  intros V k v m H; apply JsMap.get_In in H.
  apply (in_map fst) in H; exact H.
Qed.

Lemma onDiagnostic_Inv :
  forall now config d s,
    unambiguousKeys (configs s) -> Inv s -> Inv (onDiagnostic now config d s).
Proof.
  intros now config d s Hu [I1 I2 I3 I4 I5].
  destruct (JsMap.get (configPath config) (diagnosticsByConfig s)) as [m|] eqn:Em.
  2:{ unfold onDiagnostic; rewrite Em; now constructor. }
  destruct (onDiagnostic_writes now config d s m Em) as (W1 & W2 & W3 & W4 & W5 & W6).
  cbn zeta in *.
  set (f := d_file (convertDiagnostic d)) in *.
  set (cp := configPath config) in *.
  set (l := match JsMap.get f m with
            | Some l => l
            | None => List.length (arrays s)
            end) in *.
  set (m' := match JsMap.get f m with
             | Some _ => m
             | None => JsMap.set f l m
             end) in *.
  assert (Hcp : In cp (map configPath (configs s)))
    by (apply I3; eapply get_Some_keys; eassumption).
  assert (Hkeys : JsMap.keys (diagnosticsByConfig (onDiagnostic now config d s))
                  = JsMap.keys (diagnosticsByConfig s)).
  { rewrite W1; apply JsMap.keys_set_present; eapply get_Some_keys; eassumption. }
  constructor.
  - rewrite W2; now apply Cache.set_wf.
  - apply onDiagnostic_wfIndex; assumption.
  - unfold indexWithinConfigs; rewrite Hkeys, W4; exact I3.
  - intros cp2 m2 f2 l2 sl E2 Ef2 Es; rewrite W1 in E2; rewrite W2 in Es.
    destruct (string_dec (cacheKey cp2 f2) (cacheKey cp f)) as [Ek|Ek].
    + assert (Hcp2 : In cp2 (map configPath (configs s))).
      { apply I3; rewrite <- Hkeys, W1; eapply get_Some_keys; eassumption. }
      destruct (unambiguousKeys_paths _ _ _ _ _ Hu Hcp2 Hcp Ek) as [-> ->].
      rewrite JsMap.get_set_same in E2; injection E2 as <-.
      rewrite Cache.set_slotOf_same in Es; injection Es as <-; cbn.
      congruence.
    + apply Cache.set_slotOf_other in Es; [|assumption].
      destruct (string_dec cp2 cp) as [->|Hne].
      * rewrite JsMap.get_set_same in E2; injection E2 as <-.
        assert (Hf : f2 <> f) by (intros ->; now apply Ek).
        rewrite (W6 f2 Hf) in Ef2.
        eapply I4; eassumption.
      * rewrite JsMap.get_set_other in E2 by assumption.
        eapply I4; eassumption.
  - intros key sl Es; rewrite W2 in Es; rewrite W3, W4.
    destruct (string_dec key (cacheKey cp f)) as [->|Ek].
    + exists cp, f, (name config), (convertDiagnostic d); repeat split; auto.
      apply in_or_app; right; now left.
    + apply Cache.set_slotOf_other in Es; [|assumption].
      destruct (I5 _ _ Es) as (cp0 & f0 & n0 & d0 & K1 & K2 & K3).
      exists cp0, f0, n0, d0; repeat split; auto.
      apply in_or_app; now left.
Qed.

Lemma onWatchStatusChange_Inv :
  forall now config msg s, Inv s -> Inv (onWatchStatusChange now config msg s).
Proof.
  intros now config msg s H.
  destruct (onWatchStatusChange_keeps_diagnostics now config msg s) as (A1 & _ & A3).
  destruct (onWatchStatusChange_lifecycle now config msg s) as (_ & _ & B3 & _).
  apply (Inv_shrink s _ H A1 B3).
  - rewrite A3; apply cacheShrinks_refl.
  - unfold onWatchStatusChange; destruct (_ || _); cbn;
      [apply incl_appl|]; apply incl_refl.
Qed.

Lemma deliver_Inv :
  forall config ev s,
    unambiguousKeys (configs s) -> Inv s -> Inv (deliver config ev s).
Proof.
  intros config [now d|now msg] s Hu H; cbn.
  - now apply onDiagnostic_Inv.
  - now apply onWatchStatusChange_Inv.
Qed.

Lemma deliver_all_Inv :
  forall config evs s,
    unambiguousKeys (configs s) -> Inv s ->
    Inv (fold_left (fun s ev => deliver config ev s) evs s).
Proof.
  intros config evs; induction evs as [|ev evs IH]; intros s Hu H; cbn; [assumption|].
  apply IH.
  - now rewrite (proj1 (proj2 (proj2 (deliver_lifecycle config ev s)))).
  - now apply deliver_Inv.
Qed.

Lemma Inv_ext :
  forall s s',
    diagnosticsByConfig s' = diagnosticsByConfig s -> cache s' = cache s ->
    configs s' = configs s -> emitted s' = emitted s ->
    Inv s -> Inv s'.
Proof.
  intros s s' Hd Hc Hg He H; apply (Inv_shrink s s' H Hd Hg).
  - rewrite Hc; apply cacheShrinks_refl.
  - rewrite He; apply incl_refl.
Qed.

(** The second index has the projects of the first and no Bucket that the
    first has not. *)
Definition indexShrinks (index index' : JsMap.t (JsMap.t loc)) : Prop :=
  JsMap.keys index' = JsMap.keys index
  /\ (forall cfgPath m' fileName l,
        JsMap.get cfgPath index' = Some m' -> JsMap.get fileName m' = Some l ->
        exists m, JsMap.get cfgPath index = Some m /\ JsMap.get fileName m = Some l).

Lemma Inv_shrink_index :
  forall s s',
    Inv s ->
    indexShrinks (diagnosticsByConfig s) (diagnosticsByConfig s') ->
    wfIndex (diagnosticsByConfig s') ->
    configs s' = configs s ->
    cacheShrinks (cache s) (cache s') ->
    incl (emitted s) (emitted s') ->
    Inv s'.
Proof.
  intros s s' [I1 I2 I3 I4 I5] [Hk Hb] Hwf Hc Hs He.
  destruct (Hs I1) as [W G]; constructor.
  - exact W.
  - exact Hwf.
  - unfold indexWithinConfigs; now rewrite Hk, Hc.
  - intros cp m f l sl Em Ef Es.
    destruct (Hb _ _ _ _ Em Ef) as [m0 [Em0 Ef0]].
    destruct (G _ _ Es) as [sl0 [E0 V0]].
    rewrite V0; eapply I4; eassumption.
  - intros key sl Es; destruct (G _ _ Es) as [sl0 [E0 _]].
    destruct (I5 _ _ E0) as (cp & f & n & d & K1 & K2 & K3).
    exists cp, f, n, d; rewrite Hc; repeat split; auto.
Qed.

Lemma cache_deletes_shrinks :
  forall filePath (l : list (string * JsMap.t loc)) s,
    cacheShrinks (cache s)
      (cache (fold_left
                (fun s '(cfgPath, _) =>
                   with_cache (Cache.delete (cacheKey cfgPath filePath) (cache s)) s)
                l s)).
Proof.
  intros filePath l; induction l as [|[cp m] l IH]; intro s; cbn.
  - apply cacheShrinks_refl.
  - eapply cacheShrinks_trans; [|apply IH]; cbn.
    apply delete_shrinks.
Qed.

Lemma clearFileDiagnostics_Inv :
  forall filePath s, Inv s -> Inv (clearFileDiagnostics filePath s).
Proof.
  intros filePath s H.
  destruct (clearFileDiagnostics_index filePath s) as [Hd _].
  destruct (clearFileDiagnostics_lifecycle filePath s) as (_ & _ & Hc & _).
  apply (Inv_shrink_index s _ H); try assumption.
  - rewrite Hd; split; [apply JsMap.keys_map_values|].
    intros cp m' f l Em Ef.
    rewrite (JsMap.get_map_values (JsMap.delete filePath)) in Em.
    destruct (JsMap.get cp (diagnosticsByConfig s)) as [m|] eqn:E; [|discriminate].
    injection Em as <-; exists m; split; [reflexivity|].
    apply JsMap.get_delete_Some in Ef; [tauto|].
    eapply (proj2 (inv_index s H)), JsMap.get_In; eassumption.
  - apply (exec_wfIndex (OpClearFile filePath)), (inv_index s H).
  - unfold clearFileDiagnostics; cbn.
    match goal with
    | |- cacheShrinks _ (cache (fold_left _ ?l ?s0)) =>
        apply (cache_deletes_shrinks filePath l s0)
    end.
  - unfold clearFileDiagnostics.
    match goal with
    | |- incl _ (emitted (emit _ (fold_left _ ?l ?s0))) =>
        destruct (cache_deletes_frame filePath l s0) as (_ & _ & He)
    end.
    cbn in *; rewrite He; apply incl_appl, incl_refl.
Qed.

Lemma clearAllDiagnostics_Inv : forall s, Inv s -> Inv (clearAllDiagnostics s).
Proof.
  intros s H; apply (Inv_shrink_index s _ H).
  - cbn; split; [apply (JsMap.keys_map_values (fun _ => JsMap.empty))|].
    intros cp m' f l Em Ef.
    rewrite (JsMap.get_map_values (fun _ => JsMap.empty)) in Em.
    destruct (JsMap.get cp (diagnosticsByConfig s)); [|discriminate].
    injection Em as <-; discriminate.
  - apply (exec_wfIndex OpClearAll), (inv_index s H).
  - reflexivity.
  - cbn; apply clear_shrinks.
  - cbn; apply incl_appl, incl_refl.
Qed.

Lemma startWatchingConfig_Inv :
  forall h c s,
    unambiguousKeys (configs s) -> In c (configs s) ->
    Inv s -> Inv (startWatchingConfig h c s).
Proof.
  intros h c s Hu Hin H; unfold startWatchingConfig.
  destruct (existsSync h (configPath c)); cbn [negb]; [|assumption].
  set (s1 := with_opened (S (opened s)) s).
  assert (H1 : Inv s1) by (apply (Inv_ext s s1); auto).
  assert (H2 : Inv (fold_left (fun s ev => deliver c ev s) (firstBuild h c) s1))
    by (apply deliver_all_Inv; assumption).
  destruct (deliver_all_lifecycle c (firstBuild h c) s1) as (_ & _ & Hc & _).
  set (s2 := fold_left (fun s ev => deliver c ev s) (firstBuild h c) s1) in *.
  destruct H2 as [I1 I2 I3 I4 I5];
    constructor; unfold with_diagnosticsByConfig, with_watchers;
    cbn [diagnosticsByConfig configs watchers cache emitted].
  - exact I1.
  - apply wfIndex_set; [assumption|constructor].
  - unfold indexWithinConfigs; cbn [diagnosticsByConfig configs].
    rewrite Hc; cbn [configs with_opened].
    intros cp Hcp.
    destruct (in_dec string_dec (configPath c) (JsMap.keys (diagnosticsByConfig s2)))
      as [Hp|Hp].
    + rewrite JsMap.keys_set_present in Hcp by assumption.
      apply I3 in Hcp; now rewrite Hc in Hcp.
    + rewrite JsMap.keys_set_absent in Hcp by assumption.
      apply in_app_or in Hcp; destruct Hcp as [Hcp|[<-|[]]].
      * apply I3 in Hcp; now rewrite Hc in Hcp.
      * now apply in_map.
  - intros cp m f l sl Em Ef Es; cbn in *.
    destruct (string_dec cp (configPath c)) as [->|Hne].
    + rewrite JsMap.get_set_same in Em; injection Em as <-; discriminate.
    + rewrite JsMap.get_set_other in Em by assumption.
      eapply I4; eassumption.
  - exact I5.
Qed.

Lemma start_Inv :
  forall h s, unambiguousKeys (configs s) -> Inv s -> Inv (start h s).
Proof.
  intros h s Hu H; unfold start; destruct (isActive s); [assumption|].
  assert (H0 : Inv (with_isActive true s)) by (apply (Inv_ext s); auto).
  assert (Hc0 : configs (with_isActive true s) = configs s) by reflexivity.
  assert (G : forall rest s0,
             incl rest (configs s) -> configs s0 = configs s -> Inv s0 ->
             Inv (fold_left (fun s c => startWatchingConfig h c s) rest s0)
             /\ configs (fold_left (fun s c => startWatchingConfig h c s) rest s0)
                = configs s).
  { induction rest as [|c rest IH]; intros s0 Hincl Hc Hs0; cbn; [auto|].
    apply IH.
    - intros x Hx; apply Hincl; now right.
    - rewrite (proj1 (proj2 (startWatchingConfig_lifecycle h c s0))); exact Hc.
    - apply startWatchingConfig_Inv; [now rewrite Hc| |assumption].
      rewrite Hc; apply Hincl; now left. }
  destruct (G (configs s) (with_isActive true s) (incl_refl _) Hc0 H0) as [G1 G2].
  cbn [configs with_isActive] in *.
  eapply Inv_shrink; [exact G1|reflexivity|reflexivity|apply cacheShrinks_refl|].
  cbn; apply incl_appl, incl_refl.
Qed.

Lemma stop_Inv : forall s, Inv s -> Inv (stop s).
Proof.
  intros s H; unfold stop; destruct (isActive s); cbn [negb]; [|assumption].
  eapply Inv_shrink; [exact H|reflexivity|reflexivity|apply cacheShrinks_refl|].
  cbn; apply incl_appl, incl_refl.
Qed.

Lemma exec_Inv :
  forall op s, unambiguousKeys (configs s) -> Inv s -> Inv (exec s op).
Proof.
  intros [h| |config ev|now filePath|now filePath|filePath| |] s Hu H; cbn [exec].
  - now apply start_Inv.
  - now apply stop_Inv.
  - now apply deliver_Inv.
  - now apply getFileDiagnostics_Inv.
  - now apply hasErrors_Inv.
  - now apply clearFileDiagnostics_Inv.
  - now apply clearAllDiagnostics_Inv.
  - eapply Inv_shrink; [exact H|reflexivity|reflexivity|apply cacheShrinks_refl|].
    cbn; apply incl_appl, incl_refl.
Qed.

Lemma exec_configs : forall op s, configs (exec s op) = configs s.
Proof.
  intros op s; pose proof (exec_lifecycle op s) as L.
  destruct op as [h| |config ev|now filePath|now filePath|filePath| |];
    try (destruct L as (_ & _ & L & _); exact L).
  - cbn; unfold start; destruct (isActive s); [reflexivity|]; cbn.
    assert (G : forall rest s0,
               configs (fold_left (fun s c => startWatchingConfig h c s) rest s0)
               = configs s0).
    { induction rest as [|c rest IH]; intro s0; cbn; [reflexivity|].
      rewrite IH; apply (startWatchingConfig_lifecycle h c s0). }
    now rewrite G.
  - cbn; unfold stop; destruct (isActive s); reflexivity.
Qed.

Lemma run_configs :
  forall cfgs cacheSizeMB ops, configs (run ops (new cfgs cacheSizeMB)) = cfgs.
Proof.
  intros cfgs mb ops; induction ops as [|op ops IH] using rev_ind; [reflexivity|].
  now rewrite run_snoc, exec_configs.
Qed.

Lemma run_Inv :
  forall cfgs cacheSizeMB ops,
    unambiguousKeys cfgs -> Inv (run ops (new cfgs cacheSizeMB)).
Proof.
  intros cfgs mb ops Hu; induction ops as [|op ops IH] using rev_ind.
  - constructor; cbn.
    + constructor.
    + split; [constructor|intros ? ? []].
    + intros x [].
    + intros cp m f l sl E; discriminate.
    + intros key sl E; discriminate.
  - rewrite run_snoc; apply exec_Inv; [|assumption].
    now rewrite run_configs.
Qed.

(** Where two keys coincide, the pairs coincide or one config path, followed
    by a colon, begins the other. *)
Lemma cacheKey_split :
  forall a b f1 f2,
    cacheKey a f1 = cacheKey b f2 ->
    (a = b /\ f1 = f2)
    \/ String.prefix (a ++ ":") b = true
    \/ String.prefix (b ++ ":") a = true.
Proof.
  unfold cacheKey; induction a as [|c a IH]; intros [|c' b] f1 f2; cbn.
  - intros [= ->]; left; split; reflexivity.
  - intros [= <- _]; right; left.
    destruct (ascii_dec ":" ":") as [_|N]; [|congruence].
    now destruct b.
  - intros [= -> _]; right; right.
    destruct (ascii_dec ":" ":") as [_|N]; [|congruence].
    now destruct a.
  - intros [= <- E]; destruct (IH b f1 f2 E) as [[-> ->]|[H|H]].
    + left; split; reflexivity.
    + right; left; destruct (ascii_dec c c) as [_|N]; [assumption|congruence].
    + right; right; destruct (ascii_dec c c) as [_|N]; [assumption|congruence].
Qed.

(** No configured config path, followed by a colon, begins another one. *)
Definition noColonPrefix (cfgs : list TSProjectConfig) : Prop :=
  forall c1 c2,
    In c1 cfgs -> In c2 cfgs ->
    String.prefix (configPath c1 ++ ":") (configPath c2) = false.

Lemma noColonPrefix_unambiguous :
  forall cfgs, noColonPrefix cfgs -> unambiguousKeys cfgs.
Proof.
  intros cfgs H c1 c2 f1 f2 H1 H2 E.
  destruct (cacheKey_split _ _ _ _ E) as [G|[G|G]]; [assumption| |].
  - rewrite (H c1 c2 H1 H2) in G; discriminate.
  - rewrite (H c2 c1 H2 H1) in G; discriminate.
Qed.

(** In every state the manager reaches from projects with unambiguous keys,
    a pair present in Store and Cache has one array there, so the cached
    list is the Bucket. *)
Lemma store_and_cache_agree_on_unambiguous_keys :
  forall cfgs cacheSizeMB ops now cfgPath fileName b c,
    unambiguousKeys cfgs ->
    let s := run ops (new cfgs cacheSizeMB) in
    bucket cfgPath fileName s = Some b ->
    cached now cfgPath fileName s = Some c ->
    b = c.
Proof.
  intros cfgs mb ops now cp f b c Hu; cbn zeta.
  pose proof (run_Inv cfgs mb ops Hu) as [_ _ _ I4 _].
  unfold bucket, cached.
  destruct (JsMap.get cp _) as [m|] eqn:Em; [|discriminate].
  destruct (JsMap.get f m) as [l|] eqn:Ef; [|discriminate].
  intros [= <-].
  destruct (Cache.peek now _ _) as [l'|] eqn:Ep; [|discriminate].
  intros [= <-].
  apply Cache.peek_slotOf in Ep; destruct Ep as [sl [Es <-]].
  now rewrite (I4 _ _ _ _ _ Em Ef Es).
Qed.

Example app_lib_noColonPrefix : noColonPrefix [app; lib].
Proof.
  intros c1 c2 [<-|[<-|[]]] [<-|[<-|[]]]; reflexivity.
Qed.

Example outer_inner_colon_prefix :
  String.prefix (configPath outer ++ ":") (configPath inner) = true.
Proof. reflexivity. Qed.

(** *** File queries on a cold cache *)

Lemma collectCached_cold :
  forall now filePath cfgs s,
    (forall c, In c cfgs ->
               Cache.slotOf (cacheKey (configPath c) filePath) (cache s) = None) ->
    fst (collectCached now filePath cfgs s) = [].
Proof.
  intros now filePath cfgs; induction cfgs as [|c cfgs IH]; intros s H; cbn;
    [reflexivity|].
  pose proof (Cache.get_peek now (cacheKey (configPath c) filePath) (cache s)) as P.
  rewrite (Cache.peek_None_of_slotOf now _ _ (H c (or_introl eq_refl))) in P.
  assert (Hrest : forall c', In c' cfgs ->
            Cache.slotOf (cacheKey (configPath c') filePath)
              (snd (Cache.get now (cacheKey (configPath c) filePath) (cache s)))
            = None).
  { intros c' Hc'; apply Cache.get_slotOf_None, H; now right. }
  destruct (Cache.get now _ (cache s)) as [cached0 c0]; cbn in P, Hrest; subst cached0.
  specialize (IH (with_cache c0 s) Hrest).
  destruct (collectCached now filePath cfgs (with_cache c0 s)) as [more s1].
  cbn in *; now subst more.
Qed.

(** When the cache has no slot for the path under the key of any configured
    project, the answer is the empty result without the cache-hit flag,
    whatever the Store holds; Store and arrays are not touched. *)
Lemma getFileDiagnostics_cold :
  forall now filePath s,
    (forall c, In c (configs s) ->
               Cache.slotOf (cacheKey (configPath c) filePath) (cache s) = None) ->
    fst (getFileDiagnostics now filePath s)
    = {| r_timestamp := now; r_totalErrors := 0; r_totalWarnings := 0;
         r_totalSuggestions := 0; r_totalMessages := 0; r_diagnostics := [];
         r_cacheHit := false; r_source := filePath |}
    /\ diagnosticsByConfig (snd (getFileDiagnostics now filePath s))
       = diagnosticsByConfig s.
Proof.
  intros now filePath s H; split.
  - pose proof (collectCached_cold now filePath (configs s) s H) as E.
    unfold getFileDiagnostics.
    destruct (collectCached now filePath (configs s) s) as [ds s1].
    cbn in E; subst ds; reflexivity.
  - apply (getFileDiagnostics_frame now filePath s).
Qed.

(** With unambiguous keys, a path for which the manager never recorded a
    diagnostic (it emitted no [diagnostic] event for it) has no slot. *)
Lemma getFileDiagnostics_never_diagnosed_unambiguous :
  forall cfgs cacheSizeMB ops now filePath,
    unambiguousKeys cfgs ->
    let s := run ops (new cfgs cacheSizeMB) in
    (forall n d, ~ In (EvDiagnostic n filePath d) (emitted s)) ->
    fst (getFileDiagnostics now filePath s)
    = buildDiagnosticResult now [] filePath false.
Proof.
  intros cfgs mb ops now filePath Hu; cbn zeta; intro Hnever.
  pose proof (run_Inv cfgs mb ops Hu) as [_ _ _ _ I5].
  apply getFileDiagnostics_cold.
  intros c Hc; rewrite run_configs in Hc.
  destruct (Cache.slotOf _ _) as [sl|] eqn:Es; [exfalso|reflexivity].
  destruct (I5 _ _ Es) as (cp & f & n & d & K1 & K2 & K3).
  rewrite run_configs in K2.
  destruct (unambiguousKeys_paths cfgs (configPath c) cp filePath f Hu) as [_ <-];
    try assumption; [now apply in_map|].
  exact (Hnever n d K3).
Qed.

(** *** A diagnostic is pushed, never replaced *)

(** Every array of the index is allocated. *)
Definition heapWf (s : State) : Prop :=
  forall cfgPath m fileName l,
    JsMap.get cfgPath (diagnosticsByConfig s) = Some m ->
    JsMap.get fileName m = Some l ->
    l < List.length (arrays s).

Lemma length_updateNth :
  forall (A : Type) (f : A -> A) n (l : list A),
    List.length (updateNth n f l) = List.length l.
Proof.
  intros A f n l; revert n; induction l as [|x l IH]; intros [|n]; cbn; auto.
Qed.

Lemma nth_updateNth_same :
  forall (A : Type) (f : A -> A) (dflt : A) n (l : list A),
    n < List.length l -> nth n (updateNth n f l) dflt = f (nth n l dflt).
Proof.
  intros A f dflt n l; revert n; induction l as [|x l IH]; intros [|n]; cbn;
    try lia; [reflexivity|].
  intro H; apply IH; lia.
Qed.

Lemma onDiagnostic_heapWf :
  forall now config d s, heapWf s -> heapWf (onDiagnostic now config d s).
Proof.
  intros now config d s H; unfold onDiagnostic.
  destruct (JsMap.get _ (diagnosticsByConfig s)) as [m|] eqn:Em; [|assumption].
  destruct (JsMap.get _ m) as [l|] eqn:Ef; intros cp2 m2 f2 l2; cbn;
    unfold pushArray; rewrite length_updateNth.
  - destruct (string_dec cp2 (configPath config)) as [->|Hne].
    + rewrite JsMap.get_set_same; intros [= <-]; now apply (H _ _ _ _ Em).
    + rewrite JsMap.get_set_other by assumption; apply H.
  - rewrite length_app; cbn.
    destruct (string_dec cp2 (configPath config)) as [->|Hne].
    + rewrite JsMap.get_set_same; intros [= <-].
      destruct (string_dec f2 (d_file (convertDiagnostic d))) as [->|Hf].
      * rewrite JsMap.get_set_same; intros [= <-]; lia.
      * rewrite JsMap.get_set_other by assumption.
        intro E; pose proof (H _ _ _ _ Em E); lia.
    + rewrite JsMap.get_set_other by assumption.
      intros E1 E2; pose proof (H _ _ _ _ E1 E2); lia.
Qed.

Lemma deliver_all_heapWf :
  forall config evs s,
    heapWf s -> heapWf (fold_left (fun s ev => deliver config ev s) evs s).
Proof.
  intros config evs; induction evs as [|[now d|now msg] evs IH]; intros s H; cbn;
    [assumption| |]; apply IH.
  - now apply onDiagnostic_heapWf.
  - destruct (onWatchStatusChange_keeps_diagnostics now config msg s) as (A1 & A2 & _).
    unfold heapWf; rewrite A1, A2; exact H.
Qed.

Lemma heapWf_shrink :
  forall s s',
    heapWf s ->
    indexShrinks (diagnosticsByConfig s) (diagnosticsByConfig s') ->
    arrays s' = arrays s -> heapWf s'.
Proof.
  intros s s' H [_ Hb] Ha cp m f l Em Ef; rewrite Ha.
  destruct (Hb _ _ _ _ Em Ef) as [m0 [E0 F0]]; eapply H; eassumption.
Qed.

Lemma indexShrinks_refl : forall index, indexShrinks index index.
Proof. intro index; split; [reflexivity|]; intros cp m f l Em Ef; now exists m. Qed.

Lemma startWatchingConfig_heapWf :
  forall h c s, heapWf s -> heapWf (startWatchingConfig h c s).
Proof.
  intros h c s H; unfold startWatchingConfig.
  destruct (existsSync h (configPath c)); cbn [negb]; [|assumption].
  assert (H2 : heapWf (fold_left (fun s ev => deliver c ev s) (firstBuild h c)
                                 (with_opened (S (opened s)) s)))
    by (apply deliver_all_heapWf; exact H).
  intros cp m f l; cbn.
  destruct (string_dec cp (configPath c)) as [->|Hne].
  - rewrite JsMap.get_set_same; intros [= <-]; discriminate.
  - rewrite JsMap.get_set_other by assumption; apply H2.
Qed.

Lemma exec_heapWf : forall op s, wfIndex (diagnosticsByConfig s) -> heapWf s -> heapWf (exec s op).
Proof.
  intros [h| |config ev|now filePath|now filePath|filePath| |] s Hwf H; cbn [exec].
  - unfold start; destruct (isActive s); [assumption|].
    cbn [configs with_isActive].
    change (heapWf (fold_left (fun s c => startWatchingConfig h c s)
                              (configs s) (with_isActive true s))).
    assert (H0 : heapWf (with_isActive true s)) by exact H.
    revert H0; generalize (with_isActive true s) as s0.
    generalize (configs s) as cfgs.
    induction cfgs as [|c cfgs IH]; intros s0 H0; cbn; [exact H0|].
    apply IH, startWatchingConfig_heapWf, H0.
  - unfold stop; destruct (isActive s); [exact H|exact H].
  - apply (deliver_all_heapWf config [ev] s H).
  - destruct (getFileDiagnostics_frame now filePath s) as [_ [B1 B2]].
    apply (heapWf_shrink s); [assumption| |assumption].
    rewrite B1; apply indexShrinks_refl.
  - destruct (hasErrors_frame now filePath s) as [_ [B1 B2]].
    apply (heapWf_shrink s); [assumption| |assumption].
    rewrite B1; apply indexShrinks_refl.
  - destruct (clearFileDiagnostics_index filePath s) as [Hd Ha].
    apply (heapWf_shrink s); [assumption| |assumption].
    rewrite Hd; split; [apply JsMap.keys_map_values|].
    intros cp m' f l Em Ef.
    rewrite (JsMap.get_map_values (JsMap.delete filePath)) in Em.
    destruct (JsMap.get cp (diagnosticsByConfig s)) as [m|] eqn:E; [|discriminate].
    injection Em as <-; exists m; split; [reflexivity|].
    apply JsMap.get_delete_Some in Ef; [tauto|].
    eapply (proj2 Hwf), JsMap.get_In; eassumption.
  - intros cp m f l; cbn.
    rewrite (JsMap.get_map_values (fun _ => JsMap.empty)).
    destruct (JsMap.get cp (diagnosticsByConfig s)); [|discriminate].
    intros [= <-]; discriminate.
  - exact H.
Qed.

Lemma run_heapWf :
  forall cfgs cacheSizeMB ops, heapWf (run ops (new cfgs cacheSizeMB)).
Proof.
  intros cfgs mb ops; induction ops as [|op ops IH] using rev_ind.
  - intros cp m f l E; discriminate.
  - rewrite run_snoc; apply exec_heapWf; [apply run_wfIndex|assumption].
Qed.

Lemma onDiagnostic_existing :
  forall now config d s m l,
    JsMap.get (configPath config) (diagnosticsByConfig s) = Some m ->
    JsMap.get (d_file (convertDiagnostic d)) m = Some l ->
    diagnosticsByConfig (onDiagnostic now config d s)
    = JsMap.set (configPath config) m (diagnosticsByConfig s)
    /\ arrays (onDiagnostic now config d s)
       = pushArray l (convertDiagnostic d) (arrays s).
Proof.
  intros now config d s m l Em Ef; unfold onDiagnostic; rewrite Em, Ef.
  split; reflexivity.
Qed.

(** In every state the manager reaches, a diagnostic for a file that has a
    Bucket leaves the old content of the Bucket in place and adds itself at
    the end. *)
Lemma onDiagnostic_appends :
  forall cfgs cacheSizeMB ops now config d b,
    let s := run ops (new cfgs cacheSizeMB) in
    let converted := convertDiagnostic d in
    bucket (configPath config) (d_file converted) s = Some b ->
    bucket (configPath config) (d_file converted) (onDiagnostic now config d s)
    = Some (b ++ [converted]).
Proof.
  intros cfgs mb ops now config d b; cbn zeta.
  pose proof (run_heapWf cfgs mb ops) as Hh.
  set (s := run ops (new cfgs mb)) in *.
  unfold bucket at 1.
  destruct (JsMap.get (configPath config) (diagnosticsByConfig s)) as [m|] eqn:Em;
    [|discriminate].
  destruct (JsMap.get (d_file (convertDiagnostic d)) m) as [l|] eqn:Ef;
    [|discriminate].
  intros [= <-].
  destruct (onDiagnostic_existing now config d s m l Em Ef) as [E1 E2].
  unfold bucket, readArray; rewrite E1, E2, JsMap.get_set_same, Ef.
  unfold pushArray; rewrite nth_updateNth_same; [reflexivity|].
  eapply Hh; eassumption.
Qed.

(** *** The count of watched files after a start *)

Lemma onDiagnostic_keys :
  forall now config d s,
    JsMap.keys (diagnosticsByConfig (onDiagnostic now config d s))
    = JsMap.keys (diagnosticsByConfig s).
Proof.
  intros now config d s.
  destruct (JsMap.get (configPath config) (diagnosticsByConfig s)) as [m|] eqn:Em.
  - destruct (onDiagnostic_writes now config d s m Em) as [W _]; cbn zeta in W.
    rewrite W; apply JsMap.keys_set_present; eapply get_Some_keys; eassumption.
  - unfold onDiagnostic; now rewrite Em.
Qed.

Lemma deliver_all_keys :
  forall config evs s,
    JsMap.keys (diagnosticsByConfig (fold_left (fun s ev => deliver config ev s) evs s))
    = JsMap.keys (diagnosticsByConfig s).
Proof.
  intros config evs; induction evs as [|[now d|now msg] evs IH]; intro s; cbn;
    [reflexivity| |]; rewrite IH.
  - apply onDiagnostic_keys.
  - now rewrite (proj1 (onWatchStatusChange_keeps_diagnostics now config msg s)).
Qed.

(** What [startWatchingConfig] leaves in the index when the config file
    exists. *)
Lemma startWatchingConfig_index :
  forall h c s,
    existsSync h (configPath c) = true ->
    diagnosticsByConfig (startWatchingConfig h c s)
    = JsMap.set (configPath c) JsMap.empty
        (diagnosticsByConfig
           (fold_left (fun s ev => deliver c ev s) (firstBuild h c)
                      (with_opened (S (opened s)) s))).
Proof. intros h c s E; unfold startWatchingConfig; rewrite E; reflexivity. Qed.

Lemma startWatchingConfig_within :
  forall h c s,
    In c (configs s) -> indexWithinConfigs s ->
    indexWithinConfigs (startWatchingConfig h c s).
Proof.
  intros h c s Hin H; unfold indexWithinConfigs.
  rewrite (proj1 (proj2 (startWatchingConfig_lifecycle h c s))).
  destruct (existsSync h (configPath c)) eqn:E.
  - rewrite (startWatchingConfig_index h c s E).
    set (index := diagnosticsByConfig _).
    assert (Hk : JsMap.keys index = JsMap.keys (diagnosticsByConfig s))
      by apply (deliver_all_keys c (firstBuild h c) (with_opened (S (opened s)) s)).
    intros cp Hcp.
    destruct (in_dec string_dec (configPath c) (JsMap.keys index)) as [Hp|Hp].
    + rewrite JsMap.keys_set_present, Hk in Hcp by assumption; now apply H.
    + rewrite JsMap.keys_set_absent in Hcp by assumption.
      apply in_app_or in Hcp; destruct Hcp as [Hcp|[<-|[]]].
      * rewrite Hk in Hcp; now apply H.
      * now apply in_map.
  - unfold startWatchingConfig; rewrite E; exact H.
Qed.

Lemma start_loop_within :
  forall h rest s0 cfgs,
    incl rest cfgs -> configs s0 = cfgs -> indexWithinConfigs s0 ->
    indexWithinConfigs (fold_left (fun s c => startWatchingConfig h c s) rest s0)
    /\ configs (fold_left (fun s c => startWatchingConfig h c s) rest s0) = cfgs.
Proof.
  intros h rest; induction rest as [|c rest IH]; intros s0 cfgs Hincl Hc H; cbn;
    [auto|].
  apply IH.
  - intros x Hx; apply Hincl; now right.
  - rewrite (proj1 (proj2 (startWatchingConfig_lifecycle h c s0))); exact Hc.
  - apply startWatchingConfig_within; [|assumption].
    rewrite Hc; apply Hincl; now left.
Qed.

Lemma exec_within :
  forall op s, indexWithinConfigs s -> indexWithinConfigs (exec s op).
Proof.
  intros op s H; unfold indexWithinConfigs; rewrite exec_configs.
  destruct op as [h| |config ev|now filePath|now filePath|filePath| |]; cbn [exec].
  - unfold start; destruct (isActive s); [exact H|].
    destruct (start_loop_within h (configs s) (with_isActive true s) (configs s)
                (incl_refl _) eq_refl H) as [G1 G2].
    unfold indexWithinConfigs in G1; cbn [configs with_isActive] in *.
    rewrite G2 in G1; exact G1.
  - unfold stop; destruct (isActive s); exact H.
  - pose proof (deliver_all_keys config [ev] s) as K; cbn in K.
    rewrite K; exact H.
  - rewrite (proj1 (proj2 (getFileDiagnostics_frame now filePath s))); exact H.
  - rewrite (proj1 (proj2 (hasErrors_frame now filePath s))); exact H.
  - rewrite (proj1 (clearFileDiagnostics_index filePath s)).
    rewrite (JsMap.keys_map_values (JsMap.delete filePath)); exact H.
  - assert (K : JsMap.keys (diagnosticsByConfig (clearAllDiagnostics s))
                = JsMap.keys (diagnosticsByConfig s))
      by apply (JsMap.keys_map_values (fun _ => JsMap.empty)).
    rewrite K; exact H.
  - exact H.
Qed.

Lemma run_within :
  forall cfgs cacheSizeMB ops, indexWithinConfigs (run ops (new cfgs cacheSizeMB)).
Proof.
  intros cfgs mb ops; induction ops as [|op ops IH] using rev_ind.
  - intros x [].
  - rewrite run_snoc; now apply exec_within.
Qed.

(** The projects among [pre] have an empty index. *)
Definition emptyFor (pre : list TSProjectConfig) (index : JsMap.t (JsMap.t loc))
  : Prop :=
  forall cfgPath m,
    In (cfgPath, m) index -> In cfgPath (map configPath pre) -> m = JsMap.empty.

Lemma start_loop_resets :
  forall h rest pre s0,
    (forall c, In c rest -> existsSync h (configPath c) = true) ->
    wfIndex (diagnosticsByConfig s0) ->
    emptyFor pre (diagnosticsByConfig s0) ->
    emptyFor (pre ++ rest)
      (diagnosticsByConfig (fold_left (fun s c => startWatchingConfig h c s) rest s0)).
Proof.
  intros h rest; induction rest as [|c rest IH]; intros pre s0 Hex Hwf H; cbn.
  - now rewrite app_nil_r.
  - replace (pre ++ c :: rest) with ((pre ++ [c]) ++ rest)
      by (rewrite <- app_assoc; reflexivity).
    apply IH.
    + intros c' Hc'; apply Hex; now right.
    + now apply startWatchingConfig_wfIndex.
    + intros cp m Hin Hpre.
      rewrite (startWatchingConfig_index h c s0 (Hex c (or_introl eq_refl))) in Hin.
      set (s1 := with_opened (S (opened s0)) s0) in *.
      assert (Hwf1 : wfIndex (diagnosticsByConfig
                       (fold_left (fun s ev => deliver c ev s) (firstBuild h c) s1)))
        by (apply deliver_all_wfIndex; exact Hwf).
      destruct (JsMap.In_set_inv _ _ _ _ _ (proj1 Hwf1) Hin) as [E|[Hne E]].
      * now injection E.
      * apply (H cp m).
        -- apply (deliver_all_other_projects c (firstBuild h c) s1); assumption.
        -- rewrite map_app in Hpre; apply in_app_or in Hpre.
           destruct Hpre as [Hpre|[Hpre|[]]]; [assumption|congruence].
Qed.

(** A start of an inactive manager on which every config file exists leaves
    every project with an empty index, whatever was stored before. *)
Lemma start_resets :
  forall h s,
    isActive s = false ->
    wfIndex (diagnosticsByConfig s) -> indexWithinConfigs s ->
    (forall c, In c (configs s) -> existsSync h (configPath c) = true) ->
    allEmpty (diagnosticsByConfig (start h s)).
Proof.
  intros h s Ha Hwf Hin Hex.
  pose proof (exec_within (OpStart h) s Hin) as Hin'.
  unfold indexWithinConfigs in Hin'; rewrite exec_configs in Hin'; cbn [exec] in Hin'.
  intros cp m Hcp.
  assert (Hkey : In cp (map configPath (configs s))).
  { apply Hin'; apply (in_map fst) in Hcp; exact Hcp. }
  revert Hcp Hkey; unfold start; rewrite Ha; cbn [configs with_isActive].
  change (diagnosticsByConfig (emit ?e ?x)) with (diagnosticsByConfig x).
  apply (start_loop_resets h (configs s) [] (with_isActive true s) Hex Hwf).
  intros ? ? _ [].
Qed.

(** C10: the status field [watchedFiles] is the number of (project, file)
    pairs that have a Bucket in the Store: the list of those pairs has no
    repetition, a pair is on it exactly when its Bucket exists, and the field
    is the length of the list.  So a file without diagnostics is not counted:
    the field is 0 after the [start] of a new manager, whatever the host
    starts, after the [start] of a stopped manager when every config file
    exists, and after [clearAllDiagnostics], which leaves the active flag as
    it was; and after [clearFileDiagnostics] the file has no Bucket in any
    project. *)
Theorem watchedFiles_counts_buckets :
  (forall cfgs cacheSizeMB ops,
      let s := run ops (new cfgs cacheSizeMB) in
      NoDup (storedFiles s)
      /\ (forall cfgPath fileName,
            In (cfgPath, fileName) (storedFiles s)
            <-> bucket cfgPath fileName s <> None)
      /\ watchedFiles (getStatus s) = List.length (storedFiles s))
  /\ (forall cfgs cacheSizeMB h,
        let s := start h (new cfgs cacheSizeMB) in
        watchedFiles (getStatus s) = 0 /\ active (getStatus s) = true)
  /\ (forall cfgs cacheSizeMB ops h,
        let s := run ops (new cfgs cacheSizeMB) in
        isActive s = false ->
        (forall c, In c cfgs -> existsSync h (configPath c) = true) ->
        watchedFiles (getStatus (start h s)) = 0
        /\ active (getStatus (start h s)) = true)
  /\ (forall s,
        watchedFiles (getStatus (clearAllDiagnostics s)) = 0
        /\ active (getStatus (clearAllDiagnostics s)) = active (getStatus s))
  /\ (forall cfgs cacheSizeMB ops filePath cfgPath,
        bucket cfgPath filePath
               (clearFileDiagnostics filePath (run ops (new cfgs cacheSizeMB)))
        = None).
Proof.
  split; [|split; [|split; [|split]]].
  - intros cfgs mb ops; cbn zeta.
    pose proof (run_wfIndex cfgs mb ops) as Hwf.
    split; [now apply storedFilesOf_NoDup|].
    split; [intros; now apply storedFiles_bucket|].
    apply getTotalFilesWatched_storedFiles.
  - intros cfgs mb h; cbn zeta; split; [|apply start_isActive].
    cbn [watchedFiles getStatus].
    rewrite getTotalFilesWatched_storedFiles; unfold storedFiles.
    rewrite allEmpty_storedFilesOf; [reflexivity|].
    apply start_allEmpty; [reflexivity| |intros ? ? []].
    split; [constructor|intros ? ? []].
  - intros cfgs mb ops h; cbn zeta; intros Ha Hex; split; [|apply start_isActive].
    cbn [watchedFiles getStatus].
    rewrite getTotalFilesWatched_storedFiles; unfold storedFiles.
    rewrite allEmpty_storedFilesOf; [reflexivity|].
    apply start_resets; [assumption|apply run_wfIndex|apply run_within|].
    now rewrite run_configs.
  - intro s; split; [|reflexivity].
    cbn [watchedFiles getStatus].
    rewrite getTotalFilesWatched_storedFiles; unfold storedFiles.
    rewrite allEmpty_storedFilesOf; [reflexivity|].
    cbn; intros cp m Hin; apply in_map_iff in Hin.
    destruct Hin as [[cp' m'] [E _]]; now injection E.
  - intros cfgs mb ops filePath cp.
    apply clearFileDiagnostics_bucket, run_wfIndex.
Qed.

(** The count follows the Buckets: one after the first diagnostic, still one
    after a second diagnostic for the file, zero after clearing. *)
Example watchedFiles_follows_buckets :
  watchedFiles (getStatus (start quietHost (new [app] 100))) = 0
  /\ watchedFiles (getStatus afterTwoPasses) = 1
  /\ watchedFiles (getStatus (clearAllDiagnostics afterTwoPasses)) = 0
  /\ active (getStatus (clearAllDiagnostics afterTwoPasses)) = true.
Proof. repeat split. Qed.

(** A manager that is stopped with one Bucket in the Store and started
    again. *)
Definition stoppedWithBucket : State :=
  run [ OpStart quietHost;
        OpSession app (ReportDiagnostic 100 firstPassError);
        OpStop ]
      (new [app] 100).

Lemma watchedFiles_counts_buckets_witness :
  watchedFiles (getStatus stoppedWithBucket) = 1
  /\ watchedFiles (getStatus (start quietHost stoppedWithBucket)) = 0
  /\ active (getStatus (start quietHost stoppedWithBucket)) = true.
Proof.
  split; [reflexivity|].
  apply (proj1 (proj2 (proj2 watchedFiles_counts_buckets)) [app] 100%N
           [ OpStart quietHost;
             OpSession app (ReportDiagnostic 100 firstPassError);
             OpStop ] quietHost).
  - reflexivity.
  - intros c _; reflexivity.
Defined.

(** *** What the queries return *)

Definition totalOf (r : DiagnosticResult) : nat :=
  r_totalErrors r + r_totalWarnings r + r_totalSuggestions r + r_totalMessages r.

Lemma countCategory_partition :
  forall ds,
    countCategory error ds + countCategory warning ds
    + countCategory suggestion ds + countCategory message ds
    = List.length ds.
Proof.
  unfold countCategory; induction ds as [|d ds IH]; [reflexivity|].
  cbn [filter List.length]; destruct (d_category d); cbn [category_eqb List.length]; lia.
Qed.

Lemma countCategory_app :
  forall c ds1 ds2,
    countCategory c (ds1 ++ ds2) = countCategory c ds1 + countCategory c ds2.
Proof.
  intros c ds1 ds2; unfold countCategory; now rewrite filter_app, length_app.
Qed.

(** X14: the four totals of a query result account for every diagnostic in
    it, each one counted under exactly one category, for all three queries;
    and [getFileDiagnostics] reports a cache hit exactly when its result
    holds a diagnostic. *)
Theorem totals_account_for_every_diagnostic :
  forall now s,
    totalOf (getAllDiagnostics now s)
    = List.length (r_diagnostics (getAllDiagnostics now s))
    /\ (forall filePath,
          let r := fst (getFileDiagnostics now filePath s) in
          totalOf r = List.length (r_diagnostics r)
          /\ r_cacheHit r = negb (Nat.eqb (List.length (r_diagnostics r)) 0))
    /\ (forall packageName,
          match getPackageDiagnostics now packageName s with
          | Some r => totalOf r = List.length (r_diagnostics r)
          | None => True
          end).
Proof.
  intros now s; split; [|split].
  - apply countCategory_partition.
  - intros filePath; unfold getFileDiagnostics.
    destruct (collectCached now filePath (configs s) s) as [ds s1]; cbn [fst].
    split; [apply countCategory_partition|].
    cbn [buildDiagnosticResult r_cacheHit r_diagnostics]; now destruct ds.
  - intros packageName; unfold getPackageDiagnostics.
    destruct (find (hasName packageName) (configs s)); [|exact I].
    apply countCategory_partition.
Qed.

Lemma flat_map_project_split :
  forall (F : string -> list Diagnostic) (index : JsMap.t (JsMap.t loc)) cfgPath m,
    JsMap.get cfgPath index = Some m ->
    exists before after,
      flat_map (fun '(cfgPath', _) => F cfgPath') index
      = before ++ F cfgPath ++ after.
Proof.
  intros F index cfgPath m; induction index as [|[k v] index IH]; cbn [JsMap.get];
    [discriminate|].
  destruct (String.eqb_spec cfgPath k) as [->|Hne].
  - intros _; exists [], (flat_map (fun '(cfgPath', _) => F cfgPath') index).
    reflexivity.
  - intro H; destruct (IH H) as (before & after & E).
    exists (F k ++ before), after; cbn [flat_map]; rewrite E.
    now rewrite app_assoc.
Qed.

(** X15: what [getPackageDiagnostics] returns for a package is a stretch of
    what [getAllDiagnostics] returns, so no total of the package exceeds the
    total over all projects, and a package has no error when [hasErrors()]
    says there is none. *)
Theorem package_diagnostics_are_among_all :
  forall now packageName s r,
    getPackageDiagnostics now packageName s = Some r ->
    let everything := getAllDiagnostics now s in
    (exists before after,
        r_diagnostics everything = before ++ r_diagnostics r ++ after)
    /\ r_totalErrors r <= r_totalErrors everything
    /\ r_totalWarnings r <= r_totalWarnings everything
    /\ r_totalSuggestions r <= r_totalSuggestions everything
    /\ r_totalMessages r <= r_totalMessages everything
    /\ (fst (hasErrors now None s) = false -> r_totalErrors r = 0).
Proof.
  intros now packageName s r; unfold getPackageDiagnostics.
  destruct (find (hasName packageName) (configs s)) as [config|]; [|discriminate].
  intros [= <-]; cbn zeta.
  assert (D : exists before after,
             r_diagnostics (getAllDiagnostics now s)
             = before ++ getAllDiagnosticsForConfig (configPath config) s ++ after).
  { cbn [getAllDiagnostics buildDiagnosticResult r_diagnostics].
    destruct (JsMap.get (configPath config) (diagnosticsByConfig s)) as [m|] eqn:E.
    - apply (flat_map_project_split
               (fun cfgPath => getAllDiagnosticsForConfig cfgPath s) _ _ m E).
    - exists [], (flat_map
                    (fun '(cfgPath, _) => getAllDiagnosticsForConfig cfgPath s)
                    (diagnosticsByConfig s)).
      unfold getAllDiagnosticsForConfig at 2; now rewrite E. }
  destruct D as (before & after & E).
  assert (Hle : forall c,
             countCategory c (getAllDiagnosticsForConfig (configPath config) s)
             <= countCategory c (r_diagnostics (getAllDiagnostics now s))).
  { intro c; rewrite E, !countCategory_app; lia. }
  cbn [buildDiagnosticResult r_diagnostics r_totalErrors r_totalWarnings
         r_totalSuggestions r_totalMessages hasErrors fst] in *.
  split; [now exists before, after|].
  repeat split; try apply Hle.
  intro H; apply Nat.ltb_ge in H; specialize (Hle error).
  cbn [getAllDiagnostics buildDiagnosticResult r_diagnostics r_totalErrors] in *.
  lia.
Qed.

Lemma package_diagnostics_are_among_all_witness :
  r_totalErrors
    (buildDiagnosticResult 220
       (getAllDiagnosticsForConfig (configPath app) afterTwoPasses) "app" true)
  <= r_totalErrors (getAllDiagnostics 220 afterTwoPasses).
Proof.
  apply (proj1 (proj2 (package_diagnostics_are_among_all 220 "app" afterTwoPasses
                         _ eq_refl))).
Defined.

Lemma flat_map_nil :
  forall (A B : Type) (f : A -> list B) (l : list A),
    (forall a, In a l -> f a = []) -> flat_map f l = [].
Proof.
  intros A B f l; induction l as [|a l IH]; intro H; [reflexivity|].
  cbn [flat_map]; rewrite (H a (or_introl eq_refl)), IH; [reflexivity|].
  intros a' Ha'; apply H; now right.
Qed.

Lemma clearAllDiagnostics_project :
  forall cfgPath s,
    getAllDiagnosticsForConfig cfgPath (clearAllDiagnostics s) = [].
Proof.
  intros cfgPath s; unfold getAllDiagnosticsForConfig, clearAllDiagnostics.
  cbn [diagnosticsByConfig emit with_cache with_diagnosticsByConfig].
  assert (G : JsMap.get cfgPath
                (map (fun '(c, _) => (c, @JsMap.empty loc)) (diagnosticsByConfig s))
              = option_map (fun _ => JsMap.empty)
                  (JsMap.get cfgPath (diagnosticsByConfig s)))
    by apply (JsMap.get_map_values (fun _ => JsMap.empty)).
  rewrite G.
  now destruct (JsMap.get cfgPath (diagnosticsByConfig s)).
Qed.

(** X16: after [clearAllDiagnostics] every query is empty, in every state:
    [getAllDiagnostics] and [getFileDiagnostics] of any path return no
    diagnostic and zero totals, the latter with [cacheHit] false, every
    configured package has an empty result, and [hasErrors] is false with or
    without a path.  The projects stay known and the compiler sessions keep
    running. *)
Theorem clearAllDiagnostics_empties_every_query :
  forall now s,
    let s' := clearAllDiagnostics s in
    getAllDiagnostics now s' = buildDiagnosticResult now [] "all" true
    /\ (forall filePath,
          fst (getFileDiagnostics now filePath s')
          = buildDiagnosticResult now [] filePath false)
    /\ (forall packageName,
          getPackageDiagnostics now packageName s'
          = option_map (fun _ => buildDiagnosticResult now [] packageName true)
              (getPackageDiagnostics now packageName s))
    /\ (forall filePath, fst (hasErrors now filePath s') = false)
    /\ JsMap.keys (diagnosticsByConfig s') = JsMap.keys (diagnosticsByConfig s)
    /\ watchers s' = watchers s /\ isActive s' = isActive s.
Proof.
  intros now s s'.
  assert (Hall : getAllDiagnostics now s' = buildDiagnosticResult now [] "all" true).
  { unfold getAllDiagnostics; f_equal.
    apply flat_map_nil; intros [cfgPath m] _; apply clearAllDiagnostics_project. }
  assert (Hfile : forall filePath,
             fst (getFileDiagnostics now filePath s')
             = buildDiagnosticResult now [] filePath false).
  { intro filePath; apply getFileDiagnostics_cold; intros c _; reflexivity. }
  split; [exact Hall|split; [exact Hfile|split; [|split; [|split]]]].
  - intro packageName; unfold getPackageDiagnostics.
    change (configs s') with (configs s).
    destruct (find (hasName packageName) (configs s)) as [config|];
      [|reflexivity].
    cbn [option_map]; subst s'; now rewrite clearAllDiagnostics_project.
  - intros [[|c p]|]; cbn [hasErrors]; try (now rewrite Hall).
    specialize (Hfile (String c p)).
    destruct (getFileDiagnostics now (String c p) s') as [result s1].
    cbn [fst] in *; now subst result.
  - subst s'; unfold clearAllDiagnostics.
    cbn [diagnosticsByConfig emit with_cache with_diagnosticsByConfig].
    apply (JsMap.keys_map_values (fun _ => JsMap.empty)).
  - split; reflexivity.
Qed.

Lemma collectCached_requests :
  forall now filePath cfgs s,
    let s' := snd (collectCached now filePath cfgs s) in
    Cache.hits (Cache.stats (cache s')) + Cache.misses (Cache.stats (cache s'))
    = Cache.hits (Cache.stats (cache s)) + Cache.misses (Cache.stats (cache s))
      + List.length cfgs.
Proof.
  intros now filePath cfgs; induction cfgs as [|c cfgs IH]; intro s;
    cbn [collectCached snd List.length]; [lia|].
  destruct (Cache.get now (cacheKey (configPath c) filePath) (cache s))
    as [cached0 c0] eqn:E.
  specialize (IH (with_cache c0 s)).
  destruct (collectCached now filePath cfgs (with_cache c0 s)) as [more s1].
  cbn [snd cache with_cache] in *.
  destruct cached0 as [l|];
    [apply Cache.get_found in E|apply Cache.get_not_found in E]; lia.
Qed.

Lemma collectCached_cold_misses :
  forall now filePath cfgs s,
    (forall c, In c cfgs ->
               Cache.slotOf (cacheKey (configPath c) filePath) (cache s) = None) ->
    let s' := snd (collectCached now filePath cfgs s) in
    Cache.hits (Cache.stats (cache s')) = Cache.hits (Cache.stats (cache s))
    /\ Cache.misses (Cache.stats (cache s'))
       = Cache.misses (Cache.stats (cache s)) + List.length cfgs.
Proof.
  intros now filePath cfgs; induction cfgs as [|c cfgs IH]; intros s H;
    cbn [collectCached snd List.length]; [lia|].
  pose proof (Cache.get_peek now (cacheKey (configPath c) filePath) (cache s)) as P.
  rewrite (Cache.peek_None_of_slotOf now _ _ (H c (or_introl eq_refl))) in P.
  assert (Hrest : forall c', In c' cfgs ->
            Cache.slotOf (cacheKey (configPath c') filePath)
              (snd (Cache.get now (cacheKey (configPath c) filePath) (cache s)))
            = None).
  { intros c' Hc'; apply Cache.get_slotOf_None, H; now right. }
  destruct (Cache.get now (cacheKey (configPath c) filePath) (cache s))
    as [cached0 c0] eqn:E.
  cbn [fst snd] in P, Hrest; subst cached0.
  specialize (IH (with_cache c0 s) Hrest).
  destruct (collectCached now filePath cfgs (with_cache c0 s)) as [more s1].
  cbn [snd cache with_cache] in *.
  apply Cache.get_not_found in E; lia.
Qed.

(** X17: [getFileDiagnostics] reads the cache and nothing else.  Each call
    asks the cache once per configured project, so the request counters
    behind [hitRate] grow by the number of configured projects, and the
    Store is left as it is.  When the cache has no slot for the path under
    the key of any configured project, the result is empty with zero totals
    and [cacheHit] false whatever the Store holds, and every one of those
    requests is a miss. *)
Theorem getFileDiagnostics_asks_the_cache_only :
  forall now filePath s,
    let r := fst (getFileDiagnostics now filePath s) in
    let s' := snd (getFileDiagnostics now filePath s) in
    cs_hits (getCacheStats s') + cs_misses (getCacheStats s')
    = cs_hits (getCacheStats s) + cs_misses (getCacheStats s)
      + List.length (configs s)
    /\ diagnosticsByConfig s' = diagnosticsByConfig s
    /\ arrays s' = arrays s
    /\ ((forall c, In c (configs s) ->
           Cache.slotOf (cacheKey (configPath c) filePath) (cache s) = None) ->
        r = buildDiagnosticResult now [] filePath false
        /\ cs_hits (getCacheStats s') = cs_hits (getCacheStats s)
        /\ cs_misses (getCacheStats s')
           = cs_misses (getCacheStats s) + List.length (configs s)).
Proof.
  intros now filePath s r s'.
  pose proof (collectCached_requests now filePath (configs s) s) as Hreq.
  pose proof (collectCached_cold_misses now filePath (configs s) s) as Hcold.
  pose proof (getFileDiagnostics_frame now filePath s) as [_ [Hindex Harrays]].
  pose proof (getFileDiagnostics_cold now filePath s) as Hres.
  subst r s'; unfold getFileDiagnostics in *.
  destruct (collectCached now filePath (configs s) s) as [ds s1].
  cbn [fst snd getCacheStats Cache.getStats cs_hits cs_misses] in *.
  split; [exact Hreq|split; [exact Hindex|split; [exact Harrays|]]].
  intro H; split; [apply (Hres H)|apply (Hcold H)].
Qed.

Lemma getFileDiagnostics_asks_the_cache_only_witness :
  fst (getFileDiagnostics 300 "/app/src/b.ts" afterTwoPasses)
  = buildDiagnosticResult 300 [] "/app/src/b.ts" false.
Proof.
  apply (proj2 (proj2 (proj2
           (getFileDiagnostics_asks_the_cache_only 300 "/app/src/b.ts"
              afterTwoPasses)))).
  intros c [<-|[]]; reflexivity.
Defined.

(** *** Ingestion, seen from outside *)

Lemma peek_set_same :
  forall now key (l : loc) hash c,
    Cache.peek now key (Cache.set now key l hash c) = Some l.
Proof.
  intros now key l hash c.
  pose proof (Cache.set_slotOf_same now key l hash c) as E.
  unfold Cache.slotOf in E; unfold Cache.peek, Cache.lru_peek; rewrite E.
  unfold Cache.isStale; cbn [Cache.ageStart Cache.value].
  rewrite N.sub_diag.
  destruct (N.ltb_spec (Cache.ttl (Cache.cache (Cache.set now key l hash c))) 0)
    as [H|_]; [lia|rewrite andb_false_r; reflexivity].
Qed.

(** X18: a diagnostic for a project that was started is written through.
    In every state the manager reaches, [onDiagnostic] leaves the Bucket of
    the file as it was plus the new diagnostic at its end (a new Bucket when
    the file had none), a [cache.get] at that moment returns exactly this
    Bucket, and one [diagnostic] event is emitted.  A diagnostic for a
    project without an index (never started, or its config file was missing)
    is dropped: the state does not change and no event is emitted. *)
Theorem onDiagnostic_writes_through :
  forall cfgs cacheSizeMB ops now config d,
    let s := run ops (new cfgs cacheSizeMB) in
    let converted := convertDiagnostic d in
    let fileName := d_file converted in
    let before := match bucket (configPath config) fileName s with
                  | Some b => b
                  | None => []
                  end in
    let s' := onDiagnostic now config d s in
    (JsMap.get (configPath config) (diagnosticsByConfig s) = None -> s' = s)
    /\ (JsMap.get (configPath config) (diagnosticsByConfig s) <> None ->
        bucket (configPath config) fileName s' = Some (before ++ [converted])
        /\ cached now (configPath config) fileName s'
           = Some (before ++ [converted])
        /\ emitted s'
           = emitted s ++ [EvDiagnostic (name config) fileName converted]).
Proof.
  intros cfgs mb ops now config d; cbn zeta.
  pose proof (run_heapWf cfgs mb ops) as Hh.
  set (s := run ops (new cfgs mb)) in *.
  split; [intro E; unfold onDiagnostic; now rewrite E|].
  destruct (JsMap.get (configPath config) (diagnosticsByConfig s)) as [m|] eqn:Em;
    [intros _|congruence].
  destruct (JsMap.get (d_file (convertDiagnostic d)) m) as [l|] eqn:Ef.
  - assert (Hl : l < List.length (arrays s)) by (eapply Hh; eassumption).
    assert (Hb : bucket (configPath config) (d_file (convertDiagnostic d)) s
                 = Some (readArray l s))
      by (unfold bucket; now rewrite Em, Ef).
    rewrite Hb; unfold onDiagnostic; rewrite Em, Ef.
    unfold bucket, cached, readArray.
    cbn [diagnosticsByConfig arrays cache emitted emit with_cache with_arrays
           with_diagnosticsByConfig].
    rewrite JsMap.get_set_same, Ef, peek_set_same.
    unfold pushArray; rewrite nth_updateNth_same by exact Hl.
    repeat split.
  - assert (Hb : bucket (configPath config) (d_file (convertDiagnostic d)) s
                 = None)
      by (unfold bucket; now rewrite Em, Ef).
    rewrite Hb; unfold onDiagnostic; rewrite Em, Ef.
    unfold bucket, cached, readArray.
    cbn [diagnosticsByConfig arrays cache emitted emit with_cache with_arrays
           with_diagnosticsByConfig].
    rewrite !JsMap.get_set_same, peek_set_same.
    unfold pushArray; rewrite nth_updateNth_same
      by (rewrite length_app; cbn [List.length]; lia).
    rewrite app_nth2, Nat.sub_diag by lia.
    repeat split.
Qed.

Lemma onDiagnostic_writes_through_witness :
  bucket (configPath app) (d_file (convertDiagnostic secondPassError))
    (onDiagnostic 300 app secondPassError (run twoPasses (new [app] 100)))
  = Some ((match bucket (configPath app)
                   (d_file (convertDiagnostic secondPassError))
                   (run twoPasses (new [app] 100)) with
           | Some b => b
           | None => []
           end) ++ [convertDiagnostic secondPassError])
  /\ onDiagnostic 300 lib secondPassError (run twoPasses (new [app] 100))
     = run twoPasses (new [app] 100).
Proof.
  split.
  - refine (proj1 (proj2 (onDiagnostic_writes_through [app] 100 twoPasses 300 app
                            secondPassError) _)).
    vm_compute; discriminate.
  - refine (proj1 (onDiagnostic_writes_through [app] 100 twoPasses 300 lib
                     secondPassError) _).
    vm_compute; reflexivity.
Defined.

(** X19: Store and Cache agree wherever the cache keys cannot be confused.
    When no config path followed by a colon begins a config path of the
    manager, then in every state it reaches, a (project, file) pair that
    has a Bucket and a live cache entry has the same list of diagnostics in
    both. *)
Theorem store_and_cache_agree :
  forall cfgs cacheSizeMB ops now cfgPath fileName b c,
    noColonPrefix cfgs ->
    let s := run ops (new cfgs cacheSizeMB) in
    bucket cfgPath fileName s = Some b ->
    cached now cfgPath fileName s = Some c ->
    b = c.
Proof.
  intros cfgs mb ops now cfgPath fileName b c H.
  apply store_and_cache_agree_on_unambiguous_keys.
  now apply noColonPrefix_unambiguous.
Qed.

Lemma store_and_cache_agree_witness :
  [convertDiagnostic firstPassError; convertDiagnostic secondPassError]
  = [convertDiagnostic firstPassError; convertDiagnostic secondPassError].
Proof.
  refine (store_and_cache_agree [app; lib] 100 twoPasses 220
            "/app/tsconfig.json" "/app/src/a.ts" _ _ _ _ _).
  - apply app_lib_noColonPrefix.
  - vm_compute; reflexivity.
  - vm_compute; reflexivity.
Defined.

(** X20: with such config paths, a path for which the manager never
    emitted a [diagnostic] event has an empty [getFileDiagnostics] result
    with zero totals and [cacheHit] false, in every state the manager
    reaches. *)
Theorem never_diagnosed_file_is_empty :
  forall cfgs cacheSizeMB ops now filePath,
    noColonPrefix cfgs ->
    let s := run ops (new cfgs cacheSizeMB) in
    (forall n d, ~ In (EvDiagnostic n filePath d) (emitted s)) ->
    fst (getFileDiagnostics now filePath s)
    = buildDiagnosticResult now [] filePath false.
Proof.
  intros cfgs mb ops now filePath H.
  apply getFileDiagnostics_never_diagnosed_unambiguous.
  now apply noColonPrefix_unambiguous.
Qed.

Lemma never_diagnosed_file_is_empty_witness :
  fst (getFileDiagnostics 220 "/app/src/b.ts" (run twoPasses (new [app; lib] 100)))
  = buildDiagnosticResult 220 [] "/app/src/b.ts" false.
Proof.
  refine (never_diagnosed_file_is_empty [app; lib] 100 twoPasses 220
            "/app/src/b.ts" _ _).
  - apply app_lib_noColonPrefix.
  - intros n d.
    let l := eval vm_compute in (emitted (run twoPasses (new [app; lib] 100))) in
    assert (E : emitted (run twoPasses (new [app; lib] 100)) = l)
      by (vm_compute; reflexivity).
    rewrite E; intro H.
    repeat (destruct H as [H|H]; [discriminate|]); exact H.
Defined.

(** *** Clearing one file *)

(** Every cache slot was written for a project of the index, and no key has
    two slots. *)
Definition cacheFromIndex (s : State) : Prop :=
  Cache.wf (cache s)
  /\ forall key sl,
       Cache.slotOf key (cache s) = Some sl ->
       exists cfgPath fileName,
         key = cacheKey cfgPath fileName
         /\ In cfgPath (JsMap.keys (diagnosticsByConfig s)).

Lemma cacheFromIndex_shrink :
  forall s s',
    cacheFromIndex s ->
    cacheShrinks (cache s) (cache s') ->
    incl (JsMap.keys (diagnosticsByConfig s)) (JsMap.keys (diagnosticsByConfig s')) ->
    cacheFromIndex s'.
Proof.
  intros s s' [Hwf H] Hs Hk; destruct (Hs Hwf) as [Hwf' Hsl]; split; [exact Hwf'|].
  intros key sl E; destruct (Hsl key sl E) as (sl0 & E0 & _).
  destruct (H key sl0 E0) as (cp & f & -> & Hin).
  exists cp, f; split; [reflexivity|auto].
Qed.

Lemma cacheFromIndex_same :
  forall s s',
    cacheFromIndex s -> cache s' = cache s ->
    diagnosticsByConfig s' = diagnosticsByConfig s -> cacheFromIndex s'.
Proof.
  intros s s' H Ec Ed; apply (cacheFromIndex_shrink s s' H).
  - rewrite Ec; apply cacheShrinks_refl.
  - rewrite Ed; apply incl_refl.
Qed.

Lemma keys_set_incl :
  forall (V : Type) k (v : V) m, incl (JsMap.keys m) (JsMap.keys (JsMap.set k v m)).
Proof.
  intros V k v m.
  destruct (in_dec string_dec k (JsMap.keys m)) as [H|H].
  - rewrite JsMap.keys_set_present by exact H; apply incl_refl.
  - rewrite JsMap.keys_set_absent by exact H; apply incl_appl, incl_refl.
Qed.

Lemma onDiagnostic_cacheFromIndex :
  forall now config d s,
    cacheFromIndex s -> cacheFromIndex (onDiagnostic now config d s).
Proof.
  intros now config d s [Hwf H].
  destruct (JsMap.get (configPath config) (diagnosticsByConfig s)) as [m|] eqn:Em.
  2: { unfold onDiagnostic; rewrite Em; now split. }
  pose proof (onDiagnostic_writes now config d s m Em) as W; cbn zeta in W.
  destruct W as (_ & Ec & _).
  split; [rewrite Ec; now apply Cache.set_wf|].
  intros key sl E; rewrite Ec in E; rewrite onDiagnostic_keys.
  destruct (string_dec key
              (cacheKey (configPath config) (d_file (convertDiagnostic d))))
    as [->|Hne].
  - exists (configPath config), (d_file (convertDiagnostic d)).
    split; [reflexivity|]; eapply get_Some_keys; eassumption.
  - apply (Cache.set_slotOf_other _ _ _ _ _ _ _ Hne) in E; exact (H _ _ E).
Qed.

Lemma deliver_cacheFromIndex :
  forall config ev s, cacheFromIndex s -> cacheFromIndex (deliver config ev s).
Proof.
  intros config [now d|now msg] s H; cbn [deliver].
  - now apply onDiagnostic_cacheFromIndex.
  - destruct (onWatchStatusChange_keeps_diagnostics now config msg s)
      as (Ed & _ & Ec).
    now apply (cacheFromIndex_same s).
Qed.

Lemma deliver_all_cacheFromIndex :
  forall config evs s,
    cacheFromIndex s ->
    cacheFromIndex (fold_left (fun s ev => deliver config ev s) evs s).
Proof.
  intros config evs; induction evs as [|ev evs IH]; intros s H; [exact H|].
  cbn [fold_left]; apply IH; now apply deliver_cacheFromIndex.
Qed.

Lemma startWatchingConfig_cacheFromIndex :
  forall h c s, cacheFromIndex s -> cacheFromIndex (startWatchingConfig h c s).
Proof.
  intros h c s H; unfold startWatchingConfig.
  destruct (existsSync h (configPath c)); cbn [negb]; [|exact H].
  set (s2 := fold_left (fun s ev => deliver c ev s) (firstBuild h c)
               (with_opened (S (opened s)) s)).
  assert (H2 : cacheFromIndex s2).
  { apply deliver_all_cacheFromIndex.
    now apply (cacheFromIndex_same s). }
  apply (cacheFromIndex_shrink s2 _ H2).
  - apply cacheShrinks_refl.
  - cbn [diagnosticsByConfig with_diagnosticsByConfig with_watchers].
    apply keys_set_incl.
Qed.

Lemma start_loop_cacheFromIndex :
  forall h cfgs s,
    cacheFromIndex s ->
    cacheFromIndex (fold_left (fun s c => startWatchingConfig h c s) cfgs s).
Proof.
  intros h cfgs; induction cfgs as [|c cfgs IH]; intros s H; [exact H|].
  cbn [fold_left]; apply IH; now apply startWatchingConfig_cacheFromIndex.
Qed.

Lemma exec_cacheFromIndex :
  forall op s, cacheFromIndex s -> cacheFromIndex (exec s op).
Proof.
  intros [h| |config ev|now filePath|now filePath|filePath| |] s H; cbn [exec].
  - unfold start; destruct (isActive s); [exact H|].
    apply (cacheFromIndex_same
             (fold_left (fun s c => startWatchingConfig h c s)
                (configs (with_isActive true s)) (with_isActive true s)));
      [|reflexivity|reflexivity].
    apply start_loop_cacheFromIndex; now apply (cacheFromIndex_same s).
  - unfold stop; destruct (isActive s); cbn [negb]; [|exact H].
    now apply (cacheFromIndex_same s).
  - now apply deliver_cacheFromIndex.
  - pose proof (collectCached_shrinks now filePath (configs s) s) as [C _].
    pose proof (collectCached_frame now filePath (configs s) s) as [_ [Ed _]].
    unfold getFileDiagnostics.
    destruct (collectCached now filePath (configs s) s) as [ds s1]; cbn [snd] in *.
    apply (cacheFromIndex_shrink s s1 H C); rewrite Ed; apply incl_refl.
  - destruct filePath as [[|c p]|]; cbn [hasErrors snd]; try exact H.
    pose proof (collectCached_shrinks now (String c p) (configs s) s) as [C _].
    pose proof (collectCached_frame now (String c p) (configs s) s) as [_ [Ed _]].
    unfold getFileDiagnostics.
    destruct (collectCached now (String c p) (configs s) s) as [ds s1];
      cbn [snd] in *.
    apply (cacheFromIndex_shrink s s1 H C); rewrite Ed; apply incl_refl.
  - apply (cacheFromIndex_shrink s _ H).
    + unfold clearFileDiagnostics; cbn [cache emit].
      match goal with
      | |- cacheShrinks _ (cache (fold_left _ ?l ?s0)) =>
          apply (cache_deletes_shrinks filePath l s0)
      end.
    + rewrite (proj1 (clearFileDiagnostics_index filePath s)).
      rewrite (JsMap.keys_map_values (JsMap.delete filePath)); apply incl_refl.
  - apply (cacheFromIndex_shrink s _ H).
    + unfold clearAllDiagnostics; cbn [cache emit with_cache].
      apply clear_shrinks.
    + unfold clearAllDiagnostics.
      cbn [diagnosticsByConfig emit with_cache with_diagnosticsByConfig].
      rewrite (JsMap.keys_map_values (fun _ => JsMap.empty)); apply incl_refl.
  - now apply (cacheFromIndex_same s).
Qed.

Lemma run_cacheFromIndex :
  forall cfgs cacheSizeMB ops, cacheFromIndex (run ops (new cfgs cacheSizeMB)).
Proof.
  intros cfgs mb ops; induction ops as [|op ops IH] using rev_ind.
  - split; [apply Cache.new_wf|]; intros key sl E; discriminate.
  - rewrite run_snoc; now apply exec_cacheFromIndex.
Qed.

Lemma delete_slotOf_same :
  forall key (c : Cache.DiagnosticCache loc),
    Cache.wf c -> Cache.slotOf key (Cache.delete key c) = None.
Proof.
  intros key c Hwf.
  destruct (Cache.slotOf key (Cache.delete key c)) as [sl|] eqn:E; [|reflexivity].
  apply Cache.delete_slotOf in E; [|exact Hwf]; destruct E as [E _]; congruence.
Qed.

(** The loop of [clearFileDiagnostics] leaves no slot for the file under the
    key of any project it visits. *)
Lemma cache_deletes_gone :
  forall filePath (l : list (string * JsMap.t loc)) s cfgPath m,
    Cache.wf (cache s) -> In (cfgPath, m) l ->
    Cache.slotOf (cacheKey cfgPath filePath)
      (cache (fold_left
                (fun s '(cfgPath, _) =>
                   with_cache (Cache.delete (cacheKey cfgPath filePath) (cache s)) s)
                l s))
    = None.
Proof.
  intros filePath l; induction l as [|[k v] l IH]; intros s cp m Hwf Hin;
    [destruct Hin|].
  cbn [fold_left].
  set (s1 := with_cache (Cache.delete (cacheKey k filePath) (cache s)) s).
  assert (Hwf1 : Cache.wf (cache s1)) by (apply Cache.delete_wf, Hwf).
  destruct Hin as [E|Hin]; [|now apply (IH s1 cp m)].
  injection E as -> ->.
  destruct (Cache.slotOf (cacheKey cp filePath) (cache (fold_left _ l s1)))
    as [sl|] eqn:Es; [|reflexivity].
  destruct (cache_deletes_shrinks filePath l s1 Hwf1) as [_ Hsl].
  destruct (Hsl _ _ Es) as (sl0 & E0 & _).
  unfold s1 in E0; cbn [cache with_cache] in E0.
  rewrite delete_slotOf_same in E0 by exact Hwf; discriminate.
Qed.

(** X21: [clearFileDiagnostics] forgets the file and nothing else.  In
    every state the manager reaches, afterwards no project has a Bucket for
    the file, the Buckets of all other files are as before, the cache has no
    entry for the file under the key of any started project, and one
    [cleared] event is emitted.  When no config path followed by a colon
    begins a config path of the manager, [getFileDiagnostics] of the file is
    empty afterwards. *)
Theorem clearFileDiagnostics_forgets_the_file :
  forall cfgs cacheSizeMB ops filePath,
    let s := run ops (new cfgs cacheSizeMB) in
    let s' := clearFileDiagnostics filePath s in
    (forall cfgPath, bucket cfgPath filePath s' = None)
    /\ (forall cfgPath other,
          other <> filePath -> bucket cfgPath other s' = bucket cfgPath other s)
    /\ (forall cfgPath now,
          In cfgPath (JsMap.keys (diagnosticsByConfig s)) ->
          cached now cfgPath filePath s' = None)
    /\ emitted s' = emitted s ++ [EvCleared filePath]
    /\ (noColonPrefix cfgs ->
        forall now,
          fst (getFileDiagnostics now filePath s')
          = buildDiagnosticResult now [] filePath false).
Proof.
  intros cfgs mb ops filePath; cbn zeta.
  pose proof (run_wfIndex cfgs mb ops) as Hwi.
  pose proof (run_cacheFromIndex cfgs mb ops) as [Hwf Hfrom].
  pose proof (run_within cfgs mb ops) as Hwithin.
  pose proof (run_configs cfgs mb ops) as Hcfg.
  set (s := run ops (new cfgs mb)) in *.
  destruct (clearFileDiagnostics_index filePath s) as [Hd Ha].
  assert (Hgone : forall cfgPath,
             In cfgPath (JsMap.keys (diagnosticsByConfig s)) ->
             Cache.slotOf (cacheKey cfgPath filePath)
               (cache (clearFileDiagnostics filePath s)) = None).
  { intros cp Hin; unfold JsMap.keys in Hin; apply in_map_iff in Hin.
    destruct Hin as ([cp' m] & E & Hin); cbn in E; subst cp'.
    unfold clearFileDiagnostics; cbn [cache emit].
    now apply (cache_deletes_gone filePath _ _ cp m). }
  split; [|split; [|split; [|split]]].
  - intro cp; now apply clearFileDiagnostics_bucket.
  - intros cp other Hne; unfold bucket, readArray; rewrite Hd, Ha.
    rewrite (JsMap.get_map_values (JsMap.delete filePath)).
    destruct (JsMap.get cp (diagnosticsByConfig s)) as [m|]; cbn [option_map];
      [|reflexivity].
    now rewrite JsMap.get_delete_other.
  - intros cp now Hin; unfold cached.
    now rewrite (Cache.peek_None_of_slotOf now _ _ (Hgone cp Hin)).
  - unfold clearFileDiagnostics.
    match goal with
    | |- emitted (emit _ (fold_left _ ?l ?s0)) = _ =>
        destruct (cache_deletes_frame filePath l s0) as (_ & _ & He)
    end.
    cbn [emitted emit] in *; now rewrite He.
  - intros Hcolon now.
    apply noColonPrefix_unambiguous in Hcolon.
    apply getFileDiagnostics_cold.
    destruct (clearFileDiagnostics_lifecycle filePath s) as (_ & _ & Hc & _).
    rewrite Hc, Hcfg; intros c Hc_in.
    destruct (Cache.slotOf (cacheKey (configPath c) filePath)
                (cache (clearFileDiagnostics filePath s))) as [sl|] eqn:Es;
      [|reflexivity].
    exfalso.
    assert (Hsh : cacheShrinks (cache s) (cache (clearFileDiagnostics filePath s))).
    { unfold clearFileDiagnostics; cbn [cache emit].
      match goal with
      | |- cacheShrinks _ (cache (fold_left _ ?l ?s0)) =>
          apply (cache_deletes_shrinks filePath l s0)
      end. }
    destruct (Hsh Hwf) as [_ Hsl].
    destruct (Hsl _ _ Es) as (sl0 & E0 & _).
    destruct (Hfrom _ _ E0) as (cp' & f' & Ekey & Hin).
    assert (Hin' : In cp' (map configPath cfgs)).
    { apply Hwithin in Hin; now rewrite Hcfg in Hin. }
    destruct (unambiguousKeys_paths cfgs (configPath c) cp' filePath f' Hcolon
                (in_map configPath _ _ Hc_in) Hin' Ekey) as [E1 E2].
    subst cp' f'.
    rewrite (Hgone _ Hin) in Es; discriminate.
Qed.

Lemma clearFileDiagnostics_forgets_the_file_witness :
  bucket "/app/tsconfig.json" "/app/src/b.ts"
    (clearFileDiagnostics "/app/src/a.ts" (run twoPasses (new [app; lib] 100)))
  = bucket "/app/tsconfig.json" "/app/src/b.ts" (run twoPasses (new [app; lib] 100))
  /\ fst (getFileDiagnostics 300 "/app/src/a.ts"
            (clearFileDiagnostics "/app/src/a.ts"
               (run twoPasses (new [app; lib] 100))))
     = buildDiagnosticResult 300 [] "/app/src/a.ts" false.
Proof.
  split.
  - refine (proj1 (proj2 (clearFileDiagnostics_forgets_the_file [app; lib] 100
                            twoPasses "/app/src/a.ts"))
              "/app/tsconfig.json" "/app/src/b.ts" _).
    discriminate.
  - refine (proj2 (proj2 (proj2 (proj2
              (clearFileDiagnostics_forgets_the_file [app; lib] 100
                 twoPasses "/app/src/a.ts")))) _ 300%N).
    apply app_lib_noColonPrefix.
Defined.

(** *** Starting and restarting *)

Lemma in_keys_set :
  forall (V : Type) k (v : V) m k',
    In k' (JsMap.keys (JsMap.set k v m)) <-> In k' (JsMap.keys m) \/ k' = k.
Proof.
  intros V k v m k'.
  destruct (in_dec string_dec k (JsMap.keys m)) as [H|H].
  - rewrite JsMap.keys_set_present by exact H.
    split; [auto|]; intros [G| ->]; assumption.
  - rewrite JsMap.keys_set_absent by exact H.
    rewrite in_app_iff; cbn [In]; split.
    + intros [G|[<-|[]]]; auto.
    + intros [G| ->]; auto.
Qed.

Lemma startWatchingConfig_started :
  forall h c s cfgPath,
    (In cfgPath (JsMap.keys (diagnosticsByConfig (startWatchingConfig h c s)))
     <-> In cfgPath (JsMap.keys (diagnosticsByConfig s))
         \/ (configPath c = cfgPath /\ existsSync h cfgPath = true))
    /\ (In cfgPath (JsMap.keys (watchers (startWatchingConfig h c s)))
        <-> In cfgPath (JsMap.keys (watchers s))
            \/ (configPath c = cfgPath /\ existsSync h cfgPath = true)).
Proof.
  intros h c s cp.
  destruct (startWatchingConfig_lifecycle h c s) as (_ & _ & _ & Hno & Hyes).
  destruct (existsSync h (configPath c)) eqn:E.
  - rewrite (startWatchingConfig_index h c s E).
    rewrite (proj1 (Hyes eq_refl)), !in_keys_set, deliver_all_keys.
    cbn [diagnosticsByConfig with_opened].
    split; (split; [intros [G| ->]; auto|intros [G|[<- _]]; auto]).
  - rewrite (proj1 (Hno eq_refl)).
    unfold startWatchingConfig; rewrite E; cbn [negb].
    split; (split; [auto|intros [G|[<- G]]; [assumption|congruence]]).
Qed.

Lemma start_loop_started :
  forall h cfgs s cfgPath,
    let s' := fold_left (fun s c => startWatchingConfig h c s) cfgs s in
    (In cfgPath (JsMap.keys (diagnosticsByConfig s'))
     <-> In cfgPath (JsMap.keys (diagnosticsByConfig s))
         \/ (exists c, In c cfgs /\ configPath c = cfgPath
                       /\ existsSync h cfgPath = true))
    /\ (In cfgPath (JsMap.keys (watchers s'))
        <-> In cfgPath (JsMap.keys (watchers s))
            \/ (exists c, In c cfgs /\ configPath c = cfgPath
                          /\ existsSync h cfgPath = true)).
Proof.
  intros h cfgs; induction cfgs as [|c cfgs IH]; intros s cp; cbn zeta.
  - cbn [fold_left]; split; (split; [auto|intros [G|(c & [] & _)]; exact G]).
  - cbn [fold_left].
    destruct (IH (startWatchingConfig h c s) cp) as [I1 I2]; cbn zeta in I1, I2.
    destruct (startWatchingConfig_started h c s cp) as [S1 S2].
    rewrite I1, I2, S1, S2; cbn [In].
    split; (split;
      [intros [[G|[G1 G2]]|(c' & G1 & G2)];
         [auto|right; exists c; auto|right; exists c'; auto]
      |intros [G|(c' & [<-|G1] & G2 & G3)];
         [auto|auto|right; exists c'; auto]]).
Qed.

Lemma allEmpty_project :
  forall cfgPath s,
    allEmpty (diagnosticsByConfig s) -> getAllDiagnosticsForConfig cfgPath s = [].
Proof.
  intros cp s H; unfold getAllDiagnosticsForConfig.
  destruct (JsMap.get cp (diagnosticsByConfig s)) as [m|] eqn:E; [|reflexivity].
  apply JsMap.get_In in E; now rewrite (H cp m E).
Qed.

Lemma allEmpty_getAllDiagnostics :
  forall now s,
    allEmpty (diagnosticsByConfig s) ->
    getAllDiagnostics now s = buildDiagnosticResult now [] "all" true.
Proof.
  intros now s H; unfold getAllDiagnostics; f_equal.
  apply flat_map_nil; intros [cp m] _; now apply allEmpty_project.
Qed.

Lemma start_loop_configs :
  forall h cfgs s,
    configs (fold_left (fun s c => startWatchingConfig h c s) cfgs s) = configs s.
Proof.
  intros h cfgs; induction cfgs as [|c cfgs IH]; intro s; [reflexivity|].
  cbn [fold_left]; rewrite IH.
  apply (startWatchingConfig_lifecycle h c s).
Qed.

Lemma start_emits_started :
  forall h s,
    isActive s = false ->
    last (emitted (start h s)) EvStopped = EvStarted (List.length (configs s)).
Proof.
  intros h s H; unfold start; rewrite H.
  cbn [emitted emit]; rewrite last_last; f_equal.
  now rewrite start_loop_configs.
Qed.

(** X22: [start] on a new manager watches exactly the projects whose
    config file exists.  A project has a compiler session and an index
    afterwards if and only if it is configured and its config file exists;
    the others are skipped without an error.  Whatever the compiler reports
    while [createWatchProgram] runs the first build is not stored: all
    queries over the Store are empty when [start] returns.  A diagnostic
    that arrives later for a skipped project is dropped.  The manager is
    active and the [started] event carries the number of configured
    projects, skipped ones included. *)
Theorem start_watches_existing_configs :
  forall cfgs cacheSizeMB h,
    let s := start h (new cfgs cacheSizeMB) in
    (forall cfgPath,
        (exists c, In c cfgs /\ configPath c = cfgPath
                   /\ existsSync h cfgPath = true)
        <-> In cfgPath (JsMap.keys (watchers s)))
    /\ (forall cfgPath,
          In cfgPath (JsMap.keys (watchers s))
          <-> In cfgPath (JsMap.keys (diagnosticsByConfig s)))
    /\ (forall now, getAllDiagnostics now s = buildDiagnosticResult now [] "all" true)
    /\ (forall now c d,
          existsSync h (configPath c) = false -> onDiagnostic now c d s = s)
    /\ isActive s = true
    /\ last (emitted s) EvStopped = EvStarted (List.length cfgs).
Proof.
  intros cfgs mb h; cbn zeta.
  assert (K : forall cp,
             (In cp (JsMap.keys (diagnosticsByConfig (start h (new cfgs mb))))
              <-> exists c, In c cfgs /\ configPath c = cp
                            /\ existsSync h cp = true)
             /\ (In cp (JsMap.keys (watchers (start h (new cfgs mb))))
                 <-> exists c, In c cfgs /\ configPath c = cp
                               /\ existsSync h cp = true)).
  { intro cp; unfold start; cbn [isActive new].
    cbn [diagnosticsByConfig watchers emit configs with_isActive].
    destruct (start_loop_started h cfgs
                (with_isActive true (new cfgs mb)) cp) as [S1 S2].
    cbn zeta in S1, S2; rewrite S1, S2; cbn.
    split; (split; [intros [[]|G]; exact G|auto]). }
  split; [|split; [|split; [|split; [|split]]]].
  - intro cp; symmetry; apply K.
  - intro cp; rewrite (proj1 (K cp)); apply K.
  - intro now; apply allEmpty_getAllDiagnostics, start_allEmpty.
    + reflexivity.
    + split; [constructor|intros cp m []].
    + intros cp m [].
  - intros now c d E; unfold onDiagnostic.
    destruct (JsMap.get (configPath c)
                (diagnosticsByConfig (start h (new cfgs mb)))) eqn:G;
      [|reflexivity].
    apply get_Some_keys, K in G; destruct G as (c' & _ & _ & G); congruence.
  - apply start_isActive.
  - now rewrite start_emits_started.
Qed.

(** A report of the watch status, as opposed to a diagnostic. *)
Definition isStatus (ev : SessionEvent) : bool :=
  match ev with
  | ReportWatchStatus _ _ => true
  | ReportDiagnostic _ _ => false
  end.

Lemma deliver_all_status :
  forall c evs s,
    forallb isStatus evs = true ->
    let s' := fold_left (fun s ev => deliver c ev s) evs s in
    cache s' = cache s /\ arrays s' = arrays s.
Proof.
  intros c evs; induction evs as [|ev evs IH]; intros s H; cbn zeta;
    [split; reflexivity|].
  cbn [forallb] in H; apply andb_true_iff in H; destruct H as [Hev H].
  cbn [fold_left]; destruct (IH (deliver c ev s) H) as [-> ->].
  destruct ev as [now d|now msg]; [discriminate|]; cbn [deliver].
  destruct (onWatchStatusChange_keeps_diagnostics now c msg s) as (_ & Ea & Ec).
  split; assumption.
Qed.

Lemma start_loop_status :
  forall h cfgs s,
    (forall c, In c cfgs -> forallb isStatus (firstBuild h c) = true) ->
    let s' := fold_left (fun s c => startWatchingConfig h c s) cfgs s in
    cache s' = cache s /\ arrays s' = arrays s.
Proof.
  intros h cfgs; induction cfgs as [|c cfgs IH]; intros s Hq; cbn zeta;
    [split; reflexivity|].
  cbn [fold_left].
  destruct (IH (startWatchingConfig h c s)) as [-> ->];
    [intros c' Hc'; apply Hq; now right|].
  unfold startWatchingConfig.
  destruct (existsSync h (configPath c)); cbn [negb]; [|split; reflexivity].
  cbn [cache arrays with_diagnosticsByConfig with_watchers].
  destruct (deliver_all_status c (firstBuild h c) (with_opened (S (opened s)) s))
    as [-> ->]; [apply Hq; now left|].
  split; reflexivity.
Qed.

Lemma collectCached_reads :
  forall now filePath cfgs s1 s2,
    cache s1 = cache s2 -> arrays s1 = arrays s2 ->
    fst (collectCached now filePath cfgs s1)
    = fst (collectCached now filePath cfgs s2).
Proof.
  intros now filePath cfgs; induction cfgs as [|c cfgs IH]; intros s1 s2 Ec Ea;
    [reflexivity|].
  cbn [collectCached]; rewrite Ec.
  destruct (Cache.get now (cacheKey (configPath c) filePath) (cache s2))
    as [cached0 c0].
  specialize (IH (with_cache c0 s1) (with_cache c0 s2) eq_refl Ea).
  destruct (collectCached now filePath cfgs (with_cache c0 s1)) as [more1 t1].
  destruct (collectCached now filePath cfgs (with_cache c0 s2)) as [more2 t2].
  cbn [fst] in *; subst more2.
  unfold readArray; cbn [arrays with_cache]; now rewrite Ea.
Qed.

Lemma stop_inactive : forall s, isActive (stop s) = false.
Proof.
  intro s; unfold stop; destruct (isActive s) eqn:E; cbn [negb]; [reflexivity|exact E].
Qed.

Lemma stop_keeps_diagnostics :
  forall s,
    diagnosticsByConfig (stop s) = diagnosticsByConfig s
    /\ cache (stop s) = cache s /\ arrays (stop s) = arrays s
    /\ configs (stop s) = configs s.
Proof.
  intro s; unfold stop; destruct (isActive s); repeat split; reflexivity.
Qed.

(** Two states whose caches and arrays are the same and which have the same
    index for the projects still to be started. *)
Definition sameDiagnostics (pending : list string) (r p : State) : Prop :=
  cache r = cache p /\ arrays r = arrays p
  /\ forall cfgPath,
       In cfgPath pending ->
       JsMap.get cfgPath (diagnosticsByConfig r)
       = JsMap.get cfgPath (diagnosticsByConfig p).

Lemma deliver_sameDiagnostics :
  forall pending c ev r p,
    In (configPath c) pending ->
    sameDiagnostics pending r p ->
    sameDiagnostics pending (deliver c ev r) (deliver c ev p).
Proof.
  intros pending c [now d|now msg] r p Hin (Ec & Ea & Ei); cbn [deliver].
  - unfold onDiagnostic; cbv zeta; rewrite (Ei _ Hin).
    destruct (JsMap.get (configPath c) (diagnosticsByConfig p)) as [m|];
      [|repeat split; assumption].
    assert (Hidx : forall m' cfgPath,
               In cfgPath pending ->
               JsMap.get cfgPath (JsMap.set (configPath c) m' (diagnosticsByConfig r))
               = JsMap.get cfgPath (JsMap.set (configPath c) m' (diagnosticsByConfig p))).
    { intros m' cp Hcp; destruct (string_dec cp (configPath c)) as [->|Hne].
      - now rewrite !JsMap.get_set_same.
      - rewrite !JsMap.get_set_other by exact Hne; now apply Ei. }
    destruct (JsMap.get (d_file (convertDiagnostic d)) m) as [l|];
      unfold sameDiagnostics;
      cbn [cache arrays diagnosticsByConfig emit with_cache with_arrays
             with_diagnosticsByConfig];
      rewrite Ec, Ea; repeat split; apply Hidx.
  - destruct (onWatchStatusChange_keeps_diagnostics now c msg r) as (Ri & Ra & Rc).
    destruct (onWatchStatusChange_keeps_diagnostics now c msg p) as (Pi & Pa & Pc).
    cbn zeta in *; unfold sameDiagnostics; rewrite Ri, Ra, Rc, Pi, Pa, Pc.
    repeat split; assumption.
Qed.

Lemma deliver_all_sameDiagnostics :
  forall pending c evs r p,
    In (configPath c) pending ->
    sameDiagnostics pending r p ->
    sameDiagnostics pending
      (fold_left (fun s ev => deliver c ev s) evs r)
      (fold_left (fun s ev => deliver c ev s) evs p).
Proof.
  intros pending c evs; induction evs as [|ev evs IH]; intros r p Hin H;
    cbn [fold_left]; [exact H|].
  apply IH; [exact Hin|]; now apply deliver_sameDiagnostics.
Qed.

(** The session events of the first builds, in the order in which [start]
    creates the sessions. *)
Definition firstBuilds (h : Host) (cfgs : list TSProjectConfig) : list Op :=
  flat_map (fun config => map (OpSession config) (firstBuild h config)) cfgs.

Lemma run_session_events :
  forall c evs s,
    run (map (OpSession c) evs) s = fold_left (fun s ev => deliver c ev s) evs s.
Proof.
  intros c evs; induction evs as [|ev evs IH]; intro s; [reflexivity|].
  cbn [map]; unfold run in *; cbn [fold_left exec]; apply IH.
Qed.

Lemma start_loop_sameDiagnostics :
  forall h cfgs r p,
    NoDup (map configPath cfgs) ->
    (forall c, In c cfgs -> existsSync h (configPath c) = true) ->
    sameDiagnostics (map configPath cfgs) r p ->
    let r' := fold_left (fun s c => startWatchingConfig h c s) cfgs r in
    let p' := run (firstBuilds h cfgs) p in
    cache r' = cache p' /\ arrays r' = arrays p'.
Proof.
  intros h cfgs; induction cfgs as [|c cfgs IH]; intros r p Hnd Hex H; cbn zeta.
  - destruct H as (Ec & Ea & _); split; assumption.
  - cbn [fold_left firstBuilds flat_map]; unfold run; rewrite fold_left_app.
    fold (run (map (OpSession c) (firstBuild h c)) p); rewrite run_session_events.
    fold (run (flat_map (fun config => map (OpSession config) (firstBuild h config))
                 cfgs)
              (fold_left (fun s ev => deliver c ev s) (firstBuild h c) p)).
    cbn [map] in Hnd, H; inversion Hnd as [|? ? Hfresh Hnd']; subst.
    apply IH; [exact Hnd'|intros c' Hc'; apply Hex; now right|].
    unfold startWatchingConfig; rewrite (Hex c (or_introl eq_refl)); cbn [negb].
    assert (H0 : sameDiagnostics (configPath c :: map configPath cfgs)
                   (with_opened (S (opened r)) r) p).
    { destruct H as (Ec & Ea & Ei); repeat split; assumption. }
    destruct (deliver_all_sameDiagnostics
                (configPath c :: map configPath cfgs) c (firstBuild h c) _ _
                (or_introl eq_refl) H0) as (Ec & Ea & Ei).
    unfold sameDiagnostics;
      cbn [cache arrays diagnosticsByConfig with_diagnosticsByConfig with_watchers].
    repeat split; [exact Ec|exact Ea|].
    intros cp Hcp.
    rewrite JsMap.get_set_other by (intros ->; exact (Hfresh Hcp)).
    apply Ei; now right.
Qed.

(** X23: a restart empties the Store but not the Cache.  In every state
    the manager reaches, after [stop] and a [start] on which every config
    file exists, [getAllDiagnostics] is empty and no file is counted as
    watched, whatever the first builds report before [createWatchProgram]
    returns.  [getFileDiagnostics] still answers from the Cache.  When the
    first builds only report the watch status, it returns for every path
    exactly what it returned before the restart.  In general, with projects
    that differ in their config path, it returns what it would return
    without the restart after the same reports: a diagnostic of a first
    build is pushed onto the array the Cache holds for its file, although
    the Store does not keep it. *)
Theorem restart_empties_the_store_not_the_cache :
  forall cfgs cacheSizeMB ops h now filePath,
    let s := run ops (new cfgs cacheSizeMB) in
    (forall c, In c cfgs -> existsSync h (configPath c) = true) ->
    let s' := start h (stop s) in
    getAllDiagnostics now s' = buildDiagnosticResult now [] "all" true
    /\ watchedFiles (getStatus s') = 0
    /\ ((forall c, In c cfgs -> forallb isStatus (firstBuild h c) = true) ->
        fst (getFileDiagnostics now filePath s')
        = fst (getFileDiagnostics now filePath s))
    /\ (NoDup (map configPath cfgs) ->
        fst (getFileDiagnostics now filePath s')
        = fst (getFileDiagnostics now filePath (run (firstBuilds h cfgs) s))).
Proof.
  intros cfgs mb ops h now filePath; cbn zeta; intros Hex.
  pose proof (run_wfIndex cfgs mb ops) as Hwi.
  pose proof (run_within cfgs mb ops) as Hwithin.
  pose proof (run_configs cfgs mb ops) as Hcfg.
  pose proof (run_configs cfgs mb (ops ++ firstBuilds h cfgs)) as Hcfg'.
  unfold run in Hcfg'; rewrite fold_left_app in Hcfg'.
  fold (run ops (new cfgs mb)) in Hcfg'.
  fold (run (firstBuilds h cfgs) (run ops (new cfgs mb))) in Hcfg'.
  set (s := run ops (new cfgs mb)) in *.
  destruct (stop_keeps_diagnostics s) as (Sd & Sc & Sa & Sg).
  assert (Hempty : allEmpty (diagnosticsByConfig (start h (stop s)))).
  { apply start_resets.
    - apply stop_inactive.
    - now rewrite Sd.
    - unfold indexWithinConfigs; now rewrite Sd, Sg.
    - rewrite Sg, Hcfg; exact Hex. }
  assert (Hread : forall p,
             cache (start h (stop s)) = cache p ->
             arrays (start h (stop s)) = arrays p ->
             configs p = cfgs ->
             fst (getFileDiagnostics now filePath (start h (stop s)))
             = fst (getFileDiagnostics now filePath p)).
  { intros p Ec Ea Eg.
    assert (Eg' : configs (start h (stop s)) = cfgs).
    { unfold start; rewrite stop_inactive; cbn [configs emit].
      rewrite start_loop_configs; cbn [configs with_isActive]; congruence. }
    pose proof (collectCached_reads now filePath cfgs (start h (stop s)) p Ec Ea)
      as R.
    unfold getFileDiagnostics; rewrite Eg, Eg'.
    destruct (collectCached now filePath cfgs (start h (stop s))) as [ds1 t1].
    destruct (collectCached now filePath cfgs p) as [ds2 t2].
    cbn [fst] in *; now subst ds1. }
  split; [now apply allEmpty_getAllDiagnostics|split; [|split]].
  - cbn [getStatus watchedFiles]; rewrite getTotalFilesWatched_storedFiles.
    unfold storedFiles; now rewrite allEmpty_storedFilesOf.
  - intros Hq.
    destruct (start_loop_status h (configs (with_isActive true (stop s)))
                (with_isActive true (stop s))) as [Ec Ea].
    { cbn [configs with_isActive]; rewrite Sg, Hcfg; exact Hq. }
    cbn zeta in Ec, Ea.
    apply Hread; [| |exact Hcfg];
      unfold start; rewrite stop_inactive; cbn [cache arrays emit];
      [rewrite Ec|rewrite Ea]; cbn [cache arrays with_isActive]; assumption.
  - intros Hnd.
    destruct (start_loop_sameDiagnostics h cfgs (with_isActive true (stop s)) s)
      as [Ec Ea]; [exact Hnd|exact Hex| |].
    { repeat split; cbn [cache arrays diagnosticsByConfig with_isActive];
        [assumption|assumption|intros cp _; now rewrite Sd]. }
    cbn zeta in Ec, Ea.
    apply Hread; [| |exact Hcfg'];
      unfold start; rewrite stop_inactive; cbn [cache arrays emit];
      cbn [configs with_isActive]; rewrite Sg, Hcfg; assumption.
Qed.

(** A first build that only announces itself, and one that also reports an
    error for the file of the two passes. *)
Definition statusHost : Host :=
  {| existsSync := fun _ => true;
     firstBuild := fun _ =>
       [ ReportWatchStatus 250 "Starting compilation in watch mode...";
         ReportWatchStatus 260 "Found 0 errors. Watching for file changes." ] |}.

Definition reportingHost : Host :=
  {| existsSync := fun _ => true;
     firstBuild := fun _ =>
       [ ReportWatchStatus 250 "Starting compilation in watch mode...";
         ReportDiagnostic 255 firstPassError;
         ReportWatchStatus 260 passComplete ] |}.

Lemma restart_empties_the_store_not_the_cache_witness :
  getAllDiagnostics 300 (start reportingHost (stop (run twoPasses (new [app] 100))))
  = buildDiagnosticResult 300 [] "all" true
  /\ fst (getFileDiagnostics 300 "/app/src/a.ts"
            (start statusHost (stop (run twoPasses (new [app] 100)))))
     = fst (getFileDiagnostics 300 "/app/src/a.ts" (run twoPasses (new [app] 100)))
  /\ fst (getFileDiagnostics 300 "/app/src/a.ts"
            (start reportingHost (stop (run twoPasses (new [app] 100)))))
     = fst (getFileDiagnostics 300 "/app/src/a.ts"
              (run (firstBuilds reportingHost [app])
                   (run twoPasses (new [app] 100)))).
Proof.
  split; [|split].
  - refine (proj1 (restart_empties_the_store_not_the_cache [app] 100 twoPasses
                     reportingHost 300 "/app/src/a.ts" _));
      intros; reflexivity.
  - refine (proj1 (proj2 (proj2 (restart_empties_the_store_not_the_cache [app] 100
                            twoPasses statusHost 300 "/app/src/a.ts" _))) _);
      intros; reflexivity.
  - refine (proj2 (proj2 (proj2 (restart_empties_the_store_not_the_cache [app] 100
                            twoPasses reportingHost 300 "/app/src/a.ts" _))) _);
      [intros; reflexivity|].
    constructor; [intros []|constructor].
Defined.

(** With the error of the first build the restarted manager answers three
    diagnostics for the file from the Cache and none from the Store. *)
Example restart_with_a_reported_error :
  let s := start reportingHost (stop (run twoPasses (new [app] 100))) in
  List.length (r_diagnostics (fst (getFileDiagnostics 300 "/app/src/a.ts" s))) = 3
  /\ r_diagnostics (getAllDiagnostics 300 s) = []
  /\ List.length
       (r_diagnostics
          (fst (getFileDiagnostics 300 "/app/src/a.ts"
                  (run twoPasses (new [app] 100))))) = 2.
Proof. repeat split. Qed.

(** *** What a Bucket holds *)

Lemma nth_updateNth_other :
  forall (A : Type) (f : A -> A) (dflt : A) n k (l : list A),
    n <> k -> nth n (updateNth k f l) dflt = nth n l dflt.
Proof.
  intros A f dflt n k l; revert n k; induction l as [|x l IH]; intros n k H;
    [now destruct k|].
  destruct k as [|k], n as [|n]; cbn; try reflexivity; try congruence.
  apply IH; congruence.
Qed.

Lemma nth_app_empty_array :
  forall (h : list (list Diagnostic)) l, nth l (h ++ [[]]) [] = nth l h [].
Proof.
  intros h l; destruct (Nat.lt_ge_cases l (List.length h)) as [H|H].
  - now apply app_nth1.
  - rewrite app_nth2 by exact H; rewrite (nth_overflow h) by exact H.
    destruct (l - List.length h) as [|[|k]]; reflexivity.
Qed.

Lemma in_pushArray :
  forall l0 x (h : list (list Diagnostic)) l d,
    In d (nth l (pushArray l0 x h) []) -> In d (nth l h []) \/ d = x.
Proof.
  intros l0 x h l d; unfold pushArray.
  destruct (Nat.eq_dec l l0) as [->|Hne].
  - destruct (Nat.lt_ge_cases l0 (List.length h)) as [H|H].
    + rewrite nth_updateNth_same by exact H.
      rewrite in_app_iff; cbn [In]; intros [G|[G|[]]]; auto.
    + rewrite nth_overflow by (now rewrite length_updateNth); intros [].
  - rewrite nth_updateNth_other by exact Hne; auto.
Qed.

(** Every array of the index is non-empty and holds diagnostics of the file
    it is filed under. *)
Definition ownFiles (s : State) : Prop :=
  forall cfgPath m fileName l,
    JsMap.get cfgPath (diagnosticsByConfig s) = Some m ->
    JsMap.get fileName m = Some l ->
    readArray l s <> []
    /\ Forall (fun d => d_file d = fileName) (readArray l s).

(** Every diagnostic in an array was announced by a [diagnostic] event. *)
Definition announced (s : State) : Prop :=
  forall l d,
    In d (readArray l s) ->
    exists n, In (EvDiagnostic n (d_file d) d) (emitted s).

Definition bucketsSound (s : State) : Prop :=
  heapWf s /\ ownFiles s /\ announced s.

Lemma ownFiles_index :
  forall s s',
    ownFiles s -> arrays s' = arrays s ->
    (forall cfgPath m' fileName l,
        JsMap.get cfgPath (diagnosticsByConfig s') = Some m' ->
        JsMap.get fileName m' = Some l ->
        exists m, JsMap.get cfgPath (diagnosticsByConfig s) = Some m
                  /\ JsMap.get fileName m = Some l) ->
    ownFiles s'.
Proof.
  intros s s' H Ea Hi cp m' f l Em Ef.
  destruct (Hi cp m' f l Em Ef) as (m & E1 & E2).
  unfold readArray; rewrite Ea; exact (H cp m f l E1 E2).
Qed.

Lemma announced_more :
  forall s s',
    announced s -> arrays s' = arrays s -> incl (emitted s) (emitted s') ->
    announced s'.
Proof.
  intros s s' H Ea Hi l d Hd; unfold readArray in Hd; rewrite Ea in Hd.
  destruct (H l d Hd) as [n Hn]; exists n; now apply Hi.
Qed.

Lemma bucketsSound_same :
  forall s s',
    bucketsSound s ->
    diagnosticsByConfig s' = diagnosticsByConfig s -> arrays s' = arrays s ->
    incl (emitted s) (emitted s') ->
    bucketsSound s'.
Proof.
  intros s s' (Hh & Ho & Ha) Ed Ea Hi; split; [|split].
  - intros cp m f l Em Ef; rewrite Ed in Em; rewrite Ea; eapply Hh; eassumption.
  - apply (ownFiles_index s s' Ho Ea).
    intros cp m f l Em Ef; rewrite Ed in Em; now exists m.
  - now apply (announced_more s).
Qed.

Lemma bucketsSound_shrink :
  forall s s',
    bucketsSound s ->
    indexShrinks (diagnosticsByConfig s) (diagnosticsByConfig s') ->
    arrays s' = arrays s -> incl (emitted s) (emitted s') ->
    bucketsSound s'.
Proof.
  intros s s' (Hh & Ho & Ha) Hs Ea Hi; split; [|split].
  - now apply (heapWf_shrink s).
  - apply (ownFiles_index s s' Ho Ea), Hs.
  - now apply (announced_more s).
Qed.

Lemma onDiagnostic_bucketsSound :
  forall now config d s,
    bucketsSound s -> bucketsSound (onDiagnostic now config d s).
Proof.
  intros now config d s (Hh & Ho & Ha).
  split; [now apply onDiagnostic_heapWf|].
  unfold onDiagnostic.
  destruct (JsMap.get (configPath config) (diagnosticsByConfig s)) as [m|] eqn:Em;
    [|now split].
  set (f0 := d_file (convertDiagnostic d)).
  destruct (JsMap.get f0 m) as [l0|] eqn:Ef; split.
  - (* existing Bucket *)
    intros cp m2 f l.
    unfold readArray;
      cbn [diagnosticsByConfig arrays emit with_cache with_arrays
             with_diagnosticsByConfig].
    intros Em2 Ef2.
    assert (Eold : JsMap.get cp (diagnosticsByConfig s) = Some m2).
    { destruct (string_dec cp (configPath config)) as [->|Hne].
      - rewrite JsMap.get_set_same in Em2; congruence.
      - now rewrite JsMap.get_set_other in Em2. }
    destruct (Ho cp m2 f l Eold Ef2) as [Hne HF]; unfold readArray in *.
    destruct (Nat.eq_dec l l0) as [->|Hl].
    + destruct (Ho _ _ _ _ Em Ef) as [Hne0 HF0]; unfold readArray in *.
      unfold pushArray; rewrite nth_updateNth_same by (eapply Hh; eassumption).
      split; [now destruct (nth l0 (arrays s) [])|].
      apply Forall_app; split; [exact HF|].
      constructor; [|constructor].
      destruct (nth l0 (arrays s) []) as [|x xs]; [congruence|].
      inversion HF; inversion HF0; subst; unfold f0 in *; congruence.
    + unfold pushArray; rewrite nth_updateNth_other by exact Hl; now split.
  - intros l d'.
    unfold readArray; cbn [arrays emitted emit with_cache with_arrays
                             with_diagnosticsByConfig].
    intro Hd; apply in_pushArray in Hd; destruct Hd as [Hd| ->].
    + destruct (Ha l d' Hd) as [n Hn]; exists n; apply in_or_app; now left.
    + exists (name config); apply in_or_app; right; now left.
  - (* new Bucket *)
    intros cp m2 f l.
    unfold readArray;
      cbn [diagnosticsByConfig arrays emit with_cache with_arrays
             with_diagnosticsByConfig].
    intros Em2 Ef2.
    assert (Hnew : nth (List.length (arrays s))
                     (pushArray (List.length (arrays s)) (convertDiagnostic d)
                        (arrays s ++ [[]])) []
                   = [convertDiagnostic d]).
    { unfold pushArray; rewrite nth_updateNth_same
        by (rewrite length_app; cbn [List.length]; lia).
      now rewrite app_nth2, Nat.sub_diag by lia. }
    assert (Hold : forall cp' m' f' l',
               JsMap.get cp' (diagnosticsByConfig s) = Some m' ->
               JsMap.get f' m' = Some l' ->
               nth l' (pushArray (List.length (arrays s)) (convertDiagnostic d)
                         (arrays s ++ [[]])) []
               = nth l' (arrays s) []).
    { intros cp' m' f' l' E1 E2; pose proof (Hh _ _ _ _ E1 E2) as Hlt.
      unfold pushArray; rewrite nth_updateNth_other by lia.
      now apply app_nth1. }
    destruct (string_dec cp (configPath config)) as [->|Hne].
    + rewrite JsMap.get_set_same in Em2; injection Em2 as <-.
      destruct (string_dec f f0) as [->|Hf].
      * rewrite JsMap.get_set_same in Ef2; injection Ef2 as <-.
        rewrite Hnew; split; [discriminate|].
        constructor; [reflexivity|constructor].
      * rewrite JsMap.get_set_other in Ef2 by exact Hf.
        rewrite (Hold _ _ _ _ Em Ef2); exact (Ho _ _ _ _ Em Ef2).
    + rewrite JsMap.get_set_other in Em2 by exact Hne.
      rewrite (Hold _ _ _ _ Em2 Ef2); exact (Ho _ _ _ _ Em2 Ef2).
  - intros l d'.
    unfold readArray; cbn [arrays emitted emit with_cache with_arrays
                             with_diagnosticsByConfig].
    intro Hd; apply in_pushArray in Hd; destruct Hd as [Hd| ->].
    + rewrite nth_app_empty_array in Hd.
      destruct (Ha l d' Hd) as [n Hn]; exists n; apply in_or_app; now left.
    + exists (name config); apply in_or_app; right; now left.
Qed.

Lemma deliver_bucketsSound :
  forall config ev s, bucketsSound s -> bucketsSound (deliver config ev s).
Proof.
  intros config [now d|now msg] s H; cbn [deliver].
  - now apply onDiagnostic_bucketsSound.
  - destruct (onWatchStatusChange_keeps_diagnostics now config msg s)
      as (Ed & Ea & _).
    apply (bucketsSound_same s _ H Ed Ea).
    unfold onWatchStatusChange; destruct (_ || _); [|apply incl_refl].
    cbn [emitted emit with_lastCompilation]; apply incl_appl, incl_refl.
Qed.

Lemma deliver_all_bucketsSound :
  forall config evs s,
    bucketsSound s ->
    bucketsSound (fold_left (fun s ev => deliver config ev s) evs s).
Proof.
  intros config evs; induction evs as [|ev evs IH]; intros s H; [exact H|].
  cbn [fold_left]; apply IH; now apply deliver_bucketsSound.
Qed.

Lemma startWatchingConfig_bucketsSound :
  forall h c s, bucketsSound s -> bucketsSound (startWatchingConfig h c s).
Proof.
  intros h c s H; unfold startWatchingConfig.
  destruct (existsSync h (configPath c)); cbn [negb]; [|exact H].
  set (s2 := fold_left (fun s ev => deliver c ev s) (firstBuild h c)
               (with_opened (S (opened s)) s)).
  assert (H2 : bucketsSound s2).
  { apply deliver_all_bucketsSound.
    apply (bucketsSound_same s _ H); try reflexivity; apply incl_refl. }
  destruct H2 as (Hh & Ho & Ha); split; [|split].
  - intros cp m f l; cbn [diagnosticsByConfig arrays with_diagnosticsByConfig
                            with_watchers].
    destruct (string_dec cp (configPath c)) as [->|Hne].
    + rewrite JsMap.get_set_same; intros [= <-]; discriminate.
    + rewrite JsMap.get_set_other by exact Hne; apply Hh.
  - apply (ownFiles_index s2 _ Ho); [reflexivity|].
    intros cp m f l; cbn [diagnosticsByConfig with_diagnosticsByConfig with_watchers].
    destruct (string_dec cp (configPath c)) as [->|Hne].
    + rewrite JsMap.get_set_same; intros [= <-]; discriminate.
    + rewrite JsMap.get_set_other by exact Hne; intros E1 E2; now exists m.
  - apply (announced_more s2 _ Ha); [reflexivity|apply incl_refl].
Qed.

Lemma start_loop_bucketsSound :
  forall h cfgs s,
    bucketsSound s ->
    bucketsSound (fold_left (fun s c => startWatchingConfig h c s) cfgs s).
Proof.
  intros h cfgs; induction cfgs as [|c cfgs IH]; intros s H; [exact H|].
  cbn [fold_left]; apply IH; now apply startWatchingConfig_bucketsSound.
Qed.

Lemma exec_bucketsSound :
  forall op s,
    wfIndex (diagnosticsByConfig s) -> bucketsSound s -> bucketsSound (exec s op).
Proof.
  intros [h| |config ev|now filePath|now filePath|filePath| |] s Hwi H; cbn [exec].
  - unfold start; destruct (isActive s); [exact H|].
    apply (bucketsSound_same
             (fold_left (fun s c => startWatchingConfig h c s)
                (configs (with_isActive true s)) (with_isActive true s)));
      [|reflexivity|reflexivity|cbn [emitted emit]; apply incl_appl, incl_refl].
    apply start_loop_bucketsSound.
    apply (bucketsSound_same s _ H); try reflexivity; apply incl_refl.
  - unfold stop; destruct (isActive s); cbn [negb]; [|exact H].
    apply (bucketsSound_same s _ H); try reflexivity.
    cbn [emitted emit]; apply incl_appl, incl_refl.
  - now apply deliver_bucketsSound.
  - pose proof (collectCached_shrinks now filePath (configs s) s) as [_ Ee].
    pose proof (collectCached_frame now filePath (configs s) s) as [_ [Ed Ea]].
    unfold getFileDiagnostics.
    destruct (collectCached now filePath (configs s) s) as [ds s1]; cbn [snd] in *.
    apply (bucketsSound_same s s1 H Ed Ea); rewrite Ee; apply incl_refl.
  - destruct filePath as [[|c p]|]; cbn [hasErrors snd]; try exact H.
    pose proof (collectCached_shrinks now (String c p) (configs s) s) as [_ Ee].
    pose proof (collectCached_frame now (String c p) (configs s) s) as [_ [Ed Ea]].
    unfold getFileDiagnostics.
    destruct (collectCached now (String c p) (configs s) s) as [ds s1];
      cbn [snd] in *.
    apply (bucketsSound_same s s1 H Ed Ea); rewrite Ee; apply incl_refl.
  - destruct (clearFileDiagnostics_index filePath s) as [Hd Ha].
    apply (bucketsSound_shrink s _ H); [|exact Ha|].
    + rewrite Hd; split; [apply JsMap.keys_map_values|].
      intros cp m' f l Em Ef.
      rewrite (JsMap.get_map_values (JsMap.delete filePath)) in Em.
      destruct (JsMap.get cp (diagnosticsByConfig s)) as [m|] eqn:E; [|discriminate].
      injection Em as <-; exists m; split; [reflexivity|].
      apply JsMap.get_delete_Some in Ef; [tauto|].
      eapply (proj2 Hwi), JsMap.get_In; eassumption.
    + unfold clearFileDiagnostics.
      match goal with
      | |- incl _ (emitted (emit _ (fold_left _ ?l ?s0))) =>
          destruct (cache_deletes_frame filePath l s0) as (_ & _ & He)
      end.
      cbn [emitted emit] in *; rewrite He; apply incl_appl, incl_refl.
  - apply (bucketsSound_shrink s _ H);
      [|reflexivity|cbn [emitted emit clearAllDiagnostics]; apply incl_appl, incl_refl].
    unfold clearAllDiagnostics.
    cbn [diagnosticsByConfig emit with_cache with_diagnosticsByConfig].
    split; [apply (JsMap.keys_map_values (fun _ => JsMap.empty))|].
    intros cp m' f l Em Ef.
    assert (G : JsMap.get cp
                  (map (fun '(c, _) => (c, @JsMap.empty loc)) (diagnosticsByConfig s))
                = option_map (fun _ => JsMap.empty)
                    (JsMap.get cp (diagnosticsByConfig s)))
      by apply (JsMap.get_map_values (fun _ => JsMap.empty)).
    rewrite G in Em.
    destruct (JsMap.get cp (diagnosticsByConfig s)); [|discriminate].
    injection Em as <-; discriminate.
  - apply (bucketsSound_same s _ H); try reflexivity.
    cbn [emitted emit triggerRecompile]; apply incl_appl, incl_refl.
Qed.

Lemma run_bucketsSound :
  forall cfgs cacheSizeMB ops, bucketsSound (run ops (new cfgs cacheSizeMB)).
Proof.
  intros cfgs mb ops; induction ops as [|op ops IH] using rev_ind.
  - split; [|split].
    + intros cp m f l E; discriminate.
    + intros cp m f l E; discriminate.
    + intros l d; unfold readArray; cbn; now destruct l.
  - rewrite run_snoc; apply exec_bucketsSound; [apply run_wfIndex|exact IH].
Qed.

(** X24: a Bucket holds the diagnostics of its own file.  In every state
    the manager reaches, the Bucket of a file in a project is never empty,
    every diagnostic in it names that file, and each one was announced by a
    [diagnostic] event for the file. *)
Theorem buckets_hold_their_own_file :
  forall cfgs cacheSizeMB ops cfgPath fileName b,
    let s := run ops (new cfgs cacheSizeMB) in
    bucket cfgPath fileName s = Some b ->
    b <> []
    /\ forall d, In d b ->
         d_file d = fileName
         /\ exists n, In (EvDiagnostic n fileName d) (emitted s).
Proof.
  intros cfgs mb ops cp f b; cbn zeta.
  destruct (run_bucketsSound cfgs mb ops) as (_ & Ho & Ha).
  unfold bucket.
  destruct (JsMap.get cp (diagnosticsByConfig (run ops (new cfgs mb))))
    as [m|] eqn:Em; [|discriminate].
  destruct (JsMap.get f m) as [l|] eqn:Ef; [|discriminate].
  intros [= <-]; destruct (Ho cp m f l Em Ef) as [Hne HF].
  split; [exact Hne|]; intros d Hd.
  rewrite Forall_forall in HF; pose proof (HF d Hd) as Hfile.
  split; [exact Hfile|].
  destruct (Ha l d Hd) as [n Hn]; exists n; now rewrite <- Hfile.
Qed.

Lemma buckets_hold_their_own_file_witness :
  [convertDiagnostic firstPassError; convertDiagnostic secondPassError] <> [].
Proof.
  refine (proj1 (buckets_hold_their_own_file [app] 100 twoPasses
                   "/app/tsconfig.json" "/app/src/a.ts" _ _)).
  vm_compute; reflexivity.
Defined.

(** *** The time of the last compilation *)

(** The timestamp carried by the last [compilationComplete] event. *)
Definition lastCompleted (events : list Event) : option N :=
  fold_left (fun acc e =>
               match e with
               | EvCompilationComplete _ timestamp _ _ => Some timestamp
               | _ => acc
               end) events None.

Definition tracksCompletion (s : State) : Prop :=
  lastCompilation s = lastCompleted (emitted s).

Lemma lastCompleted_snoc :
  forall events e,
    lastCompleted (events ++ [e])
    = match e with
      | EvCompilationComplete _ timestamp _ _ => Some timestamp
      | _ => lastCompleted events
      end.
Proof. intros events e; unfold lastCompleted; now rewrite fold_left_app. Qed.

Lemma tracksCompletion_same :
  forall s s',
    tracksCompletion s ->
    lastCompilation s' = lastCompilation s -> emitted s' = emitted s ->
    tracksCompletion s'.
Proof. intros s s' H El Ee; unfold tracksCompletion; now rewrite El, Ee. Qed.

Lemma deliver_tracksCompletion :
  forall config ev s, tracksCompletion s -> tracksCompletion (deliver config ev s).
Proof.
  intros config [now d|now msg] s H; cbn [deliver]; unfold tracksCompletion in *.
  - unfold onDiagnostic.
    destruct (JsMap.get (configPath config) (diagnosticsByConfig s)); [|exact H].
    destruct (JsMap.get (d_file (convertDiagnostic d)) t);
      cbn [lastCompilation emitted emit with_cache with_arrays
             with_diagnosticsByConfig];
      now rewrite lastCompleted_snoc.
  - unfold onWatchStatusChange; destruct (_ || _); [|exact H].
    cbn [lastCompilation emitted emit with_lastCompilation].
    now rewrite lastCompleted_snoc.
Qed.

Lemma deliver_all_tracksCompletion :
  forall config evs s,
    tracksCompletion s ->
    tracksCompletion (fold_left (fun s ev => deliver config ev s) evs s).
Proof.
  intros config evs; induction evs as [|ev evs IH]; intros s H; [exact H|].
  cbn [fold_left]; apply IH; now apply deliver_tracksCompletion.
Qed.

Lemma start_loop_tracksCompletion :
  forall h cfgs s,
    tracksCompletion s ->
    tracksCompletion (fold_left (fun s c => startWatchingConfig h c s) cfgs s).
Proof.
  intros h cfgs; induction cfgs as [|c cfgs IH]; intros s H; [exact H|].
  cbn [fold_left]; apply IH; unfold startWatchingConfig.
  destruct (existsSync h (configPath c)); cbn [negb]; [|exact H].
  apply (tracksCompletion_same
           (fold_left (fun s ev => deliver c ev s) (firstBuild h c)
              (with_opened (S (opened s)) s))); [|reflexivity|reflexivity].
  apply deliver_all_tracksCompletion.
  now apply (tracksCompletion_same s).
Qed.

Lemma collectCached_lastCompilation :
  forall now filePath cfgs s,
    lastCompilation (snd (collectCached now filePath cfgs s)) = lastCompilation s.
Proof.
  intros now filePath cfgs; induction cfgs as [|c cfgs IH]; intro s; [reflexivity|].
  cbn [collectCached].
  destruct (Cache.get now (cacheKey (configPath c) filePath) (cache s))
    as [cached0 c0].
  specialize (IH (with_cache c0 s)).
  destruct (collectCached now filePath cfgs (with_cache c0 s)) as [more s1].
  exact IH.
Qed.

Lemma cache_deletes_lastCompilation :
  forall filePath (l : list (string * JsMap.t loc)) s,
    lastCompilation
      (fold_left
         (fun s '(cfgPath, _) =>
            with_cache (Cache.delete (cacheKey cfgPath filePath) (cache s)) s)
         l s)
    = lastCompilation s.
Proof.
  intros filePath l; induction l as [|[k v] l IH]; intro s; [reflexivity|].
  cbn [fold_left]; now rewrite IH.
Qed.

Lemma exec_tracksCompletion :
  forall op s, tracksCompletion s -> tracksCompletion (exec s op).
Proof.
  intros [h| |config ev|now filePath|now filePath|filePath| |] s H; cbn [exec].
  - unfold start; destruct (isActive s); [exact H|].
    assert (G : tracksCompletion
                  (fold_left (fun s c => startWatchingConfig h c s)
                     (configs (with_isActive true s)) (with_isActive true s))).
    { apply start_loop_tracksCompletion; now apply (tracksCompletion_same s). }
    unfold tracksCompletion in *; cbn [lastCompilation emitted emit].
    now rewrite lastCompleted_snoc.
  - unfold stop; destruct (isActive s); cbn [negb]; [|exact H].
    unfold tracksCompletion in *.
    cbn [lastCompilation emitted emit with_isActive with_watchers with_closed].
    now rewrite lastCompleted_snoc.
  - now apply deliver_tracksCompletion.
  - pose proof (collectCached_shrinks now filePath (configs s) s) as [_ Ee].
    pose proof (collectCached_lastCompilation now filePath (configs s) s) as El.
    unfold getFileDiagnostics.
    destruct (collectCached now filePath (configs s) s) as [ds s1]; cbn [snd] in *.
    now apply (tracksCompletion_same s).
  - destruct filePath as [[|c p]|]; cbn [hasErrors snd]; try exact H.
    pose proof (collectCached_shrinks now (String c p) (configs s) s) as [_ Ee].
    pose proof (collectCached_lastCompilation now (String c p) (configs s) s) as El.
    unfold getFileDiagnostics.
    destruct (collectCached now (String c p) (configs s) s) as [ds s1];
      cbn [snd] in *.
    now apply (tracksCompletion_same s).
  - unfold clearFileDiagnostics, tracksCompletion in *.
    match goal with
    | |- lastCompilation (emit _ (fold_left _ ?l ?s0)) = _ =>
        destruct (cache_deletes_frame filePath l s0) as (_ & _ & He);
        pose proof (cache_deletes_lastCompilation filePath l s0) as El
    end.
    cbn [lastCompilation emitted emit with_diagnosticsByConfig] in *.
    now rewrite lastCompleted_snoc, He, El.
  - unfold clearAllDiagnostics, tracksCompletion in *.
    cbn [lastCompilation emitted emit with_cache with_diagnosticsByConfig].
    now rewrite lastCompleted_snoc.
  - unfold triggerRecompile, tracksCompletion in *.
    cbn [lastCompilation emitted emit]; now rewrite lastCompleted_snoc.
Qed.

(** X25: the [lastCompilation] of the status is the time of the last
    [compilationComplete] event the manager emitted, and absent as long as it
    emitted none, in every state the manager reaches. *)
Theorem lastCompilation_is_last_completion_event :
  forall cfgs cacheSizeMB ops,
    let s := run ops (new cfgs cacheSizeMB) in
    st_lastCompilation (getStatus s) = lastCompleted (emitted s).
Proof.
  intros cfgs mb ops; cbn zeta; cbn [getStatus st_lastCompilation].
  induction ops as [|op ops IH] using rev_ind; [reflexivity|].
  rewrite run_snoc; now apply exec_tracksCompletion.
Qed.

Lemma start_new_started :
  forall cfgs cacheSizeMB h cfgPath,
    (In cfgPath (JsMap.keys (diagnosticsByConfig (start h (new cfgs cacheSizeMB))))
     <-> exists c, In c cfgs /\ configPath c = cfgPath
                   /\ existsSync h cfgPath = true)
    /\ (In cfgPath (JsMap.keys (watchers (start h (new cfgs cacheSizeMB))))
        <-> exists c, In c cfgs /\ configPath c = cfgPath
                      /\ existsSync h cfgPath = true).
Proof.
  intros cfgs mb h cp; unfold start; cbn [isActive new].
  cbn [diagnosticsByConfig watchers emit configs with_isActive].
  destruct (start_loop_started h cfgs (with_isActive true (new cfgs mb)) cp)
    as [S1 S2].
  cbn zeta in S1, S2; rewrite S1, S2; cbn.
  split; (split; [intros [[]|G]; exact G|auto]).
Qed.

Lemma start_watches_existing_configs_witness :
  onDiagnostic 100 lib firstPassError (start partialHost (new [app; lib] 100))
  = start partialHost (new [app; lib] 100).
Proof.
  refine (proj1 (proj2 (proj2 (proj2
            (start_watches_existing_configs [app; lib] 100 partialHost))))
            100%N lib firstPassError _).
  reflexivity.
Defined.

End Manager.

(** ** Workspace detection of [utils/workspace.ts] *)

Module Workspace.

Import Types.

Inductive WorkspaceType : Type := pnpm | yarn | npm | rush | lerna | single.

(** [interface WorkspaceInfo]. *)
Record WorkspaceInfo : Type := mkInfo {
  type : WorkspaceType;
  packages : list TSProjectConfig;
  rootConfig : option string
}.

(** *** What the code reads from outside

    [JSON.parse] returns an untyped value that the code uses at fixed
    types; a parsed document is the record of the fields the code reads.  A
    field is [None] when it is absent or falsy and has the type it is used
    at otherwise; a document that does not parse is [None]. *)

(** The [workspaces] field of a [package.json]: an array of patterns, or an
    object with an optional [packages] array. *)
Inductive WorkspacesField : Type :=
| WsArray (patterns : list string)
| WsObject (pkgs : option (list string)).

Record PackageJson : Type := mkPackageJson {
  pj_name : option string;
  pj_workspaces : option WorkspacesField;
  pj_packageManager : option string
}.

Record RushProject : Type := mkRushProject {
  projectFolder : string;
  packageName : string
}.

Record RushJson : Type := mkRushJson {
  rush_projects : option (list RushProject)
}.

Record LernaJson : Type := mkLernaJson {
  lerna_packages : option (list string)
}.

(** What a path of the file system names: a regular file that can be read,
    with its content, or something that exists and cannot be read as a file
    (a directory, a file without read permission), with the error code of
    the attempt ([EISDIR], [EACCES]). *)
Inductive Node : Type :=
| RegularFile (content : string)
| Unreadable (code : string).

(** The file system, [node:path], [fast-glob], [JSON.parse] at the three
    document types, and the two regular expressions with which
    [detectPnpmWorkspaces] reads the YAML manifest: the one that captures
    the block under [packages:] and the one that strips the dash and the
    quotes of a list item. *)
Record Sys : Type := mkSys {
  node : string -> option Node;
  join : string -> string -> string;
  dirname : string -> string;
  glob : list string -> string -> list string;
  parsePackageJson : string -> option PackageJson;
  parseRushJson : string -> option RushJson;
  parseLernaJson : string -> option LernaJson;
  matchPackagesBlock : string -> option string;
  stripListItem : string -> string
}.

Section WithSys.
Variable sys : Sys.

Definition existsSync (p : string) : bool :=
  match node sys p with
  | Some _ => true
  | None => false
  end.

Definition readFileSync (p : string) : Result string :=
  match node sys p with
  | Some (RegularFile content) => Ok content
  | Some (Unreadable code) => Throw (IoError code)
  | None => Throw (IoError "ENOENT")
  end.

(** The content of a path that is a readable regular file. *)
Definition fileContent (p : string) : option string :=
  match node sys p with
  | Some (RegularFile content) => Some content
  | _ => None
  end.

Definition parseWith {A : Type} (parse : string -> option A) (content : string)
  : Result A :=
  match parse content with
  | Some doc => Ok doc
  | None => Throw (SyntaxError "Unexpected token in JSON")
  end.

(** *** String primitives *)

(** [s.split('\n')]. *)
Fixpoint splitLines (s : string) : list string :=
  match s with
  | EmptyString => [EmptyString]
  | String c s' =>
      if Nat.eqb (nat_of_ascii c) 10 then EmptyString :: splitLines s'
      else match splitLines s' with
           | l :: ls => String c l :: ls
           | [] => [String c EmptyString]
           end
  end.

(** The white space and line terminators that [trim] strips, among the
    code units a character of a [string] stands for (0 to 255): tab to
    carriage return, space, and the no-break space U+00A0. *)
Definition isSpace (c : ascii) : bool :=
  let n := nat_of_ascii c in
  Nat.eqb n 32 || ((9 <=? n) && (n <=? 13)) || Nat.eqb n 160.

Fixpoint trimStart (s : string) : string :=
  match s with
  | String c s' => if isSpace c then trimStart s' else s
  | EmptyString => EmptyString
  end.

Fixpoint trimEnd (s : string) : string :=
  match s with
  | EmptyString => EmptyString
  | String c s' =>
      match trimEnd s' with
      | EmptyString => if isSpace c then EmptyString else String c EmptyString
      | t => String c t
      end
  end.

(** [s.trim()]. *)
Definition trim (s : string) : string := trimEnd (trimStart s).

(** [s.split('/').pop()]: what follows the last slash. *)
Fixpoint lastSegment (s : string) : string :=
  match s with
  | EmptyString => EmptyString
  | String c s' =>
      if Glob.includes "/" s' then lastSegment s'
      else if Ascii.eqb c "/"%char then s' else s
  end.

(** *** The resolvers *)

(** The loop shared by the pnpm, npm/yarn and Lerna resolvers: a package
    without a sibling [tsconfig.json] is skipped, and so is one whose
    manifest cannot be read or parsed (the [try]/[catch]). *)
Fixpoint packagesToConfigs (packagePaths : list string) : list TSProjectConfig :=
  match packagePaths with
  | [] => []
  | pkgPath :: rest =>
      let dir := dirname sys pkgPath in
      let tsconfigPath := join sys dir "tsconfig.json" in
      if negb (existsSync tsconfigPath) then packagesToConfigs rest
      else
        match (let* content := readFileSync pkgPath in
               parseWith (parsePackageJson sys) content) with
        | Ok pkg =>
            {| configPath := tsconfigPath;
               name := Some (match pj_name pkg with
                             | Some (String c n) => String c n
                             | _ => lastSegment (dirname sys pkgPath)
                             end);
               rootDir := Some dir |} :: packagesToConfigs rest
        | Throw _ => packagesToConfigs rest
        end
  end.

Definition manifestGlobs (patterns : list string) : list string :=
  map (fun p => (p ++ "/package.json")%string) patterns.

Definition detectPnpmWorkspaces (projectRoot : string)
  : Result (list TSProjectConfig) :=
  let workspaceFile := join sys projectRoot "pnpm-workspace.yaml" in
  let* content := readFileSync workspaceFile in
  match matchPackagesBlock sys content with
  | None => Ok []
  | Some block =>
      let patterns :=
        map (stripListItem sys)
            (filter (String.prefix "-") (map trim (splitLines block))) in
      let packagePaths := glob sys (manifestGlobs patterns) projectRoot in
      Ok (packagesToConfigs packagePaths)
  end.

Definition detectNpmWorkspaces (projectRoot : string) (workspaces : WorkspacesField)
  : Result (list TSProjectConfig) :=
  let* patterns :=
    match workspaces with
    | WsArray ps => Ok ps
    | WsObject (Some ps) => Ok ps
    | WsObject None =>
        Throw (TypeError "Cannot read properties of undefined (reading 'map')")
    end in
  let packagePaths := glob sys (manifestGlobs patterns) projectRoot in
  Ok (packagesToConfigs packagePaths).

Fixpoint rushConfigs (projectRoot : string) (projects : list RushProject)
  : list TSProjectConfig :=
  match projects with
  | [] => []
  | project :: rest =>
      let dir := join sys projectRoot (projectFolder project) in
      let tsconfigPath := join sys dir "tsconfig.json" in
      if negb (existsSync tsconfigPath) then rushConfigs projectRoot rest
      else {| configPath := tsconfigPath;
              name := Some (packageName project);
              rootDir := Some dir |} :: rushConfigs projectRoot rest
  end.

Definition detectRushWorkspaces (projectRoot : string)
  : Result (list TSProjectConfig) :=
  let rushJson := join sys projectRoot "rush.json" in
  let* content := readFileSync rushJson in
  let* config := parseWith (parseRushJson sys) content in
  match rush_projects config with
  | Some projects => Ok (rushConfigs projectRoot projects)
  | None => Throw (TypeError "config.projects is not iterable")
  end.

Definition detectLernaWorkspaces (projectRoot : string)
  : Result (list TSProjectConfig) :=
  let lernaJson := join sys projectRoot "lerna.json" in
  let* content := readFileSync lernaJson in
  let* config := parseWith (parseLernaJson sys) content in
  let patterns := match lerna_packages config with
                  | Some ps => ps
                  | None => ["packages/*"]
                  end in
  let packagePaths := glob sys (manifestGlobs patterns) projectRoot in
  Ok (packagesToConfigs packagePaths).

(** *** [detectWorkspace] *)

Definition withRootConfig (projectRoot : string) (t : WorkspaceType)
    (pkgs : list TSProjectConfig) : WorkspaceInfo :=
  {| type := t; packages := pkgs;
     rootConfig := Some (join sys projectRoot "tsconfig.json") |}.

Definition singleProject (projectRoot : string) : WorkspaceInfo :=
  {| type := single;
     packages := [ {| configPath := join sys projectRoot "tsconfig.json";
                      name := Some "root";
                      rootDir := Some projectRoot |} ];
     rootConfig := None |}.

(** The second probe: [Ok None] when it falls through to the next one. *)
Definition probePackageJson (projectRoot : string) : Result (option WorkspaceInfo) :=
  let packageJson := join sys projectRoot "package.json" in
  if existsSync packageJson then
    let* content := readFileSync packageJson in
    let* pkg := parseWith (parsePackageJson sys) content in
    match pj_workspaces pkg with
    | Some workspaces =>
        let* pkgs := detectNpmWorkspaces projectRoot workspaces in
        Ok (Some (withRootConfig projectRoot
                    (match pj_packageManager pkg with
                     | Some pm => if String.prefix "yarn" pm then yarn else npm
                     | None => npm
                     end) pkgs))
    | None => Ok None
    end
  else Ok None.

Definition detectWorkspace (projectRoot : string) : Result WorkspaceInfo :=
  let pnpmWorkspace := join sys projectRoot "pnpm-workspace.yaml" in
  if existsSync pnpmWorkspace then
    let* pkgs := detectPnpmWorkspaces projectRoot in
    Ok (withRootConfig projectRoot pnpm pkgs)
  else
    let* npmOrYarn := probePackageJson projectRoot in
    match npmOrYarn with
    | Some info => Ok info
    | None =>
        let rushJson := join sys projectRoot "rush.json" in
        if existsSync rushJson then
          let* pkgs := detectRushWorkspaces projectRoot in
          Ok (withRootConfig projectRoot rush pkgs)
        else
          let lernaJson := join sys projectRoot "lerna.json" in
          if existsSync lernaJson then
            let* pkgs := detectLernaWorkspaces projectRoot in
            Ok (withRootConfig projectRoot lerna pkgs)
          else Ok (singleProject projectRoot)
    end.

(** *** The order of the probes *)




Definition npmOrYarn (pkg : PackageJson) : WorkspaceType :=
  match pj_packageManager pkg with
  | Some pm => if String.prefix "yarn" pm then yarn else npm
  | None => npm
  end.

Lemma fileContent_read :
  forall p content,
    fileContent p = Some content ->
    existsSync p = true /\ readFileSync p = Ok content.
Proof.
  intros p content; unfold fileContent, existsSync, readFileSync.
  destruct (node sys p) as [[c|code]|]; try discriminate.
  intros [= ->]; split; reflexivity.
Qed.




End WithSys.








(** *** A monorepo on a small file system *)

Fixpoint dirnameOf (s : string) : string :=
  match s with
  | EmptyString => EmptyString
  | String c s' => if Glob.includes "/" s' then String c (dirnameOf s') else EmptyString
  end.

Definition lookup {A : Type} (table : list (string * A)) (k : string) : option A :=
  JsMap.get k table.

(** A host over a table of paths.  The globs and the documents are the ones
    of the sample trees below. *)
Definition tableNodes (files : list (string * Node)) : Sys :=
  {| node := lookup files;
     join := fun a b => (a ++ "/" ++ b)%string;
     dirname := dirnameOf;
     glob := fun patterns cwd =>
       filter (fun p => match lookup files p with Some _ => true | None => false end)
         (flat_map (fun pattern =>
            if String.eqb pattern "packages/*/package.json"
            then [ (cwd ++ "/packages/a/package.json")%string;
                   (cwd ++ "/packages/b/package.json")%string ]
            else if String.eqb pattern "apps/*/package.json"
            then [ (cwd ++ "/apps/web/package.json")%string ]
            else []) patterns);
     parsePackageJson := fun content =>
       if String.eqb content "root manifest with workspaces"
       then Some (mkPackageJson (Some "root") (Some (WsArray ["apps/*"])) (Some "yarn@3.6.0"))
       else if String.eqb content "root manifest"
       then Some (mkPackageJson (Some "root") None None)
       else if String.eqb content "manifest of a"
       then Some (mkPackageJson (Some "@x/a") None None)
       else if String.eqb content "manifest of b"
       then Some (mkPackageJson (Some "@x/b") None None)
       else if String.eqb content "manifest of web"
       then Some (mkPackageJson None None None)
       else None;
     parseRushJson := fun content =>
       if String.eqb content "rush manifest"
       then Some (mkRushJson (Some [mkRushProject "packages/a" "@x/a"]))
       else None;
     parseLernaJson := fun content =>
       if String.eqb content "lerna manifest" then Some (mkLernaJson None) else None;
     matchPackagesBlock := fun content =>
       if String.eqb content "pnpm manifest"
       then Some ("  - 'packages/*'" ++ String (ascii_of_nat 10) "")%string
       else None;
     stripListItem := fun line =>
       if String.eqb line "- 'packages/*'" then "packages/*" else line |}.

(** A host on which every path of the table is a readable file. *)
Definition tableSys (files : list (string * string)) : Sys :=
  tableNodes (map (fun '(p, content) => (p, RegularFile content)) files).

(** Package [a] has a [tsconfig.json], package [b] has none. *)
Definition packageFiles : list (string * string) :=
  [ ("/r/packages/a/package.json", "manifest of a");
    ("/r/packages/a/tsconfig.json", "{}");
    ("/r/packages/b/package.json", "manifest of b");
    ("/r/apps/web/package.json", "manifest of web");
    ("/r/apps/web/tsconfig.json", "{}") ].

Definition configOf (dir n : string) : TSProjectConfig :=
  {| configPath := (dir ++ "/tsconfig.json")%string; name := Some n;
     rootDir := Some dir |}.

Definition bothMarkers : Sys :=
  tableSys (("/r/pnpm-workspace.yaml", "pnpm manifest")
            :: ("/r/package.json", "root manifest with workspaces")
            :: ("/r/rush.json", "rush manifest")
            :: packageFiles).

Definition yarnOnly : Sys :=
  tableSys (("/r/package.json", "root manifest with workspaces")
            :: ("/r/lerna.json", "lerna manifest") :: packageFiles).




Example detect_bothMarkers :
  detectWorkspace bothMarkers "/r"
  = Ok {| type := pnpm;
          packages := [configOf "/r/packages/a" "@x/a"];
          rootConfig := Some "/r/tsconfig.json" |}.
Proof. reflexivity. Qed.

Example detect_yarnOnly :
  detectWorkspace yarnOnly "/r"
  = Ok {| type := yarn;
          packages := [configOf "/r/apps/web" "web"];
          rootConfig := Some "/r/tsconfig.json" |}.
Proof. reflexivity. Qed.

(** What the probes do not cover: a root [package.json] that does not parse
    is neither a match nor a miss; without a pnpm manifest before it,
    detection ends with the error of [JSON.parse]. *)
Definition brokenRootManifest : Sys :=
  tableSys (("/r/package.json", "{ not json")
            :: ("/r/rush.json", "rush manifest") :: packageFiles).

Example unparseable_root_manifest_throws :
  detectWorkspace brokenRootManifest "/r"
  = Throw (SyntaxError "Unexpected token in JSON").
Proof. reflexivity. Qed.



(** *** What the resolvers return *)

Section Resolved.
Variable sys : Sys.



(** The shared loop keeps exactly the packages that have a [tsconfig.json]
    next to a manifest that can be read and parsed. *)
Lemma packagesToConfigs_complete :
  forall packagePaths pkgPath content pkg,
    In pkgPath packagePaths ->
    existsSync sys (join sys (dirname sys pkgPath) "tsconfig.json") = true ->
    fileContent sys pkgPath = Some content ->
    parsePackageJson sys content = Some pkg ->
    exists c,
      In c (packagesToConfigs sys packagePaths)
      /\ configPath c = join sys (dirname sys pkgPath) "tsconfig.json".
Proof.
  induction packagePaths as [|p rest IH]; intros pkgPath content pkg Hin He Hc Hp;
    [destruct Hin|].
  cbn [packagesToConfigs]; cbv zeta.
  destruct Hin as [->|Hin].
  - rewrite He; cbn [negb]; unfold parseWith.
    rewrite (proj2 (fileContent_read sys _ _ Hc)); cbn [bind]; rewrite Hp.
    eexists; split; [left; reflexivity|reflexivity].
  - destruct (IH pkgPath content pkg Hin He Hc Hp) as (c & Hc_in & Hc_path).
    exists c; split; [|exact Hc_path].
    destruct (existsSync sys (join sys (dirname sys p) "tsconfig.json"));
      cbn [negb]; [|exact Hc_in].
    destruct (let* content0 := readFileSync sys p in
              parseWith (parsePackageJson sys) content0);
      [right|]; exact Hc_in.
Qed.




End Resolved.


End Workspace.

(** ** Configuration ([utils/config.ts])

    A configuration is a JavaScript object.  A property of an object is
    absent, or present with a value, or present with the value [undefined];
    the object spread [{...a, ...b}] takes from [b] every property that [b]
    has, whatever its value, and the others from [a]. *)

Module Config.

Import Types.

Inductive Field (A : Type) : Type :=
| Absent
| Present (v : option A).

Arguments Absent {A}.
Arguments Present {A} v.

Definition spreadField {A : Type} (target source : Field A) : Field A :=
  match source with
  | Absent => target
  | Present _ => source
  end.

(** Reading a property: [undefined] when it is absent. *)
Definition read {A : Type} (f : Field A) : option A :=
  match f with
  | Present v => v
  | Absent => None
  end.

Definition value {A : Type} (a : A) : Field A := Present (Some a).

(** A number of the configuration; [parseInt] gives [NaN] for a text that
    does not begin with a number. *)
Inductive JsNumber : Type := NaN | Num (z : Z).

(** [TSProjectConfig[] | string]. *)
Inductive TsConfigs : Type :=
| ConfigPath (path : string)
| ConfigList (projects : list TSProjectConfig).

(** [Partial<MCPConfig>]; [MCPConfig] itself is used at this type, the code
    relying on [projectRoot] and [tsConfigs] being there. *)
Record MCPConfig : Type := mkConfig {
  projectRoot : Field string;
  tsConfigs : Field TsConfigs;
  maxCacheSize : Field JsNumber;
  debounceMs : Field JsNumber;
  maxConcurrentQueries : Field JsNumber;
  healthCheckInterval : Field JsNumber;
  autoRestartOnCrash : Field bool;
  fallbackToDirectTsc : Field bool;
  enableIncrementalMode : Field bool;
  enablePersistentCache : Field bool;
  autoDetectWorkspaces : Field bool;
  workspacePatterns : Field (list string);
  ignorePatterns : Field (list string)
}.

(** [{...target, ...source}]. *)
Definition spread (target source : MCPConfig) : MCPConfig :=
  {| projectRoot := spreadField (projectRoot target) (projectRoot source);
     tsConfigs := spreadField (tsConfigs target) (tsConfigs source);
     maxCacheSize := spreadField (maxCacheSize target) (maxCacheSize source);
     debounceMs := spreadField (debounceMs target) (debounceMs source);
     maxConcurrentQueries :=
       spreadField (maxConcurrentQueries target) (maxConcurrentQueries source);
     healthCheckInterval :=
       spreadField (healthCheckInterval target) (healthCheckInterval source);
     autoRestartOnCrash :=
       spreadField (autoRestartOnCrash target) (autoRestartOnCrash source);
     fallbackToDirectTsc :=
       spreadField (fallbackToDirectTsc target) (fallbackToDirectTsc source);
     enableIncrementalMode :=
       spreadField (enableIncrementalMode target) (enableIncrementalMode source);
     enablePersistentCache :=
       spreadField (enablePersistentCache target) (enablePersistentCache source);
     autoDetectWorkspaces :=
       spreadField (autoDetectWorkspaces target) (autoDetectWorkspaces source);
     workspacePatterns :=
       spreadField (workspacePatterns target) (workspacePatterns source);
     ignorePatterns := spreadField (ignorePatterns target) (ignorePatterns source) |}.

Definition DEFAULT_CONFIG : MCPConfig :=
  {| projectRoot := Absent;
     tsConfigs := Absent;
     maxCacheSize := value (Num 100);
     debounceMs := value (Num 500);
     maxConcurrentQueries := value (Num 10);
     healthCheckInterval := value (Num 30000);
     autoRestartOnCrash := value true;
     fallbackToDirectTsc := value true;
     enableIncrementalMode := value true;
     enablePersistentCache := value false;
     autoDetectWorkspaces := value true;
     workspacePatterns := Absent;
     ignorePatterns := value Glob.DEFAULT_IGNORE_PATTERNS |}.

(** The four variables of [process.env] that [loadConfig] reads. *)
Record Env : Type := mkEnv {
  TS_DIAG_MAX_CACHE_SIZE : option string;
  TS_DIAG_DEBOUNCE_MS : option string;
  TS_DIAG_INCREMENTAL : option string;
  TS_DIAG_AUTO_DETECT : option string
}.

(** The configuration file as [JSON.parse] returns it: an object of which
    a property is absent, or present with a value of the type [MCPConfig]
    declares, or present with [null] ([Present None]).  The code only tests
    such a property for truth or against [false], so [null] also stands for
    the other falsy values that are no value of the type ([false], [0] or
    the empty string where an array is declared). *)
Record FileConfig : Type := mkFile {
  f_projectRoot : Field string;
  f_tsConfigs : Field TsConfigs;
  f_maxCacheSize : Field Z;
  f_debounceMs : Field Z;
  f_maxConcurrentQueries : Field Z;
  f_healthCheckInterval : Field Z;
  f_autoRestartOnCrash : Field bool;
  f_fallbackToDirectTsc : Field bool;
  f_enableIncrementalMode : Field bool;
  f_enablePersistentCache : Field bool;
  f_autoDetectWorkspaces : Field bool;
  f_workspacePatterns : Field (list string);
  f_ignorePatterns : Field (list string)
}.

Definition number (f : Field Z) : Field JsNumber :=
  match f with
  | Absent => Absent
  | Present v => Present (option_map Num v)
  end.

Definition ofFile (f : FileConfig) : MCPConfig :=
  {| projectRoot := f_projectRoot f;
     tsConfigs := f_tsConfigs f;
     maxCacheSize := number (f_maxCacheSize f);
     debounceMs := number (f_debounceMs f);
     maxConcurrentQueries := number (f_maxConcurrentQueries f);
     healthCheckInterval := number (f_healthCheckInterval f);
     autoRestartOnCrash := f_autoRestartOnCrash f;
     fallbackToDirectTsc := f_fallbackToDirectTsc f;
     enableIncrementalMode := f_enableIncrementalMode f;
     enablePersistentCache := f_enablePersistentCache f;
     autoDetectWorkspaces := f_autoDetectWorkspaces f;
     workspacePatterns := f_workspacePatterns f;
     ignorePatterns := f_ignorePatterns f |}.

Definition emptyFile : FileConfig :=
  mkFile Absent Absent Absent Absent Absent Absent Absent Absent Absent Absent
         Absent Absent Absent.

(** What [JSON.parse] makes of the text of the configuration file: [null],
    or a value seen as an object with the properties the code reads. *)
Inductive Parsed : Type :=
| ParsedNull
| ParsedValue (f : FileConfig).

(** What [loadConfig] reads from outside: the files (with [node:path] and
    the workspace resolvers' parsers), the environment, [parseInt], and
    [JSON.parse] at the type of the configuration file, [None] for a text
    that does not parse. *)
Record Host : Type := mkHost {
  files : Workspace.Sys;
  env : Env;
  parseInt : string -> JsNumber;
  parseConfig : string -> option Parsed
}.

(** [process.env.X ? parseInt(process.env.X) : undefined]. *)
Definition envNumber (h : Host) (variable : option string) : option JsNumber :=
  match variable with
  | Some (String c v) => Some (parseInt h (String c v))
  | _ => None
  end.

Definition envIs (variable : option string) (text : string) : bool :=
  match variable with
  | Some v => String.eqb v text
  | None => false
  end.

Definition envConfig (h : Host) : MCPConfig :=
  {| projectRoot := Absent;
     tsConfigs := Absent;
     maxCacheSize := Present (envNumber h (TS_DIAG_MAX_CACHE_SIZE (env h)));
     debounceMs := Present (envNumber h (TS_DIAG_DEBOUNCE_MS (env h)));
     maxConcurrentQueries := Absent;
     healthCheckInterval := Absent;
     autoRestartOnCrash := Absent;
     fallbackToDirectTsc := Absent;
     enableIncrementalMode :=
       Present (if envIs (TS_DIAG_INCREMENTAL (env h)) "true"
                then Some true else None);
     enablePersistentCache := Absent;
     autoDetectWorkspaces :=
       Present (if envIs (TS_DIAG_AUTO_DETECT (env h)) "false"
                then Some false else None);
     workspacePatterns := Absent;
     ignorePatterns := Absent |}.

(** The configuration file, [{}] when it is missing, cannot be read or does
    not parse. *)
Definition parsedFile (h : Host) (projectRoot : string) : Parsed :=
  let configPath := Workspace.join (files h) projectRoot ".ts-diagnostics.json" in
  if Workspace.existsSync (files h) configPath then
    match (let* content := Workspace.readFileSync (files h) configPath in
           Workspace.parseWith (parseConfig h) content) with
    | Ok parsed => parsed
    | Throw _ => ParsedValue emptyFile
    end
  else ParsedValue emptyFile.

(** The properties that the spread [...fileConfig] copies; [null] has
    none. *)
Definition fileConfigOf (h : Host) (projectRoot : string) : MCPConfig :=
  match parsedFile h projectRoot with
  | ParsedValue f => ofFile f
  | ParsedNull => ofFile emptyFile
  end.

Definition with_ignorePatterns (patterns : list string) (c : MCPConfig)
  : MCPConfig :=
  mkConfig (projectRoot c) (tsConfigs c) (maxCacheSize c) (debounceMs c)
           (maxConcurrentQueries c) (healthCheckInterval c) (autoRestartOnCrash c)
           (fallbackToDirectTsc c) (enableIncrementalMode c)
           (enablePersistentCache c) (autoDetectWorkspaces c)
           (workspacePatterns c) (value patterns).

Definition with_tsConfigs (t : TsConfigs) (c : MCPConfig) : MCPConfig :=
  mkConfig (projectRoot c) (value t) (maxCacheSize c) (debounceMs c)
           (maxConcurrentQueries c) (healthCheckInterval c) (autoRestartOnCrash c)
           (fallbackToDirectTsc c) (enableIncrementalMode c)
           (enablePersistentCache c) (autoDetectWorkspaces c)
           (workspacePatterns c) (ignorePatterns c).

(** [config.autoDetectWorkspaces !== false]. *)
Definition shouldAutoDetect (c : MCPConfig) : bool :=
  match read (autoDetectWorkspaces c) with
  | Some false => false
  | _ => true
  end.

Definition loadConfig (h : Host) (root : string) : Result MCPConfig :=
  let fileConfig := fileConfigOf h root in
  let envConfig := envConfig h in
  let config :=
    spread (spread (spread {| projectRoot := value root;
                              tsConfigs := value (ConfigPath "");
                              maxCacheSize := Absent; debounceMs := Absent;
                              maxConcurrentQueries := Absent;
                              healthCheckInterval := Absent;
                              autoRestartOnCrash := Absent;
                              fallbackToDirectTsc := Absent;
                              enableIncrementalMode := Absent;
                              enablePersistentCache := Absent;
                              autoDetectWorkspaces := Absent;
                              workspacePatterns := Absent;
                              ignorePatterns := Absent |}
                           DEFAULT_CONFIG)
                   fileConfig)
           envConfig in
  (* fileConfig.ignorePatterns *)
  match parsedFile h root with
  | ParsedNull =>
      Throw (TypeError "Cannot read properties of null (reading 'ignorePatterns')")
  | ParsedValue _ =>
      (* an array is truthy, also the empty one; envConfig has no
         ignorePatterns; a property that is absent or null in the file skips
         the merge *)
      let config :=
        match read (ignorePatterns fileConfig) with
        | Some userPatterns =>
            with_ignorePatterns (Glob.DEFAULT_IGNORE_PATTERNS ++ userPatterns)
                                config
        | None => config
        end in
      if shouldAutoDetect config then
        let* workspace := Workspace.detectWorkspace (files h) root in
        if 0 <? List.length (Workspace.packages workspace)
        then Ok (with_tsConfigs (ConfigList (Workspace.packages workspace)) config)
        else
          let rootTsConfig := Workspace.join (files h) root "tsconfig.json" in
          Ok (with_tsConfigs (ConfigPath rootTsConfig) config)
      else Ok config
  end.

(** [s.replace(lit, rep)] for a string [lit]: the first occurrence only. *)
Fixpoint dropChars (n : nat) (s : string) : string :=
  match n, s with
  | S n', String _ s' => dropChars n' s'
  | _, _ => s
  end.

Fixpoint replaceFirst (lit rep s : string) : string :=
  if String.prefix lit s then (rep ++ dropChars (String.length lit) s)%string
  else match s with
       | EmptyString => EmptyString
       | String c s' => String c (replaceFirst lit rep s')
       end.

Definition normalizeTsConfigs (t : TsConfigs) : list TSProjectConfig :=
  match t with
  | ConfigPath path =>
      [ {| configPath := path;
           name := Some "root";
           rootDir := Some (replaceFirst "/tsconfig.json" "" path) |} ]
  | ConfigList projects => projects
  end.

(** [validateConfig] returns nothing or throws an [Error] with a message. *)
Inductive Validation : Type :=
| Valid
| Invalid (message : string).

Fixpoint checkConfigsExist (sys : Workspace.Sys) (configs : list TSProjectConfig)
  : Validation :=
  match configs with
  | [] => Valid
  | tsConfig :: rest =>
      if negb (Workspace.existsSync sys (configPath tsConfig))
      then Invalid ("tsconfig not found: " ++ configPath tsConfig)
      else checkConfigsExist sys rest
  end.

Definition validateConfig (sys : Workspace.Sys) (config : MCPConfig) : Validation :=
  match read (projectRoot config) with
  | None | Some EmptyString => Invalid "projectRoot is required"
  | Some (String _ _) =>
      match read (tsConfigs config) with
      | None | Some (ConfigPath EmptyString) =>
          Invalid "tsConfigs is required - no TypeScript configs found or specified"
      | Some t =>
          let configs := normalizeTsConfigs t in
          if Nat.eqb (List.length configs) 0
          then Invalid "No valid TypeScript configs found"
          else checkConfigsExist sys configs
      end
  end.

(** *** What the merge lets through *)

Definition withParser (h : Host) (parse : string -> option Parsed) : Host :=
  mkHost (files h) (env h) (parseInt h) parse.

(** What auto-detection makes of [tsConfigs]. *)
Definition detectedConfigs (h : Host) (root : string) (w : Workspace.WorkspaceInfo)
  : TsConfigs :=
  if 0 <? List.length (Workspace.packages w)
  then ConfigList (Workspace.packages w)
  else ConfigPath (Workspace.join (files h) root "tsconfig.json").

Lemma loadConfig_cases :
  forall h root config,
    loadConfig h root = Ok config ->
    let file := fileConfigOf h root in
    let detect := negb (envIs (TS_DIAG_AUTO_DETECT (env h)) "false") in
    maxCacheSize config = Present (envNumber h (TS_DIAG_MAX_CACHE_SIZE (env h)))
    /\ debounceMs config = Present (envNumber h (TS_DIAG_DEBOUNCE_MS (env h)))
    /\ enableIncrementalMode config
       = Present (if envIs (TS_DIAG_INCREMENTAL (env h)) "true"
                  then Some true else None)
    /\ autoDetectWorkspaces config
       = Present (if envIs (TS_DIAG_AUTO_DETECT (env h)) "false"
                  then Some false else None)
    /\ ignorePatterns config
       = match ignorePatterns file with
         | Absent => value Glob.DEFAULT_IGNORE_PATTERNS
         | Present (Some userPatterns) =>
             value (Glob.DEFAULT_IGNORE_PATTERNS ++ userPatterns)
         | Present None => Present None
         end
    /\ (if detect
        then exists w,
               Workspace.detectWorkspace (files h) root = Ok w
               /\ tsConfigs config = value (detectedConfigs h root w)
        else tsConfigs config
             = spreadField (value (ConfigPath "")) (tsConfigs file)).
Proof.
  intros h root config; unfold loadConfig, fileConfigOf; cbv zeta.
  destruct (parsedFile h root) as [|parsed]; [discriminate|].
  set (file := ofFile parsed) in *.
  match goal with
  | |- (if shouldAutoDetect ?c then _ else _) = _ -> _ => set (c2 := c)
  end.
  assert (F : maxCacheSize c2
              = Present (envNumber h (TS_DIAG_MAX_CACHE_SIZE (env h)))
              /\ debounceMs c2 = Present (envNumber h (TS_DIAG_DEBOUNCE_MS (env h)))
              /\ enableIncrementalMode c2
                 = Present (if envIs (TS_DIAG_INCREMENTAL (env h)) "true"
                            then Some true else None)
              /\ autoDetectWorkspaces c2
                 = Present (if envIs (TS_DIAG_AUTO_DETECT (env h)) "false"
                            then Some false else None)
              /\ ignorePatterns c2
                 = match ignorePatterns file with
                   | Absent => value Glob.DEFAULT_IGNORE_PATTERNS
                   | Present (Some userPatterns) =>
                       value (Glob.DEFAULT_IGNORE_PATTERNS ++ userPatterns)
                   | Present None => Present None
                   end
              /\ tsConfigs c2 = spreadField (value (ConfigPath "")) (tsConfigs file)).
  { split; [|split; [|split; [|split; [|split]]]];
      try (unfold c2; destruct (read (ignorePatterns file)); reflexivity).
    unfold c2; destruct (ignorePatterns file) as [|[u|]] eqn:E; cbn [read];
      cbn [ignorePatterns with_ignorePatterns spread spreadField envConfig];
      rewrite ?E; reflexivity. }
  destruct F as (F1 & F2 & F3 & F4 & F5 & F6).
  unfold shouldAutoDetect; rewrite F4; cbn [read].
  destruct (envIs (TS_DIAG_AUTO_DETECT (env h)) "false"); cbn [negb].
  - intros [= <-]; repeat split; assumption.
  - destruct (Workspace.detectWorkspace (files h) root) as [w|e]; cbn [bind];
      [|discriminate].
    intro Hc.
    assert (Et : config = with_tsConfigs (detectedConfigs h root w) c2).
    { unfold detectedConfigs.
      destruct (0 <? List.length (Workspace.packages w)); congruence. }
    subst config.
    cbn [with_tsConfigs maxCacheSize debounceMs enableIncrementalMode
           autoDetectWorkspaces ignorePatterns tsConfigs].
    repeat split; try assumption.
    exists w; split; reflexivity.
Qed.

(** X27: the configuration file cannot change what the environment
    decides.  Whatever [.ts-diagnostics.json] holds, and whatever the
    defaults are, a loaded configuration has [maxCacheSize] and [debounceMs]
    from [TS_DIAG_MAX_CACHE_SIZE] and [TS_DIAG_DEBOUNCE_MS] ([undefined]
    when the variable is unset), [enableIncrementalMode] only from
    [TS_DIAG_INCREMENTAL], and [autoDetectWorkspaces] only from
    [TS_DIAG_AUTO_DETECT]; and unless that variable is the text [false],
    [tsConfigs] is what workspace detection found, not what the file
    lists. *)
Theorem file_cannot_change_environment_settings :
  forall h parse' root config config',
    loadConfig h root = Ok config ->
    loadConfig (withParser h parse') root = Ok config' ->
    read (maxCacheSize config) = envNumber h (TS_DIAG_MAX_CACHE_SIZE (env h))
    /\ read (debounceMs config) = envNumber h (TS_DIAG_DEBOUNCE_MS (env h))
    /\ read (enableIncrementalMode config)
       = (if envIs (TS_DIAG_INCREMENTAL (env h)) "true" then Some true else None)
    /\ read (autoDetectWorkspaces config)
       = (if envIs (TS_DIAG_AUTO_DETECT (env h)) "false" then Some false else None)
    /\ maxCacheSize config' = maxCacheSize config
    /\ debounceMs config' = debounceMs config
    /\ enableIncrementalMode config' = enableIncrementalMode config
    /\ autoDetectWorkspaces config' = autoDetectWorkspaces config
    /\ (envIs (TS_DIAG_AUTO_DETECT (env h)) "false" = false ->
        tsConfigs config' = tsConfigs config
        /\ exists w,
             Workspace.detectWorkspace (files h) root = Ok w
             /\ read (tsConfigs config) = Some (detectedConfigs h root w)).
Proof.
  intros h parse' root config config' H H'.
  apply loadConfig_cases in H; apply loadConfig_cases in H'; cbv zeta in H, H'.
  change (env (withParser h parse')) with (env h) in H'.
  change (files (withParser h parse')) with (files h) in H'.
  change (envNumber (withParser h parse')) with (envNumber h) in H'.
  destruct H as (A1 & A2 & A3 & A4 & _ & A6).
  destruct H' as (B1 & B2 & B3 & B4 & _ & B6).
  rewrite A1, A2, A3, A4, B1, B2, B3, B4; cbn [read].
  repeat split.
  - rewrite H in A6, B6; cbn [negb] in A6, B6.
    destruct A6 as (w & Ew & ->), B6 as (w' & Ew' & ->).
    change (detectedConfigs (withParser h parse')) with (detectedConfigs h).
    congruence.
  - rewrite H in A6; cbn [negb] in A6.
    destruct A6 as (w & Ew & ->); exists w; split; [exact Ew|reflexivity].
Qed.

(** [config.ignorePatterns || []], the patterns that [main] hands on. *)
Definition patternsOrEmpty (config : MCPConfig) : list string :=
  match read (ignorePatterns config) with
  | Some patterns => patterns
  | None => []
  end.

(** X28: the default ignore patterns are kept unless the configuration file
    sets [ignorePatterns] to [null].  When the file has no such property the
    loaded patterns are the twelve defaults, and when it lists patterns they
    are the defaults followed by the patterns of the file; either way the
    first pattern begins with a star, and [shouldIgnoreFile] throws for
    every path that is checked against them.  When the file has the property
    with the value [null] (or another falsy value), the spread copies it
    over the defaults and the merge is skipped: the loaded configuration has
    [ignorePatterns] set to that value, the defaults are lost, [main] hands
    on the empty list, and [shouldIgnoreFile] ignores no path and does not
    throw. *)
Theorem ignore_patterns_extend_the_defaults :
  forall h root config,
    loadConfig h root = Ok config ->
    match ignorePatterns (fileConfigOf h root) with
    | Absent =>
        ignorePatterns config = Present (Some Glob.DEFAULT_IGNORE_PATTERNS)
        /\ forall filePath,
             Glob.shouldIgnoreFile filePath (patternsOrEmpty config)
             = Throw Glob.nothingToRepeat
    | Present (Some userPatterns) =>
        ignorePatterns config
        = Present (Some (Glob.DEFAULT_IGNORE_PATTERNS ++ userPatterns))
        /\ forall filePath,
             Glob.shouldIgnoreFile filePath (patternsOrEmpty config)
             = Throw Glob.nothingToRepeat
    | Present None =>
        ignorePatterns config = Present None
        /\ patternsOrEmpty config = []
        /\ forall filePath,
             Glob.shouldIgnoreFile filePath (patternsOrEmpty config) = Ok false
    end.
Proof.
  intros h root config H.
  apply loadConfig_cases in H; cbv zeta in H.
  destruct H as (_ & _ & _ & _ & E & _); unfold patternsOrEmpty; rewrite E.
  destruct (ignorePatterns (fileConfigOf h root)) as [|[userPatterns|]];
    cbn [read value].
  - split; [reflexivity|intro filePath; apply Glob.shouldIgnoreFile_star].
  - split; [reflexivity|intro filePath; apply Glob.shouldIgnoreFile_star].
  - repeat split.
Qed.

(** *** Validation and start *)

Lemma checkConfigsExist_Valid :
  forall sys configs,
    checkConfigsExist sys configs = Valid
    <-> forall c, In c configs -> Workspace.existsSync sys (configPath c) = true.
Proof.
  intros sys configs; induction configs as [|c configs IH]; cbn [checkConfigsExist].
  - split; [intros _ c []|reflexivity].
  - destruct (Workspace.existsSync sys (configPath c)) eqn:E; cbn [negb].
    + rewrite IH; split.
      * intros H c' [<-|Hc']; [exact E|now apply H].
      * intros H c' Hc'; apply H; now right.
    + split; [discriminate|].
      intro H; rewrite (H c (or_introl eq_refl)) in E; discriminate.
Qed.

(** X29: [validateConfig] accepts a configuration exactly when it has a
    non-empty [projectRoot], [tsConfigs] is a non-empty path or a non-empty
    list, and the config file of every project exists.  When it does, a new
    manager over the normalized projects skips none of them at [start], on
    the same file system: every project gets a compiler session and an
    index. *)
Theorem validated_projects_all_start :
  forall sys config,
    (validateConfig sys config = Valid
     <-> exists c r t,
           read (projectRoot config) = Some (String c r)
           /\ read (tsConfigs config) = Some t
           /\ t <> ConfigPath "" /\ t <> ConfigList []
           /\ forall p, In p (normalizeTsConfigs t) ->
                        Workspace.existsSync sys (configPath p) = true)
    /\ (validateConfig sys config = Valid ->
        forall t (h : Manager.Host) cacheSizeMB p,
          read (tsConfigs config) = Some t ->
          (forall path, Manager.existsSync h path = Workspace.existsSync sys path) ->
          In p (normalizeTsConfigs t) ->
          let s := Manager.start h (Manager.new (normalizeTsConfigs t) cacheSizeMB) in
          In (configPath p) (JsMap.keys (Manager.watchers s))
          /\ In (configPath p) (JsMap.keys (Manager.diagnosticsByConfig s))).
Proof.
  intros sys config.
  assert (Hiff : validateConfig sys config = Valid
                 <-> exists c r t,
                       read (projectRoot config) = Some (String c r)
                       /\ read (tsConfigs config) = Some t
                       /\ t <> ConfigPath "" /\ t <> ConfigList []
                       /\ forall p, In p (normalizeTsConfigs t) ->
                            Workspace.existsSync sys (configPath p) = true).
  { unfold validateConfig.
    destruct (read (projectRoot config)) as [[|c r]|].
    - split; [discriminate|]; intros (c & r & t & E & _); discriminate.
    - destruct (read (tsConfigs config)) as [[[|a path]|projects]|].
      + split; [discriminate|]; intros (c' & r' & t & _ & [= <-] & N & _).
        now contradiction N.
      + cbv zeta; cbn [normalizeTsConfigs List.length Nat.eqb].
        rewrite checkConfigsExist_Valid; split.
        * intro H; exists c, r, (ConfigPath (String a path)).
          repeat split; try discriminate; exact H.
        * intros (c' & r' & t & _ & [= <-] & _ & _ & H); exact H.
      + cbv zeta; cbn [normalizeTsConfigs].
        destruct projects as [|p0 projects]; cbn [List.length Nat.eqb].
        * split; [discriminate|]; intros (c' & r' & t & _ & [= <-] & _ & N & _).
          now contradiction N.
        * rewrite checkConfigsExist_Valid; split.
          -- intro H; exists c, r, (ConfigList (p0 :: projects)).
             repeat split; try discriminate; exact H.
          -- intros (c' & r' & t & _ & [= <-] & _ & _ & H); exact H.
      + split; [discriminate|]; intros (c' & r' & t & _ & E & _); discriminate.
    - split; [discriminate|]; intros (c & r & t & E & _); discriminate. }
  split; [exact Hiff|].
  intros Hv t h mb p Et Hfs Hp; cbv zeta.
  apply Hiff in Hv; destruct Hv as (c & r & t' & _ & Et' & _ & _ & Hex).
  rewrite Et in Et'; injection Et' as <-.
  destruct (Manager.start_new_started (normalizeTsConfigs t) mb h (configPath p))
    as [S1 S2].
  assert (G : exists c0, In c0 (normalizeTsConfigs t)
                         /\ configPath c0 = configPath p
                         /\ Manager.existsSync h (configPath p) = true).
  { exists p; repeat split; [exact Hp|]; rewrite Hfs; now apply Hex. }
  split; [now apply S2|now apply S1].
Qed.

(** *** A project with a configuration file *)

Definition sampleSettings : FileConfig :=
  {| f_projectRoot := Absent;
     f_tsConfigs := value (ConfigPath "/elsewhere/tsconfig.json");
     f_maxCacheSize := value 50%Z;
     f_debounceMs := Absent;
     f_maxConcurrentQueries := Absent;
     f_healthCheckInterval := Absent;
     f_autoRestartOnCrash := Absent;
     f_fallbackToDirectTsc := Absent;
     f_enableIncrementalMode := Absent;
     f_enablePersistentCache := Absent;
     f_autoDetectWorkspaces := value false;
     f_workspacePatterns := Absent;
     f_ignorePatterns := value ["tmp/x"] |}.

(** The same settings with [ignorePatterns] set to [null]. *)
Definition nullPatterns : FileConfig :=
  mkFile (f_projectRoot sampleSettings) (f_tsConfigs sampleSettings)
         (f_maxCacheSize sampleSettings) (f_debounceMs sampleSettings)
         (f_maxConcurrentQueries sampleSettings)
         (f_healthCheckInterval sampleSettings)
         (f_autoRestartOnCrash sampleSettings)
         (f_fallbackToDirectTsc sampleSettings)
         (f_enableIncrementalMode sampleSettings)
         (f_enablePersistentCache sampleSettings)
         (f_autoDetectWorkspaces sampleSettings)
         (f_workspacePatterns sampleSettings)
         (Present None).

Definition sampleHost : Host :=
  {| files := Workspace.tableSys
                (("/r/.ts-diagnostics.json", "settings")
                 :: ("/r/package.json", "root manifest with workspaces")
                 :: Workspace.packageFiles);
     env := mkEnv None None None None;
     parseInt := fun _ => NaN;
     parseConfig := fun content =>
       if String.eqb content "settings"
       then Some (ParsedValue sampleSettings) else None |}.

Definition loaded (h : Host) (root : string) : MCPConfig :=
  match loadConfig h root with
  | Ok config => config
  | Throw _ => ofFile emptyFile
  end.

Lemma file_cannot_change_environment_settings_witness :
  read (maxCacheSize (loaded sampleHost "/r"))
  = envNumber sampleHost (TS_DIAG_MAX_CACHE_SIZE (env sampleHost))
  /\ tsConfigs (loaded (withParser sampleHost (fun _ => None)) "/r")
     = tsConfigs (loaded sampleHost "/r").
Proof.
  assert (E1 : loadConfig sampleHost "/r" = Ok (loaded sampleHost "/r"))
    by (vm_compute; reflexivity).
  assert (E2 : loadConfig (withParser sampleHost (fun _ => None)) "/r"
               = Ok (loaded (withParser sampleHost (fun _ => None)) "/r"))
    by (vm_compute; reflexivity).
  pose proof (file_cannot_change_environment_settings sampleHost (fun _ => None)
                "/r" _ _ E1 E2) as W.
  split; [exact (proj1 W)|].
  refine (proj1 (proj2 (proj2 (proj2 (proj2 (proj2 (proj2 (proj2 (proj2 W))))))) _)).
  reflexivity.
Defined.

Lemma ignore_patterns_extend_the_defaults_witness :
  ignorePatterns (loaded sampleHost "/r")
  = Present (Some (Glob.DEFAULT_IGNORE_PATTERNS ++ ["tmp/x"]))
  /\ ignorePatterns (loaded (withParser sampleHost (fun _ => None)) "/r")
     = Present (Some Glob.DEFAULT_IGNORE_PATTERNS)
  /\ ignorePatterns
       (loaded (withParser sampleHost (fun _ => Some (ParsedValue nullPatterns))) "/r")
     = Present None.
Proof.
  assert (E1 : loadConfig sampleHost "/r" = Ok (loaded sampleHost "/r"))
    by (vm_compute; reflexivity).
  assert (E2 : loadConfig (withParser sampleHost (fun _ => None)) "/r"
               = Ok (loaded (withParser sampleHost (fun _ => None)) "/r"))
    by (vm_compute; reflexivity).
  assert (E3 : loadConfig (withParser sampleHost (fun _ => Some (ParsedValue nullPatterns))) "/r"
               = Ok (loaded (withParser sampleHost (fun _ => Some (ParsedValue nullPatterns)))
                       "/r"))
    by (vm_compute; reflexivity).
  split; [|split].
  - exact (proj1 (ignore_patterns_extend_the_defaults _ _ _ E1)).
  - exact (proj1 (ignore_patterns_extend_the_defaults _ _ _ E2)).
  - exact (proj1 (ignore_patterns_extend_the_defaults _ _ _ E3)).
Defined.

(** A configuration file that holds the text [null]: the spread takes
    nothing from it, and reading its [ignorePatterns] ends [loadConfig]. *)
Example null_file_throws :
  loadConfig (withParser sampleHost (fun _ => Some ParsedNull)) "/r"
  = Throw (TypeError "Cannot read properties of null (reading 'ignorePatterns')").
Proof. reflexivity. Qed.

Definition sampleManagerHost : Manager.Host :=
  {| Manager.existsSync := Workspace.existsSync (files sampleHost);
     Manager.firstBuild := fun _ => [] |}.

Lemma validated_projects_all_start_witness :
  In "/r/apps/web/tsconfig.json"
     (JsMap.keys
        (Manager.watchers
           (Manager.start sampleManagerHost
              (Manager.new
                 (normalizeTsConfigs
                    (ConfigList [Workspace.configOf "/r/apps/web" "web"])) 100)))).
Proof.
  refine (proj1 (proj2 (validated_projects_all_start (files sampleHost)
                          (loaded sampleHost "/r")) _
                   (ConfigList [Workspace.configOf "/r/apps/web" "web"])
                   sampleManagerHost 100%N
                   (Workspace.configOf "/r/apps/web" "web") _ _ _)).
  - vm_compute; reflexivity.
  - vm_compute; reflexivity.
  - intro path; reflexivity.
  - left; reflexivity.
Defined.

End Config.

(** ** The tool handlers of the MCP server ([mcp/server.ts]) *)

Module Server.

Import Types.

(** A [tools/call] request: the tool name and the [arguments] member, which
    a request may leave out ([None]).  Where the member is there, it is an
    object of the type the handler casts it to: [filePath] and [packageName]
    are strings where the tool requires them, and [filePath] may be missing
    in the object for [has_errors] and [clear_cache].  Any other tool name is
    [unknown]. *)
Inductive ToolCall : Type :=
| get_all_diagnostics
| get_file_diagnostics (args : option string)
| get_package_diagnostics (args : option string)
| has_errors (args : option (option string))
| get_diagnostic_count
| get_watch_status
| get_cache_stats
| clear_cache (args : option (option string))
| list_packages
| unknown (name : string).

(** What is handed to [JSON.stringify]. *)
Inductive Reply : Type :=
| RResult (result : DiagnosticResult)
| RHasErrors (hasErrors : bool) (file : string)
| RCounts (errors warnings suggestions : nat)
| RStatus (status : WatchStatus)
| RCacheStats (stats : CacheStats)
| RCleared (cleared : string) (success : bool)
| RPackages (packages : list string).

(** The text of the one content item: a message, or the JSON text of a
    reply. *)
Inductive Content : Type :=
| Text (text : string)
| Json (reply : Reply).

Record CallToolResult : Type := mkResult {
  content : Content;
  isError : bool
}.

(** What the promise of the request handler settles to: a result, or a
    rejection, which the protocol layer answers with an error response
    instead of a tool result. *)
Inductive Outcome : Type :=
| Resolved (result : CallToolResult)
| Rejected (error : JsError).

(** [args.filePath] and [args.packageName] when the request has no
    [arguments]. *)
Definition readOfUndefined (property : string) : JsError :=
  TypeError ("Cannot read properties of undefined (reading '" ++ property ++ "')").

(** [x || 'all'] for an optional string. *)
Definition orAll (filePath : option string) : string :=
  match filePath with
  | Some (String c p) => String c p
  | _ => "all"
  end.

(** *** The tool implementations

    Each is an [async] method: an exception in its body rejects the promise
    it returns.  [now] is the time of the call. *)

Definition getAllDiagnostics (now : N) (s : Manager.State)
  : Result CallToolResult * Manager.State :=
  (Ok (mkResult (Json (RResult (Manager.getAllDiagnostics now s))) false), s).

Definition getFileDiagnostics (now : N) (args : option string) (s : Manager.State)
  : Result CallToolResult * Manager.State :=
  match args with
  | None => (Throw (readOfUndefined "filePath"), s)
  | Some filePath =>
      let '(result, s) := Manager.getFileDiagnostics now filePath s in
      (Ok (mkResult (Json (RResult result)) false), s)
  end.

Definition getPackageDiagnostics (now : N) (args : option string)
    (s : Manager.State) : Result CallToolResult * Manager.State :=
  match args with
  | None => (Throw (readOfUndefined "packageName"), s)
  | Some packageName =>
      match Manager.getPackageDiagnostics now packageName s with
      | None =>
          (Ok (mkResult (Text ("Package not found: " ++ packageName)) true), s)
      | Some result => (Ok (mkResult (Json (RResult result)) false), s)
      end
  end.

Definition hasErrors (now : N) (args : option (option string)) (s : Manager.State)
  : Result CallToolResult * Manager.State :=
  match args with
  | None => (Throw (readOfUndefined "filePath"), s)
  | Some filePath =>
      let '(hasErrors, s) := Manager.hasErrors now filePath s in
      (Ok (mkResult (Json (RHasErrors hasErrors (orAll filePath))) false), s)
  end.

Definition getDiagnosticCount (now : N) (s : Manager.State)
  : Result CallToolResult * Manager.State :=
  let '(errors, warnings, suggestions) := Manager.getDiagnosticCount now s in
  (Ok (mkResult (Json (RCounts errors warnings suggestions)) false), s).

Definition getWatchStatus (s : Manager.State)
  : Result CallToolResult * Manager.State :=
  (Ok (mkResult (Json (RStatus (Manager.getStatus s))) false), s).

Definition getCacheStats (s : Manager.State)
  : Result CallToolResult * Manager.State :=
  (Ok (mkResult (Json (RCacheStats (Manager.getCacheStats s))) false), s).

Definition clearCache (args : option (option string)) (s : Manager.State)
  : Result CallToolResult * Manager.State :=
  match args with
  | None => (Throw (readOfUndefined "filePath"), s)
  | Some filePath =>
      let s := match filePath with
               | Some (String c p) => Manager.clearFileDiagnostics (String c p) s
               | _ => Manager.clearAllDiagnostics s
               end in
      (Ok (mkResult (Json (RCleared (orAll filePath) true)) false), s)
  end.

Definition listPackages (s : Manager.State)
  : Result CallToolResult * Manager.State :=
  (Ok (mkResult (Json (RPackages (Manager.getPackages s))) false), s).

(** [return this.tool(args)] inside the [try]: the promise is returned
    without [await], so its rejection is the rejection of the handler and
    never reaches the [catch]. *)
Definition returned (r : Result CallToolResult * Manager.State)
  : Outcome * Manager.State :=
  match fst r with
  | Ok result => (Resolved result, snd r)
  | Throw e => (Rejected e, snd r)
  end.

(** The request handler of [CallToolRequestSchema].  Only the [throw] of
    the [default] case happens inside the [try] and is turned into an error
    result by the [catch]. *)
Definition handle (now : N) (call : ToolCall) (s : Manager.State)
  : Outcome * Manager.State :=
  match call with
  | get_all_diagnostics => returned (getAllDiagnostics now s)
  | get_file_diagnostics args => returned (getFileDiagnostics now args s)
  | get_package_diagnostics args => returned (getPackageDiagnostics now args s)
  | has_errors args => returned (hasErrors now args s)
  | get_diagnostic_count => returned (getDiagnosticCount now s)
  | get_watch_status => returned (getWatchStatus s)
  | get_cache_stats => returned (getCacheStats s)
  | clear_cache args => returned (clearCache args s)
  | list_packages => returned (listPackages s)
  | unknown name =>
      (Resolved (mkResult (Text ("Error: " ++ "Unknown tool: " ++ name)) true), s)
  end.

(** The calls that do not go through the cache and clear nothing. *)
Definition readsOnly (call : ToolCall) : bool :=
  match call with
  | get_file_diagnostics (Some _) | clear_cache (Some _) => false
  | has_errors (Some (Some (String _ _))) => false
  | _ => true
  end.

(** A call of a tool that reads its arguments, in a request without
    [arguments]. *)
Definition withoutArguments (call : ToolCall) : option string :=
  match call with
  | get_file_diagnostics None | has_errors None | clear_cache None =>
      Some "filePath"
  | get_package_diagnostics None => Some "packageName"
  | _ => None
  end.

Lemma returned_Ok :
  forall result s, returned (Ok result, s) = (Resolved result, s).
Proof. reflexivity. Qed.

(** X30: what a client of the tools can rely on.  A call that neither goes
    through the cache nor clears leaves the manager as it is; the two tools
    that go through the cache leave the Store as it is.  A request without
    [arguments] for one of the four tools that read them is rejected with
    the [TypeError] of the read, also for [has_errors] and [clear_cache],
    whose arguments are optional: it gets no tool result, and nothing is
    read or cleared.  Every other call gets a result, which is an error
    result ([isError]) exactly when the tool is unknown or
    [get_package_diagnostics] is asked for a name that no configured project
    has.  [clear_cache] with arguments that have no path, or the empty path,
    clears everything: the next [get_all_diagnostics] returns an empty
    result and [has_errors] answers false; with a non-empty path it clears
    that file in every project. *)
Theorem tool_calls :
  forall now call s,
    let r := fst (handle now call s) in
    let s' := snd (handle now call s) in
    (readsOnly call = true -> s' = s)
    /\ ((forall args, call <> clear_cache args) ->
        Manager.diagnosticsByConfig s' = Manager.diagnosticsByConfig s
        /\ Manager.arrays s' = Manager.arrays s)
    /\ match withoutArguments call with
       | Some property => r = Rejected (readOfUndefined property) /\ s' = s
       | None => exists result, r = Resolved result
       end
    /\ ((exists result, r = Resolved result /\ isError result = true)
        <-> (exists name, call = unknown name)
            \/ (exists packageName,
                   call = get_package_diagnostics (Some packageName)
                   /\ forall c, In c (Manager.configs s) ->
                                name c <> Some packageName))
    /\ (forall filePath later,
          call = clear_cache (Some filePath) ->
          r = Resolved (mkResult (Json (RCleared (orAll filePath) true)) false)
          /\ match filePath with
             | Some (String c p) =>
                 s' = Manager.clearFileDiagnostics (String c p) s
             | _ =>
                 s' = Manager.clearAllDiagnostics s
                 /\ fst (handle later get_all_diagnostics s')
                    = Resolved
                        (mkResult
                           (Json (RResult
                                    (Manager.buildDiagnosticResult
                                       later [] "all" true)))
                           false)
                 /\ fst (handle later (has_errors (Some None)) s')
                    = Resolved (mkResult (Json (RHasErrors false "all")) false)
             end).
Proof.
  intros now call s; cbv zeta; split; [|split; [|split; [|split]]].
  - destruct call as [|[f|]|[p|]|[[[|c f]|]|]| | | |[[[|c f]|]|]| |n];
      cbn [readsOnly]; try discriminate; intros _; try reflexivity;
      cbn [handle getPackageDiagnostics getDiagnosticCount];
      try (now destruct (Manager.getPackageDiagnostics now p s));
      try (now destruct (Manager.getDiagnosticCount now s) as [[e w] g]).
  - intros Hne.
    destruct call as [|[f|]|[p|]|[[[|c f]|]|]| | | |o| |n];
      try (split; reflexivity);
      try (contradiction (Hne o eq_refl));
      cbn [handle getFileDiagnostics getPackageDiagnostics hasErrors
             getDiagnosticCount].
    + pose proof (Manager.getFileDiagnostics_frame now f s) as [_ F].
      destruct (Manager.getFileDiagnostics now f s) as [r1 s1]; exact F.
    + destruct (Manager.getPackageDiagnostics now p s); split; reflexivity.
    + pose proof (Manager.hasErrors_frame now (Some (String c f)) s) as [_ F].
      destruct (Manager.hasErrors now (Some (String c f)) s) as [b s1]; exact F.
  - destruct call as [|[f|]|[p|]|[o|]| | | |[o|]| |n];
      cbn [withoutArguments handle getFileDiagnostics getPackageDiagnostics
             hasErrors getDiagnosticCount clearCache];
      try (split; reflexivity); try (eexists; reflexivity).
    + destruct (Manager.getFileDiagnostics now f s) as [r1 s1];
        eexists; reflexivity.
    + destruct (Manager.getPackageDiagnostics now p s); eexists; reflexivity.
    + destruct (Manager.hasErrors now o s) as [b s1]; eexists; reflexivity.
  - assert (Hres : forall o : Outcome,
               match o with
               | Resolved result => isError result = false
               | Rejected _ => True
               end ->
               (exists result', o = Resolved result' /\ isError result' = true) ->
               False).
    { intros [result|e] Hgood (result' & E & H'); [|discriminate].
      injection E as <-; congruence. }
    destruct call as [|[f|]|[p|]|[o|]| | | |[o|]| |n];
      cbn [handle getAllDiagnostics getFileDiagnostics getPackageDiagnostics
             hasErrors getDiagnosticCount getWatchStatus getCacheStats
             clearCache listPackages];
      try (destruct (Manager.getFileDiagnostics now f s) as [r1 s1]);
      try (destruct (Manager.hasErrors now o s) as [b s1]);
      try (destruct (Manager.getDiagnosticCount now s) as [[e w] g]);
      try (split;
           [intro H; exfalso; revert H; apply Hres; cbn [fst returned isError];
            first [reflexivity|exact I]
           |intros [[n E]|[q [E _]]]; discriminate]).
    + unfold Manager.getPackageDiagnostics.
      destruct (find (Manager.hasName p) (Manager.configs s)) as [config|] eqn:E.
      * split; [intro H; exfalso; revert H; apply Hres; reflexivity|].
        intros [[n E']|[q [[= <-] H]]]; [discriminate|].
        apply Manager.find_hasName_Some in E; destruct E as [E1 E2].
        now contradiction (H config E1).
      * split; [intros _|intros _; eexists; split; reflexivity].
        right; exists p; split; [reflexivity|].
        now apply Manager.find_hasName_None.
    + split; [intros _; left; now exists n|intros _; eexists; split; reflexivity].
  - intros filePath later ->; cbn [handle clearCache].
    assert (Hall : forall s0,
               fst (handle later get_all_diagnostics (Manager.clearAllDiagnostics s0))
               = Resolved
                   (mkResult
                      (Json (RResult
                               (Manager.buildDiagnosticResult later [] "all" true)))
                      false)
               /\ fst (handle later (has_errors (Some None))
                         (Manager.clearAllDiagnostics s0))
                  = Resolved (mkResult (Json (RHasErrors false "all")) false)).
    { intro s0; cbn [handle]; unfold getAllDiagnostics, hasErrors, returned.
      cbn [fst snd Manager.hasErrors orAll].
      pose proof (Manager.clearAllDiagnostics_project) as P.
      assert (E : Manager.getAllDiagnostics later (Manager.clearAllDiagnostics s0)
                  = Manager.buildDiagnosticResult later [] "all" true).
      { unfold Manager.getAllDiagnostics; f_equal.
        apply Manager.flat_map_nil; intros [cfgPath m] _; apply P. }
      rewrite E; split; reflexivity. }
    split; [reflexivity|].
    destruct filePath as [[|c p]|]; try reflexivity;
      (split; [reflexivity|apply Hall]).
Qed.

Lemma tool_calls_witness :
  snd (handle 300 (get_package_diagnostics (Some "nobody")) Manager.afterTwoPasses)
  = Manager.afterTwoPasses
  /\ handle 300 (clear_cache None) Manager.afterTwoPasses
     = (Rejected (readOfUndefined "filePath"), Manager.afterTwoPasses)
  /\ snd (handle 300 (clear_cache (Some None)) Manager.afterTwoPasses)
     = Manager.clearAllDiagnostics Manager.afterTwoPasses.
Proof.
  split; [|split].
  - refine (proj1 (tool_calls 300 (get_package_diagnostics (Some "nobody"))
                     Manager.afterTwoPasses) _).
    reflexivity.
  - pose proof (proj1 (proj2 (proj2 (tool_calls 300 (clear_cache None)
                                       Manager.afterTwoPasses)))) as [E1 E2].
    rewrite (surjective_pairing (handle 300 (clear_cache None)
                                   Manager.afterTwoPasses)).
    exact (f_equal2 pair E1 E2).
  - exact (proj1 (proj2 (proj2 (proj2 (proj2 (proj2
             (tool_calls 300 (clear_cache (Some None)) Manager.afterTwoPasses))))
             None 300%N eq_refl))).
Defined.

End Server.
